(** * FloppyForge core: a shallow embedding of [floppyforge_core.py]

    The development follows the layout of the Python class [FloppyForgeCore]:
    basic utilities ([human_bytes], [platform_name]), device resolution and
    discovery, then the two raw back ends (Windows and Unix) with their chunk
    loops.  The callers in [floppyforge_gui.py] come last: the choice of the
    size to wipe and the two workers that run an operation and word its
    outcome.

    Conventions.  A Python [int] is a [Z], [bytes] a [list Byte.byte], [str]
    a [string].  A function that can raise returns a [result]; code that
    talks to the device or to a callback lives in a small monad that threads
    the trace of the calls made so far and may raise.  What the operating
    system and the callbacks answer is not in the source: it is a parameter,
    the [host] for what device resolution asks and the [world] for what one
    operation asks.  The source does not bound the zero-fill loop; its model
    takes a number of iterations and tells when they run out. *)

From Stdlib Require Import ZArith List String Ascii Bool Lia Arith.
From Stdlib Require Import DecimalString.
From Stdlib Require Strings.Byte.
Import ListNotations.

Local Open Scope string_scope.
Local Open Scope list_scope.
Local Open Scope Z_scope.

(** String concatenation, kept apart from list append. *)
Infix "+++" := String.append (right associativity, at level 60).

(** ** Python exceptions and results

    [OSError errno msg] is [OSError(errno, msg)]; [OSErrorFile] is the
    [OSError] that also names a file, as [os.open] raises it.  Python makes
    either an instance of [PermissionError] or [FileNotFoundError] by its
    error number.  [FileNotFoundError msg] is the exception with a message
    only that the device resolution raises. *)

Inductive exn : Type :=
| RuntimeError (msg : string)
| OSError (errno : Z) (msg : string)
| OSErrorFile (errno : Z) (msg : string) (filename : string)
| FileNotFoundError (msg : string)
| OverflowError (msg : string)
| ValueError (msg : string)
| AttributeError (msg : string)
| TypeError (msg : string)
| CalledProcessError (returncode : Z).

Inductive result (A : Type) : Type :=
| Ok (a : A)
| Raise (e : exn).
Arguments Ok {A} a.
Arguments Raise {A} e.

(** ** Decimal and hexadecimal rendering of integers *)

Definition str_N (n : N) : string := NilZero.string_of_uint (N.to_uint n).

(** [str(z)] for a Python [int]. *)
Definition str_int (z : Z) : string :=
  if z <? 0 then "-" +++ str_N (Z.to_N (- z)) else str_N (Z.to_N z).

Definition digit_char (d : Z) : ascii := ascii_of_nat (48 + Z.to_nat d).

(** The [p] low decimal digits of [r], most significant first. *)
Fixpoint frac_digits (p : nat) (r : Z) : string :=
  match p with
  | O => ""
  | S p' => frac_digits p' (r / 10) +++ String (digit_char (r mod 10)) ""
  end.

Definition hex_char (d : Z) : ascii :=
  if d <? 10 then ascii_of_nat (48 + Z.to_nat d) else ascii_of_nat (87 + Z.to_nat d).

Fixpoint hex_digits (fuel : nat) (z : Z) (acc : string) : string :=
  match fuel with
  | O => acc
  | S k =>
      let acc' := String (hex_char (z mod 16)) acc in
      if z / 16 =? 0 then acc' else hex_digits k (z / 16) acc'
  end.

(** Python's [hex(z)]. *)
Definition py_hex (z : Z) : string :=
  if z <? 0 then "-0x" +++ hex_digits (S (Z.to_nat (Z.log2 (- z)))) (- z) ""
  else "0x" +++ hex_digits (S (Z.to_nat (Z.log2 z))) z "".

(** ** Binary floating point, as far as [human_bytes] uses it

    A finite double is [mant * 2 ^ expo].  [human_bytes] converts an [int],
    compares with [1024.0], divides by [1024.0] (exact: only the exponent
    moves, and the operand is at least 1024) and prints with a fixed number of
    decimals. *)

Record float : Type := mkFloat { mant : Z; expo : Z }.

Definition round_half_even (num den : Z) : Z :=
  let q := num / den in
  let r := num mod den in
  if (2 * r >? den) || ((2 * r =? den) && Z.odd q) then q + 1 else q.

(** [float(n)]: round to nearest, ties to even, on 53 bits; too large an
    integer raises [OverflowError]. *)
Definition float_of_int (n : Z) : result float :=
  let a := Z.abs n in
  let bits := if a =? 0 then 0 else Z.log2 a + 1 in
  if bits <=? 53 then Ok (mkFloat n 0)
  else
    let sh := bits - 53 in
    let q := round_half_even a (2 ^ sh) in
    if q * 2 ^ sh >=? 2 ^ 1024
    then Raise (OverflowError "int too large to convert to float")
    else Ok (mkFloat (Z.sgn n * q) sh).

(** [x < k] for an integer constant [k]. *)
Definition float_ltb (x : float) (k : Z) : bool :=
  if 0 <=? expo x then mant x * 2 ^ expo x <? k
  else mant x <? k * 2 ^ (- expo x).

(** [x / 1024.0]. *)
Definition fdiv1024 (x : float) : float := mkFloat (mant x) (expo x - 10).

(** [abs(x) * 10^p], rounded to the nearest integer, ties to even: the digits
    that ["{x:.pf}"] prints. *)
Definition scaled_digits (p : nat) (x : float) : Z :=
  let m := Z.abs (mant x) * 10 ^ Z.of_nat p in
  if 0 <=? expo x then m * 2 ^ expo x
  else round_half_even m (2 ^ (- expo x)).

(** The format specification [.pf]. *)
Definition format_f (p : nat) (x : float) : string :=
  let r := scaled_digits p x in
  let sign := if mant x <? 0 then "-" else "" in
  let int_part := str_N (Z.to_N (r / 10 ^ Z.of_nat p)) in
  match p with
  | O => sign +++ int_part
  | S _ => sign +++ int_part +++ "." +++ frac_digits p r
  end.

(** ** Basic utilities *)

Definition units : list string := ["B"; "KB"; "MB"; "GB"; "TB"].

(** The [for u in units] loop of [human_bytes]; [None] when the loop falls
    through. *)
Fixpoint human_bytes_loop (us : list string) (size : float) : option string :=
  match us with
  | [] => None
  | u :: us' =>
      if float_ltb size 1024 || String.eqb u (last units "")
      then Some (if String.eqb u "B" then format_f 0 size +++ " " +++ u
                 else format_f 2 size +++ " " +++ u)
      else human_bytes_loop us' (fdiv1024 size)
  end.

Definition human_bytes (n : Z) : result string :=
  match float_of_int n with
  | Raise e => Raise e
  | Ok size =>
      match human_bytes_loop units size with
      | Some s => Ok s
      | None => Ok (str_int n +++ " B")
      end
  end.

(** ** Text

    Python [str] values are modelled by [string]; the code handles drive
    letters, [sys.platform] and the output of [lsblk], all ASCII.  The
    functions below are Python's on that alphabet. *)

Definition chars (s : string) : list ascii := list_ascii_of_string s.
Definition text (l : list ascii) : string := string_of_list_ascii l.

Definition code (c : ascii) : N := N_of_ascii c.

(** [repr(s)] for a string of characters below 256: single quotes unless
    the string holds a single quote and no double quote; the quote and the
    backslash escaped; tab, line feed and carriage return by their letter;
    any other character that is not printable as [\xNN]. *)
Definition double_quote : ascii := ascii_of_nat 34.

Definition is_printable (c : ascii) : bool :=
  let n := code c in
  ((32 <=? n) && (n <? 127) || (161 <=? n) && negb (n =? 173))%N.

Definition repr_char (quote c : ascii) : string :=
  let n := code c in
  if (Ascii.eqb c quote || (n =? 92))%N then String "\" (String c "")
  else if (n =? 9)%N then "\t"
  else if (n =? 10)%N then "\n"
  else if (n =? 13)%N then "\r"
  else if is_printable c then String c ""
  else "\x" +++ String (hex_char (Z.of_N (n / 16)))
                     (String (hex_char (Z.of_N (n mod 16))) "").

Definition py_repr (s : string) : string :=
  let has c := existsb (Ascii.eqb c) (chars s) in
  let quote := if has "'"%char && negb (has double_quote) then double_quote
               else "'"%char in
  String quote (String.concat "" (map (repr_char quote) (chars s)))
  +++ String quote "".

(** [str.isspace] on one character. *)
Definition is_space (c : ascii) : bool :=
  let n := code c in
  ((9 <=? n) && (n <=? 13) || (28 <=? n) && (n <=? 32) || (n =? 133) || (n =? 160))%N.

(** The line boundaries of [str.splitlines]. *)
Definition is_linebreak (c : ascii) : bool :=
  let n := code c in
  ((10 <=? n) && (n <=? 13) || (28 <=? n) && (n <=? 30) || (n =? 133))%N.

Definition upper_char (c : ascii) : ascii :=
  let n := code c in
  if ((97 <=? n) && (n <=? 122))%N then ascii_of_N (n - 32) else c.

(** [str.upper]. *)
Definition upper (s : string) : string := text (map upper_char (chars s)).

Fixpoint lstrip_chars (l : list ascii) : list ascii :=
  match l with
  | c :: l' => if is_space c then lstrip_chars l' else l
  | [] => []
  end.

(** [str.strip]. *)
Definition strip (s : string) : string :=
  text (rev (lstrip_chars (rev (lstrip_chars (chars s))))).

(** [str.split()]: the maximal runs of non-blank characters. *)
Fixpoint split_chars (cur : list ascii) (l : list ascii) : list string :=
  match l with
  | [] => match cur with [] => [] | _ => [text (rev cur)] end
  | c :: l' =>
      if is_space c
      then match cur with
           | [] => split_chars [] l'
           | _ => text (rev cur) :: split_chars [] l'
           end
      else split_chars (c :: cur) l'
  end.

Definition split (s : string) : list string := split_chars [] (chars s).

(** [str.splitlines()]: a carriage return followed by a line feed is one
    boundary; no empty last line. *)
Fixpoint splitlines_chars (cur : list ascii) (l : list ascii) : list string :=
  match l with
  | [] => match cur with [] => [] | _ => [text (rev cur)] end
  | c :: l' =>
      if is_linebreak c
      then text (rev cur) ::
           match l' with
           | d :: l'' =>
               if ((code c =? 13) && (code d =? 10))%N
               then splitlines_chars [] l''
               else splitlines_chars [] l'
           | [] => splitlines_chars [] l'
           end
      else splitlines_chars (c :: cur) l'
  end.

Definition splitlines (s : string) : list string := splitlines_chars [] (chars s).

Definition is_digit (c : ascii) : bool := ((48 <=? code c) && (code c <=? 57))%N.

(** Decimal digits with single underscores between digits. *)
Fixpoint parse_digits (acc : Z) (after_digit : bool) (l : list ascii) : option Z :=
  match l with
  | [] => if after_digit then Some acc else None
  | c :: l' =>
      if is_digit c then parse_digits (10 * acc + (Z.of_N (code c) - 48)) true l'
      else if ((code c =? 95)%N && after_digit)%bool then parse_digits acc false l'
      else None
  end.

(** [int(s)] on a string. *)
Definition py_int (s : string) : result Z :=
  let bad := Raise (ValueError ("invalid literal for int() with base 10: " +++ s)) in
  match chars (strip s) with
  | c :: l =>
      if (code c =? 45)%N then
        match parse_digits 0 false l with Some v => Ok (- v) | None => bad end
      else if (code c =? 43)%N then
        match parse_digits 0 false l with Some v => Ok v | None => bad end
      else
        match parse_digits 0 false (c :: l) with Some v => Ok v | None => bad end
  | [] => bad
  end.

(** ** Values returned by [plistlib.loads] *)

#[warnings="-register-all"]
Inductive pyval : Type :=
| PNone
| PBool (b : bool)
| PInt (z : Z)
| PFloat (x : float)
| PStr (s : string)
| PBytes (bs : list Byte.byte)
| PDatetime (stamp : Z)
| PList (l : list pyval)
| PDict (d : list (string * pyval)).

(** Truth value of an object. *)
Definition truthy (v : pyval) : bool :=
  match v with
  | PNone => false
  | PBool b => b
  | PInt z => negb (z =? 0)
  | PFloat x => negb (mant x =? 0)
  | PStr s => negb (String.eqb s "")
  | PBytes bs => match bs with [] => false | _ => true end
  | PDatetime _ => true
  | PList l => match l with [] => false | _ => true end
  | PDict d => match d with [] => false | _ => true end
  end.

Fixpoint assoc {A} (key : string) (d : list (string * A)) : option A :=
  match d with
  | [] => None
  | (k, v) :: d' => if String.eqb k key then Some v else assoc key d'
  end.

Definition type_name (v : pyval) : string :=
  match v with
  | PNone => "NoneType" | PBool _ => "bool" | PInt _ => "int" | PFloat _ => "float"
  | PStr _ => "str" | PBytes _ => "bytes" | PDatetime _ => "datetime.datetime"
  | PList _ => "list" | PDict _ => "dict"
  end.

(** [v.get(key, default)]: only a dict has the method. *)
Definition py_get (v : pyval) (key : string) (default : pyval) : result pyval :=
  match v with
  | PDict d => Ok (match assoc key d with Some x => x | None => default end)
  | _ => Raise (AttributeError ("'" +++ type_name v +++ "' object has no attribute 'get'"))
  end.

(** The items a [for] loop draws from [v]. *)
Definition py_iter (v : pyval) : result (list pyval) :=
  match v with
  | PList l => Ok l
  | PDict d => Ok (map (fun kv => PStr (fst kv)) d)
  | PStr s => Ok (map (fun c => PStr (String c "")) (chars s))
  | PBytes bs => Ok (map (fun b => PInt (Z.of_N (Byte.to_N b))) bs)
  | _ => Raise (TypeError ("'" +++ type_name v +++ "' object is not iterable"))
  end.

(** [isinstance(v, int)]; [bool] is a subclass of [int]. *)
Definition is_int (v : pyval) : bool :=
  match v with PInt _ | PBool _ => true | _ => false end.

Definition int_value (v : pyval) : option Z :=
  match v with
  | PInt z => Some z
  | PBool b => Some (if b then 1 else 0)
  | _ => None
  end.

(** ** Module constants *)

Definition FLOPPY_720K : Z := 737280.
Definition FLOPPY_1440K : Z := 1474560.
Definition FLOPPY_2880K : Z := 2949120.
Definition AMIGA_ADF_880K : Z := 901120.

Definition floppy_sizes : list Z :=
  [FLOPPY_720K; FLOPPY_1440K; FLOPPY_2880K; AMIGA_ADF_880K].

Definition is_floppy_size (size : Z) : bool := existsb (Z.eqb size) floppy_sizes.

(** ** The host the core runs on

    What the code asks of its surroundings before it touches a device:
    [sys.platform], [os.path.exists], the outcome of the two inventory
    commands ([Raise] when [subprocess.check_output], or [plistlib.loads] for
    macOS, raises), and Python's [str()] on the values the code never builds
    itself (containers, reals, byte strings, dates), [os.O_SYNC] when the
    module has it, and the message of an operating system error. *)

Record host : Type := mkHost {
  sys_platform : string;
  path_exists : string -> bool;
  lsblk_output : result string;
  diskutil_plist : result pyval;
  str_compound : pyval -> string;
  O_SYNC : option Z;
  strerror : Z -> string
}.

(** The text an f-string field [{v}] inserts. *)
Definition py_format (h : host) (v : pyval) : string :=
  match v with
  | PNone => "None"
  | PBool true => "True"
  | PBool false => "False"
  | PInt z => str_int z
  | PStr s => s
  | _ => str_compound h v
  end.

Definition platform_name (h : host) : string :=
  if String.prefix "win" (sys_platform h) then "windows"
  else if String.eqb (sys_platform h) "darwin" then "macos"
  else "linux".

Definition is_windows (h : host) : bool := String.eqb (platform_name h) "windows".

Definition drive_device_path_windows (drive : string) : string :=
  "\\.\" +++ drive +++ ":".

(** ** Device discovery *)

(** The three [int(...)] conversions inside the [try] of the Linux scan. *)
Definition parse_row (size_s rm_s ro_s : string) : result (Z * Z * Z) :=
  match py_int size_s with
  | Raise e => Raise e
  | Ok size =>
      match py_int rm_s with
      | Raise e => Raise e
      | Ok rm =>
          match py_int ro_s with
          | Raise e => Raise e
          | Ok ro => Ok (size, rm, ro)
          end
      end
  end.

(** The loop over [lines[1:]]; [continue] is the recursive call. *)
Fixpoint linux_scan (lines : list string) : result (option string) :=
  match lines with
  | [] => Ok None
  | ln :: rest =>
      match split ln with
      | name :: size_s :: rm_s :: typ :: ro_s :: _ =>
          match parse_row size_s rm_s ro_s with
          | Raise _ => linux_scan rest
          | Ok (size, rm, ro) =>
              if negb (String.eqb typ "disk") || negb (rm =? 1) || negb (ro =? 0)
              then linux_scan rest
              else if is_floppy_size size then Ok (Some ("/dev/" +++ name))
              else linux_scan rest
          end
      | _ => linux_scan rest
      end
  end.

Definition _linux_find_floppy_sized_block_device (h : host) : result (option string) :=
  match lsblk_output h with
  | Raise _ => Ok None
  | Ok out =>
      let lines :=
        map strip (filter (fun ln => negb (String.eqb (strip ln) "")) (splitlines out)) in
      if (List.length lines <? 2)%nat then Ok None
      else linux_scan (tl lines)
  end.

(** The loop over the disks of the macOS scan. *)
Fixpoint mac_scan (h : host) (disks : list pyval) : result (option string) :=
  match disks with
  | [] => Ok None
  | disk :: rest =>
      match py_get disk "DeviceIdentifier" PNone with
      | Raise e => Raise e
      | Ok disk_id =>
          match py_get disk "Size" PNone with
          | Raise e => Raise e
          | Ok size =>
              if negb (truthy disk_id) || negb (is_int size) then mac_scan h rest
              else
                match int_value size with
                | Some z =>
                    if is_floppy_size z then Ok (Some ("/dev/r" +++ py_format h disk_id))
                    else mac_scan h rest
                | None => mac_scan h rest
                end
          end
      end
  end.

Definition _mac_find_floppy_sized_disk (h : host) : result (option string) :=
  match diskutil_plist h with
  | Raise _ => Ok None
  | Ok data =>
      match py_get data "AllDisksAndPartitions" (PList []) with
      | Raise e => Raise e
      | Ok all =>
          match py_iter all with
          | Raise e => Raise e
          | Ok disks => mac_scan h disks
          end
      end
  end.

(** ** Device resolution *)

(** [for dev in candidates: if os.path.exists(dev): return dev]. *)
Fixpoint first_existing (h : host) (candidates : list string) : option string :=
  match candidates with
  | [] => None
  | dev :: rest => if path_exists h dev then Some dev else first_existing h rest
  end.

(** A found device must also be a true value: [if dev:]. *)
Definition found (dev : option string) : option string :=
  match dev with
  | Some d => if String.eqb d "" then None else Some d
  | None => None
  end.

Definition resolve_device_path (h : host) (drive_letter : string) : result string :=
  let drive_letter := strip (upper drive_letter) in
  let plat := platform_name h in
  if String.eqb plat "windows" then Ok (drive_device_path_windows drive_letter)
  else if String.eqb plat "linux" then
    let candidates :=
      if String.eqb drive_letter "A" then ["/dev/fd0"; "/dev/floppy/0"]
      else ["/dev/fd1"; "/dev/floppy/1"] in
    match first_existing h candidates with
    | Some dev => Ok dev
    | None =>
        match _linux_find_floppy_sized_block_device h with
        | Raise e => Raise e
        | Ok dev =>
            match found dev with
            | Some d => Ok d
            | None => Raise (FileNotFoundError "No suitable floppy device found on Linux.")
            end
        end
    end
  else if String.eqb plat "macos" then
    match _mac_find_floppy_sized_disk h with
    | Raise e => Raise e
    | Ok dev =>
        match found dev with
        | Some d => Ok d
        | None => Raise (FileNotFoundError "No suitable floppy device found on macOS.")
        end
    end
  else Raise (FileNotFoundError "Unsupported platform.").

(** [str.replace(old, new)] for a non-empty [old]; [skip] counts the
    characters of a match still to be dropped. *)
Fixpoint replace_from (old new : string) (skip : nat) (s : string) : string :=
  match s with
  | EmptyString => EmptyString
  | String c s' =>
      match skip with
      | S k => replace_from old new k s'
      | O =>
          if String.prefix old s
          then new +++ replace_from old new (String.length old - 1) s'
          else String c (replace_from old new 0 s')
      end
  end.

Definition replace (old new s : string) : string := replace_from old new 0 s.

(** ** The world of one operation

    The target device and the callbacks are outside the code; their answers
    are given by call number.  A raw write (WinAPI [WriteFile] or [os.write])
    either fails or commits a prefix of its buffer and returns the length of
    that prefix. *)

Inductive write_result : Type :=
| Wrote (n : Z)
| WriteFailed (err : Z).

Record world : Type := mkWorld {
  stop_cb : nat -> bool;
  has_log_cb : bool;
  CreateFileW : option Z;
  DeviceIoControl : Z -> option Z;
  raw_write : nat -> list Byte.byte -> write_result;
  FlushFileBuffers : option Z;
  subprocess_run : option exn;
  os_open : option Z;
  os_fsync : option Z;
  os_close : option Z
}.

(** For the WinAPI fields and the [os] fields, [None] is success and
    [Some err] a failure with that error code; [subprocess_run] is the
    exception the call raises, if any. *)

(** The calls the code makes, in order: the observable run. *)
Inductive event : Type :=
| EvLog (message level : string)
| EvStop (answer : bool)
| EvProgress (written total : Z)
| EvCreateFile (device : string) (ok : bool)
| EvIoctl (code : Z) (ok : bool)
| EvWriteFile (buf : list Byte.byte) (res : option Z)
| EvFlush (ok : bool)
| EvCloseHandle
| EvRun (argv : list string)
| EvOpen (device : string) (flags : Z) (ok : bool)
| EvWrite (buf : list Byte.byte) (res : option Z)
| EvFsync (ok : bool)
| EvClose (ok : bool).

Definition trace : Type := list event.

Definition is_stop (e : event) : bool :=
  match e with EvStop _ => true | _ => false end.

Definition is_write (e : event) : bool :=
  match e with EvWriteFile _ _ | EvWrite _ _ => true | _ => false end.

(** How often [stop_cb] and the raw write have been called so far. *)
Definition polls (t : trace) : nat := List.length (filter is_stop t).
Definition writes (t : trace) : nat := List.length (filter is_write t).

(** The bytes one call put on the device. *)
Definition bytes_of (e : event) : list Byte.byte :=
  match e with
  | EvWriteFile buf (Some k) | EvWrite buf (Some k) => firstn (Z.to_nat k) buf
  | _ => []
  end.

(** The bytes on the device after a run, in the order they were written. *)
Definition disk (t : trace) : list Byte.byte := flat_map bytes_of t.

Inductive outcome (A : Type) : Type :=
| Done (a : A)
| Raised (e : exn)
| OutOfFuel.
Arguments Done {A} a.
Arguments Raised {A} e.
Arguments OutOfFuel {A}.

(** ** A trace and exception monad *)

Definition M (A : Type) : Type := trace -> outcome A * trace.

Definition ret {A} (a : A) : M A := fun t => (Done a, t).

Definition raise {A} (e : exn) : M A := fun t => (Raised e, t).

Definition out_of_fuel {A} : M A := fun t => (OutOfFuel, t).

Definition bind {A B} (c : M A) (k : A -> M B) : M B :=
  fun t =>
    match c t with
    | (Done a, t') => k a t'
    | (Raised e, t') => (Raised e, t')
    | (OutOfFuel, t') => (OutOfFuel, t')
    end.

Notation "x <- c ;; k" := (bind c (fun x => k))
  (at level 61, c at next level, right associativity).
Notation "c ;; k" := (bind c (fun _ => k))
  (at level 61, right associativity).

Definition lift {A} (r : result A) : M A :=
  match r with
  | Ok a => ret a
  | Raise e => raise e
  end.

Definition emit (e : event) : M unit := fun t => (Done tt, t ++ [e]).

(** [try: body finally: final].  An exception of [final] replaces the one of
    [body]; a body that never ends never reaches [final]. *)
Definition try_finally {A} (body : M A) (final : M unit) : M A :=
  fun t =>
    match body t with
    | (OutOfFuel, t') => (OutOfFuel, t')
    | (r, t') =>
        match final t' with
        | (Done _, t'') => (r, t'')
        | (Raised e, t'') => (Raised e, t'')
        | (OutOfFuel, t'') => (OutOfFuel, t'')
        end
    end.

(** [try: body except Exception: pass]. *)
Definition try_pass (body : M unit) : M unit :=
  fun t =>
    match body t with
    | (Raised _, t') => (Done tt, t')
    | r => r
    end.

(** ** Callbacks and the raw write *)

Definition call_stop_cb (w : world) : M bool :=
  fun t => let b := stop_cb w (polls t) in (Done b, t ++ [EvStop b]).

Definition call_progress_cb (written total : Z) : M unit :=
  emit (EvProgress written total).

(** [if log_cb: log_cb(message, level)]. *)
Definition call_log_cb (w : world) (message level : string) : M unit :=
  if has_log_cb w then emit (EvLog message level) else ret tt.

(** The count a write returns when the device takes [n] bytes of [buf]. *)
Definition committed (n : Z) (buf : list Byte.byte) : Z :=
  Z.max 0 (Z.min n (Z.of_nat (List.length buf))).

(** One raw write, recorded as [ev]; a failure raises [err code]. *)
Definition raw_call (ev : list Byte.byte -> option Z -> event) (err : Z -> exn)
    (w : world) (buf : list Byte.byte) : M Z :=
  fun t =>
    match raw_write w (writes t) buf with
    | Wrote n => let k := committed n buf in (Done k, t ++ [ev buf (Some k)])
    | WriteFailed code => (Raised (err code), t ++ [ev buf None])
    end.

Definition interrupted : exn := RuntimeError "Interrupted by user.".

(** ** The chunk loops

    Both back ends contain the same two loops, around their own raw write
    [prim]: [_writefile] on Windows, [os.write] on Unix. *)

(** [f.read(size)] on the bytes left in the file: the chunk and the rest.
    A size of [-1] reads everything.  The source passes [chunk_size] as it
    is: a size below [-1] makes [read] raise [ValueError], and one too large
    for a [bytes] object [OverflowError]; those sizes are outside this
    function, and a property that depends on what is read is stated for the
    sizes it covers. *)
Definition file_read (size : Z) (f : list Byte.byte) : list Byte.byte * list Byte.byte :=
  if size <? 0 then (f, [])
  else (firstn (Z.to_nat size) f, skipn (Z.to_nat size) f).

(** The [while True] loop of [_write_windows] and [_write_unix]; the value
    is [written_total] when the loop ends. *)
Fixpoint write_loop (prim : list Byte.byte -> M Z) (w : world) (chunk_size : Z)
    (fuel : nat) (f : list Byte.byte) (written_total total : Z) : M Z :=
  match fuel with
  | O => out_of_fuel
  | S fuel' =>
      stop <- call_stop_cb w ;;
      if stop : bool then raise interrupted
      else
        match fst (file_read chunk_size f) with
        | [] => ret written_total
        | (_ :: _) as buf =>
            n <- prim buf ;;
            let written_total := written_total + n in
            call_progress_cb written_total total ;;
            write_loop prim w chunk_size fuel' (snd (file_read chunk_size f))
                       written_total total
        end
  end.

(** The [while written_total < size] loop of [_format_windows] and
    [_format_unix]. *)
Fixpoint format_loop (prim : list Byte.byte -> M Z) (w : world) (chunk_size : Z)
    (fuel : nat) (size written_total : Z) : M Z :=
  if written_total <? size then
    match fuel with
    | O => out_of_fuel
    | S fuel' =>
        stop <- call_stop_cb w ;;
        if stop : bool then raise interrupted
        else
          let remaining := size - written_total in
          let n := Z.min chunk_size remaining in
          let buf := repeat Byte.x00 (Z.to_nat n) in
          k <- prim buf ;;
          let written_total := written_total + k in
          call_progress_cb written_total size ;;
          format_loop prim w chunk_size fuel' size written_total
    end
  else ret written_total.

(** ** Windows back end *)

Definition FSCTL_LOCK_VOLUME : Z := 589848.      (* 0x00090018 *)
Definition FSCTL_UNLOCK_VOLUME : Z := 589852.    (* 0x0009001C *)
Definition FSCTL_DISMOUNT_VOLUME : Z := 589856.  (* 0x00090020 *)

(** [_winerr(prefix)] with [err] the thread's last error. *)
Definition _winerr (prefix : string) (err : Z) : exn :=
  OSError err (prefix +++ " (WinError " +++ str_int err +++ ")").

(** [self._kernel32] is set by [__init__] whenever the platform is Windows,
    so the guard of the source reduces to the platform test. *)
Definition _open_device_handle (h : host) (w : world) (device : string) : M unit :=
  if negb (is_windows h) then raise (RuntimeError "WinAPI handle open called on non-Windows")
  else
    match CreateFileW w with
    | None => emit (EvCreateFile device true)
    | Some err => emit (EvCreateFile device false) ;; raise (_winerr "CreateFileW failed" err)
    end.

Definition _device_ioctl (w : world) (code : Z) : M unit :=
  match DeviceIoControl w code with
  | None => emit (EvIoctl code true)
  | Some err =>
      emit (EvIoctl code false) ;;
      raise (_winerr ("DeviceIoControl failed (code=" +++ py_hex code +++ ")") err)
  end.

(** [WriteFile] receives [len(data)] as a [DWORD]; buffers are taken to be
    shorter than [2^32] bytes, as the chunks of an image are. *)
Definition _writefile (w : world) (data : list Byte.byte) : M Z :=
  raw_call EvWriteFile (_winerr "WriteFile failed") w data.

Definition _flush (w : world) : M unit :=
  match FlushFileBuffers w with
  | None => emit (EvFlush true)
  | Some err =>
      emit (EvFlush false) ;;
      if err =? 1 then ret tt
      else raise (OSError err ("FlushFileBuffers failed (WinError " +++ str_int err +++ ")"))
  end.

Definition _close_handle : M unit := try_pass (emit EvCloseHandle).

Definition _write_windows (h : host) (w : world) (chunk_size : Z)
    (image : list Byte.byte) (device : string) (total : Z) : M unit :=
  _open_device_handle h w device ;;
  try_finally
    (_device_ioctl w FSCTL_LOCK_VOLUME ;;
     _device_ioctl w FSCTL_DISMOUNT_VOLUME ;;
     write_loop (_writefile w) w chunk_size (S (List.length image)) image 0 total ;;
     _flush w ;;
     call_log_cb w "WinAPI flush complete (or safely ignored)" "info")
    (try_pass (_device_ioctl w FSCTL_UNLOCK_VOLUME) ;;
     _close_handle).

Definition _format_windows (h : host) (w : world) (chunk_size : Z) (fuel : nat)
    (size : Z) (device : string) : M unit :=
  _open_device_handle h w device ;;
  try_finally
    (_device_ioctl w FSCTL_LOCK_VOLUME ;;
     _device_ioctl w FSCTL_DISMOUNT_VOLUME ;;
     format_loop (_writefile w) w chunk_size fuel size 0 ;;
     _flush w ;;
     call_log_cb w "WinAPI flush complete (or safely ignored)" "info")
    (try_pass (_device_ioctl w FSCTL_UNLOCK_VOLUME) ;;
     _close_handle).

(** ** Unix back end (Linux and macOS) *)

Definition call_subprocess_run (w : world) (argv : list string) : M unit :=
  emit (EvRun argv) ;;
  match subprocess_run w with
  | Some e => raise e
  | None => ret tt
  end.

Definition _unix_unmount_best_effort (h : host) (w : world) (dev : string) : M unit :=
  let plat := platform_name h in
  try_pass
    (if String.eqb plat "linux" then call_subprocess_run w ["umount"; dev]
     else if String.eqb plat "macos" then
       let base := replace "/dev/rdisk" "/dev/disk" dev in
       call_subprocess_run w ["diskutil"; "unmountDisk"; base]
     else ret tt).

Definition O_WRONLY : Z := 1.

Definition _unix_open_flags (h : host) : Z :=
  match O_SYNC h with
  | Some sync => Z.lor O_WRONLY sync
  | None => O_WRONLY
  end.

Definition os_error (h : host) (err : Z) : exn := OSError err (strerror h err).

(** The [OSError] of [os.open] carries the path it was given. *)
Definition os_file_error (h : host) (err : Z) (path : string) : exn :=
  OSErrorFile err (strerror h err) path.

Definition call_os_open (h : host) (w : world) (device : string) (flags : Z) : M unit :=
  match os_open w with
  | None => emit (EvOpen device flags true)
  | Some err => emit (EvOpen device flags false) ;; raise (os_file_error h err device)
  end.

Definition call_os_write (h : host) (w : world) (buf : list Byte.byte) : M Z :=
  raw_call EvWrite (os_error h) w buf.

Definition call_os_fsync (h : host) (w : world) : M unit :=
  match os_fsync w with
  | None => emit (EvFsync true)
  | Some err => emit (EvFsync false) ;; raise (os_error h err)
  end.

Definition call_os_close (h : host) (w : world) : M unit :=
  match os_close w with
  | None => emit (EvClose true)
  | Some err => emit (EvClose false) ;; raise (os_error h err)
  end.

Definition _write_unix (h : host) (w : world) (chunk_size : Z)
    (image : list Byte.byte) (device : string) (total : Z) : M unit :=
  _unix_unmount_best_effort h w device ;;
  call_os_open h w device (_unix_open_flags h) ;;
  try_finally
    (write_loop (call_os_write h w) w chunk_size (S (List.length image)) image 0 total ;;
     call_os_fsync h w ;;
     call_log_cb w "fsync complete" "info")
    (call_os_close h w).

Definition _format_unix (h : host) (w : world) (chunk_size : Z) (fuel : nat)
    (size : Z) (device : string) : M unit :=
  _unix_unmount_best_effort h w device ;;
  call_os_open h w device (_unix_open_flags h) ;;
  try_finally
    (format_loop (call_os_write h w) w chunk_size fuel size 0 ;;
     call_os_fsync h w ;;
     call_log_cb w "fsync complete" "info")
    (call_os_close h w).

(** ** Public operations

    [image] is the content of the file at [image_path]; its size is what
    [stat] reports.  [fuel] bounds the iterations of the zero-fill loop, which
    the source does not bound. *)

Definition write_image (h : host) (w : world) (chunk_size : Z)
    (image : list Byte.byte) (drive_letter : string) : M unit :=
  device <- lift (resolve_device_path h drive_letter) ;;
  let total := Z.of_nat (List.length image) in
  call_log_cb w ("Target device: " +++ device) "info" ;;
  if String.eqb (platform_name h) "windows"
  then _write_windows h w chunk_size image device total
  else _write_unix h w chunk_size image device total.

Definition format_zero_fill (h : host) (w : world) (chunk_size : Z) (fuel : nat)
    (size : Z) (drive_letter : string) : M unit :=
  device <- lift (resolve_device_path h drive_letter) ;;
  call_log_cb w ("Target device: " +++ device) "info" ;;
  if String.eqb (platform_name h) "windows"
  then _format_windows h w chunk_size fuel size device
  else _format_unix h w chunk_size fuel size device.

(** ** The size formatting as the specification words it

    "Repeatedly divides by 1024 across units B, KB, MB, GB, TB, stopping at
    the last unit that still exceeds 1, with one decimal of precision for all
    units above bytes and zero decimals for bytes." *)

(** [x / 1024^k]. *)
Fixpoint scale (k : nat) (x : float) : float :=
  match k with
  | O => x
  | S k' => scale k' (fdiv1024 x)
  end.

(** [1 < x]. *)
Definition float_gt1 (x : float) : bool :=
  if 0 <=? expo x then 1 <? mant x * 2 ^ expo x
  else 2 ^ (- expo x) <? mant x.

(** The last of the units [k .. k + more] whose scaled value exceeds 1. *)
Fixpoint spec_unit (more : nat) (k : nat) (x : float) : nat :=
  match more with
  | O => k
  | S more' =>
      let later := spec_unit more' (S k) x in
      if float_gt1 (scale later x) then later else k
  end.

Definition human_bytes_spec (n : Z) : result string :=
  match float_of_int n with
  | Raise e => Raise e
  | Ok x =>
      let k := spec_unit 4 0 x in
      Ok (format_f (match k with O => 0 | S _ => 1 end) (scale k x)
          +++ " " +++ nth k units "")
  end.

(** What [human_bytes] prints for the unit of index [k]. *)
Definition render (k : nat) (x : float) : string :=
  match k with
  | O => format_f 0 x +++ " B"
  | S _ => format_f 2 x +++ " " +++ nth k units ""
  end.

(** ** Hosts and worlds used in examples *)

Definition no_inventory : result string := Raise (CalledProcessError 1).
Definition no_plist : result pyval := Raise (CalledProcessError 1).

(** A Linux machine with a floppy drive at [/dev/fd0]. *)
Definition linux_host : host :=
  mkHost "linux" (fun p => String.eqb p "/dev/fd0") no_inventory no_plist
         (fun _ => "") (Some 1052672) (fun _ => "").

Definition windows_host : host :=
  mkHost "win32" (fun _ => false) no_inventory no_plist (fun _ => "") None (fun _ => "").

(** A FreeBSD machine with no floppy device and no [lsblk]. *)
Definition freebsd_host : host :=
  mkHost "freebsd14" (fun _ => false) no_inventory no_plist
         (fun _ => "") (Some 128) (fun _ => "").

(** A Mac whose [diskutil] prints a property list with an array at its
    root. *)
Definition mac_host_array_plist : host :=
  mkHost "darwin" (fun _ => false) no_inventory (Ok (PList []))
         (fun _ => "") (Some 128) (fun _ => "").

(** A device that takes every byte, with [stop_cb] answering [stop]. *)
Definition world_with (stop : nat -> bool) (write : nat -> list Byte.byte -> write_result)
  : world :=
  mkWorld stop true None (fun _ => None) write None None None None None.

Definition whole (_ : nat) (buf : list Byte.byte) : write_result :=
  Wrote (Z.of_nat (List.length buf)).

Definition good_world : world := world_with (fun _ => false) whole.

(** The first raw write takes one byte only; the later ones take all. *)
Definition first_short (k : nat) (buf : list Byte.byte) : write_result :=
  match k with
  | O => Wrote 1
  | S _ => Wrote (Z.of_nat (List.length buf))
  end.

Definition short_world : world := world_with (fun _ => false) first_short.

(** [stop_cb] answers true at poll [k] and later. *)
Definition stop_from (k : nat) : world := world_with (fun p => (k <=? p)%nat) whole.

Definition image5 : list Byte.byte :=
  [Byte.x01; Byte.x02; Byte.x03; Byte.x04; Byte.x05].

(** ** Reading a trace *)

Definition progress_of (e : event) : list (Z * Z) :=
  match e with EvProgress written total => [(written, total)] | _ => [] end.

(** The calls to [progress_cb], in order. *)
Definition progress_calls (t : trace) : list (Z * Z) := flat_map progress_of t.

Definition request_of (e : event) : list (list Byte.byte) :=
  match e with EvWriteFile buf _ | EvWrite buf _ => [buf] | _ => [] end.

(** The chunks handed to the raw write, in order. *)
Definition write_requests (t : trace) : list (list Byte.byte) := flat_map request_of t.

(** A raw write that took its whole buffer. *)
Definition whole_write (e : event) : Prop :=
  match e with
  | EvWriteFile buf r | EvWrite buf r => r = Some (Z.of_nat (List.length buf))
  | _ => True
  end.

(** A raw write that returned, having taken fewer bytes than its buffer. *)
Definition short_write (e : event) : Prop :=
  match e with
  | EvWriteFile buf (Some k) | EvWrite buf (Some k) => k < Z.of_nat (List.length buf)
  | _ => False
  end.

Fixpoint nondecreasing (l : list Z) : Prop :=
  match l with
  | a :: l' => match l' with b :: _ => a <= b | [] => True end /\ nondecreasing l'
  | [] => True
  end.

Definition is_progress (e : event) : bool :=
  match e with EvProgress _ _ => true | _ => false end.

(** An event of the chunk loop. *)
Definition in_loop (e : event) : bool := is_stop e || is_write e || is_progress e.

(** The events before the first raw write. *)
Fixpoint before_first_write (t : trace) : trace :=
  match t with
  | [] => []
  | e :: t' => if is_write e then [] else e :: before_first_write t'
  end.

Definition is_lock_ok (e : event) : bool :=
  match e with EvIoctl c true => c =? FSCTL_LOCK_VOLUME | _ => false end.

Definition is_dismount_ok (e : event) : bool :=
  match e with EvIoctl c true => c =? FSCTL_DISMOUNT_VOLUME | _ => false end.

Definition is_unmount (e : event) : bool :=
  match e with
  | EvRun (cmd :: _) => String.eqb cmd "umount" || String.eqb cmd "diskutil"
  | _ => false
  end.

(** Volume acquisition: lock then dismount succeeded on Windows, the
    unmount utility was run on Unix. *)
Fixpoint locked_then_dismounted (locked : bool) (t : trace) : bool :=
  match t with
  | [] => false
  | e :: t' =>
      if locked && is_dismount_ok e then true
      else locked_then_dismounted (locked || is_lock_ok e) t'
  end.

Definition acquired (on_windows : bool) (t : trace) : bool :=
  if on_windows then locked_then_dismounted false t else existsb is_unmount t.

Definition is_opened (e : event) : bool :=
  match e with EvCreateFile _ ok | EvOpen _ _ ok => ok | _ => false end.

Definition is_unlock (e : event) : bool :=
  match e with EvIoctl c _ => c =? FSCTL_UNLOCK_VOLUME | _ => false end.

Definition is_close (e : event) : bool :=
  match e with EvCloseHandle | EvClose _ => true | _ => false end.

Definition count (p : event -> bool) (t : trace) : nat := List.length (filter p t).

(** The run ends with the release of the device: unlock then close on
    Windows, close on Unix. *)
Definition ends_with_release (on_windows : bool) (t : trace) : bool :=
  match rev t with
  | c :: rest =>
      if on_windows
      then match c, rest with
           | EvCloseHandle, u :: _ => is_unlock u
           | _, _ => false
           end
      else match c with EvClose _ => true | _ => false end
  | [] => false
  end.

(** ** The runs of the two loops

    One rule per way through an iteration; [p] and [i] number the next poll
    of [stop_cb] and the next raw write. *)

Section Runs.

Variable ev : list Byte.byte -> option Z -> event.
Variable err : Z -> exn.
Variable w : world.
Variable chunk_size : Z.

Inductive write_run (total : Z) :
  nat -> nat -> list Byte.byte -> Z -> trace -> outcome Z -> Prop :=
| wr_interrupted p i f wt :
    stop_cb w p = true ->
    write_run total p i f wt [EvStop true] (Raised interrupted)
| wr_eof p i f wt :
    stop_cb w p = false ->
    fst (file_read chunk_size f) = [] ->
    write_run total p i f wt [EvStop false] (Done wt)
| wr_failed p i f wt code :
    stop_cb w p = false ->
    fst (file_read chunk_size f) <> [] ->
    raw_write w i (fst (file_read chunk_size f)) = WriteFailed code ->
    write_run total p i f wt
      [EvStop false; ev (fst (file_read chunk_size f)) None] (Raised (err code))
| wr_chunk p i f wt n t o :
    stop_cb w p = false ->
    fst (file_read chunk_size f) <> [] ->
    raw_write w i (fst (file_read chunk_size f)) = Wrote n ->
    write_run total (S p) (S i) (snd (file_read chunk_size f))
      (wt + committed n (fst (file_read chunk_size f))) t o ->
    write_run total p i f wt
      (EvStop false
       :: ev (fst (file_read chunk_size f))
             (Some (committed n (fst (file_read chunk_size f))))
       :: EvProgress (wt + committed n (fst (file_read chunk_size f))) total
       :: t) o.

(** The zero-filled chunk the format loop builds at [wt]. *)
Definition zero_chunk (size wt : Z) : list Byte.byte :=
  repeat Byte.x00 (Z.to_nat (Z.min chunk_size (size - wt))).

Inductive format_run (size : Z) :
  nat -> nat -> Z -> trace -> outcome Z -> Prop :=
| fr_done p i wt :
    size <= wt ->
    format_run size p i wt [] (Done wt)
| fr_interrupted p i wt :
    wt < size ->
    stop_cb w p = true ->
    format_run size p i wt [EvStop true] (Raised interrupted)
| fr_failed p i wt code :
    wt < size ->
    stop_cb w p = false ->
    raw_write w i (zero_chunk size wt) = WriteFailed code ->
    format_run size p i wt [EvStop false; ev (zero_chunk size wt) None]
      (Raised (err code))
| fr_chunk p i wt n t o :
    wt < size ->
    stop_cb w p = false ->
    raw_write w i (zero_chunk size wt) = Wrote n ->
    format_run size (S p) (S i) (wt + committed n (zero_chunk size wt)) t o ->
    format_run size p i wt
      (EvStop false
       :: ev (zero_chunk size wt) (Some (committed n (zero_chunk size wt)))
       :: EvProgress (wt + committed n (zero_chunk size wt)) size
       :: t) o.

End Runs.

(** The device takes at least one byte of every non-empty buffer. *)
Definition makes_progress (w : world) : Prop :=
  forall i buf, buf <> [] -> exists n, raw_write w i buf = Wrote n /\ 1 <= n.

(** No raw write fails. *)
Definition writes_return (w : world) : Prop :=
  forall i buf, exists n, raw_write w i buf = Wrote n.

Definition never_stops (w : world) : Prop := forall p, stop_cb w p = false.


(** A raw write that returned: a chunk has been written. *)
Definition is_committed (e : event) : bool :=
  match e with
  | EvWriteFile _ (Some _) | EvWrite _ (Some _) => true
  | _ => false
  end.

(** The two ways a raw write is recorded. *)
Definition raw_event (ev : list Byte.byte -> option Z -> event) : Prop :=
  ev = EvWriteFile \/ ev = EvWrite.

(** The device resolves and is acquired: opened, and on Windows locked and
    dismounted. *)
Definition setup_ok (h : host) (w : world) (drive_letter : string) : Prop :=
  (exists device, resolve_device_path h drive_letter = Ok device) /\
  if is_windows h
  then CreateFileW w = None /\
       DeviceIoControl w FSCTL_LOCK_VOLUME = None /\
       DeviceIoControl w FSCTL_DISMOUNT_VOLUME = None
  else os_open w = None.

(** What follows the loop succeeds: the flush (or its benign failure) on
    Windows, sync and close on Unix. *)
Definition finish_ok (h : host) (w : world) : Prop :=
  if is_windows h
  then FlushFileBuffers w = None \/ FlushFileBuffers w = Some 1
  else os_fsync w = None /\ os_close w = None.

(** Teardown raises nothing: always so on Windows, where it swallows its
    errors; on Unix when [os.close] succeeds. *)
Definition close_ok (h : host) (w : world) : Prop :=
  is_windows h = true \/ os_close w = None.

(** The device is released once, at the end, when it was opened, and not at
    all otherwise; [pre] and [post] are the events before and after the
    loop. *)
Definition bracket_ok (on_windows : bool) (pre post : trace) : bool :=
  if existsb is_opened (pre ++ post)
  then ends_with_release on_windows post
       && (count is_close (pre ++ post) =? 1)%nat
       && (if on_windows then (count is_unlock (pre ++ post) =? 1)%nat else true)
  else (count is_close (pre ++ post) =? 0)%nat
       && (count is_unlock (pre ++ post) =? 0)%nat.

(** Acquisition comes before the first raw write, and the device is
    released once, at the end, when it was opened and never otherwise. *)
Definition bracketed (on_windows : bool) (t : trace) : Prop :=
  (writes t <> 0%nat -> acquired on_windows (before_first_write t) = true) /\
  (existsb is_opened t = true ->
   count is_close t = 1%nat /\
   (on_windows = true -> count is_unlock t = 1%nat) /\
   ends_with_release on_windows t = true) /\
  (existsb is_opened t = false ->
   count is_close t = 0%nat /\ writes t = 0%nat).

(** The shape of a whole operation: setup, the run of its loop, teardown. *)
Definition shaped (h : host) (w : world) (drive_letter : string)
    (run : trace -> outcome Z -> Prop) (r : outcome unit * trace) : Prop :=
  exists pre t post,
    snd r = pre ++ t ++ post /\
    forallb (fun e => negb (in_loop e)) (pre ++ post) = true /\
    bracket_ok (is_windows h) pre post = true /\
    fst r <> OutOfFuel /\
    ((t = [] /\ (exists e, fst r = Raised e) /\ ~ setup_ok h w drive_letter) \/
     (acquired (is_windows h) pre = true /\ existsb is_opened pre = true /\
      exists o, run t o /\
        (forall e, o = Raised e -> close_ok h w -> fst r = Raised e) /\
        (forall v, o = Done v -> finish_ok h w -> fst r = Done tt) /\
        (fst r = Done tt -> exists v, o = Done v))).

(** The raw write and its error of the platform of [h]. *)
Definition platform_event (h : host) : list Byte.byte -> option Z -> event :=
  if is_windows h then EvWriteFile else EvWrite.

Definition platform_error (h : host) : Z -> exn :=
  if is_windows h then _winerr "WriteFile failed" else os_error h.

(** The host [h] with [sys.platform] reporting Linux. *)
Definition as_linux (h : host) : host :=
  mkHost "linux" (path_exists h) (lsblk_output h) (diskutil_plist h)
         (str_compound h) (O_SYNC h) (strerror h).

(** ** Error messages *)

Definition EPERM : Z := 1.
Definition ENOENT : Z := 2.
Definition EACCES : Z := 13.

(** [isinstance(e, PermissionError)].  An [OSError] built from an error
    number is an instance of the subclass Python maps that number to. *)
Definition is_permission_error (e : exn) : bool :=
  match e with
  | OSError errno _ | OSErrorFile errno _ _ => (errno =? EPERM) || (errno =? EACCES)
  | _ => false
  end.

(** [isinstance(e, FileNotFoundError)]. *)
Definition is_file_not_found_error (e : exn) : bool :=
  match e with
  | FileNotFoundError _ => true
  | OSError errno _ | OSErrorFile errno _ _ => errno =? ENOENT
  | _ => false
  end.

(** [str(e)].  An [OSError] prints its error number before its message,
    and the [repr] of its file name after it when it has one.  The text of
    a [CalledProcessError] quotes the command, which the value does not
    carry; the code catches every one of them, so that none reaches
    [format_error]. *)
Definition exn_str (e : exn) : option string :=
  match e with
  | RuntimeError m | FileNotFoundError m | OverflowError m
  | ValueError m | AttributeError m | TypeError m => Some m
  | OSError errno m => Some ("[Errno " +++ str_int errno +++ "] " +++ m)
  | OSErrorFile errno m file =>
      Some ("[Errno " +++ str_int errno +++ "] " +++ m +++ ": " +++ py_repr file)
  | CalledProcessError _ => None
  end.

Definition permission_hint : string :=
  "Permission denied. Elevated privileges may be required.".

Definition not_found_hint : string :=
  "Device not found / not ready. Insert disk and retry.".

Definition format_error (e : exn) : option string :=
  if is_permission_error e then Some permission_hint
  else if is_file_not_found_error e then Some not_found_hint
  else exn_str e.

(** ** The callers in [floppyforge_gui.py] *)

(** [_resolve_format_size]: [opt] is the text of the size selector and
    [image_size] the size of the selected image when its path exists and is
    a file. *)
Definition _resolve_format_size (opt : string) (image_size : option Z) : Z :=
  let opt := strip opt in
  if String.eqb opt "720KB" then FLOPPY_720K
  else if String.eqb opt "1.44MB" then FLOPPY_1440K
  else
    match image_size with
    | Some s => if s >? 0 then s else FLOPPY_1440K
    | None => FLOPPY_1440K
    end.

(** What a worker hands to the user interface when it ends. *)
Inductive finish : Type :=
| FinishOk (msg : string)
| FinishErr (err : option string).

(** The application builds its core with chunks of 64 KiB and always passes
    a log callback. *)
Definition app_chunk_size : Z := 64 * 1024.

Definition with_log (w : world) : world :=
  mkWorld (stop_cb w) true (CreateFileW w) (DeviceIoControl w) (raw_write w)
          (FlushFileBuffers w) (subprocess_run w) (os_open w) (os_fsync w) (os_close w).

(** [_write_worker]; [None] stands for a worker that never ends. *)
Definition _write_worker (h : host) (w : world) (image : list Byte.byte)
    (drive : string) : option finish * trace :=
  match write_image h (with_log w) app_chunk_size image drive [] with
  | (Done _, t) => (Some (FinishOk "Write completed successfully."), t)
  | (Raised e, t) => (Some (FinishErr (format_error e)), t)
  | (OutOfFuel, t) => (None, t)
  end.

(** [_format_worker]. *)
Definition _format_worker (h : host) (w : world) (fuel : nat) (drive : string)
    (size : Z) : option finish * trace :=
  match format_zero_fill h (with_log w) app_chunk_size fuel size drive [] with
  | (Done _, t) => (Some (FinishOk "Format completed successfully."), t)
  | (Raised e, t) => (Some (FinishErr (format_error e)), t)
  | (OutOfFuel, t) => (None, t)
  end.

(** ** More ways to read a trace *)

(** A flush or a sync of the device. *)
Definition is_sync (e : event) : bool :=
  match e with EvFlush _ | EvFsync _ => true | _ => false end.

(** A raw write that failed. *)
Definition is_failed_write (e : event) : bool :=
  match e with EvWriteFile _ None | EvWrite _ None => true | _ => false end.

(** A row of the [lsblk] listing that names the device [dev]: a writable
    removable disk of a floppy size. *)
Definition row_qualifies (ln dev : string) : Prop :=
  exists name size_s rm_s typ ro_s more size,
    split ln = name :: size_s :: rm_s :: typ :: ro_s :: more /\
    dev = "/dev/" +++ name /\
    typ = "disk" /\
    py_int size_s = Ok size /\ In size floppy_sizes /\
    py_int rm_s = Ok 1 /\ py_int ro_s = Ok 0.

(** An entry of the [diskutil] listing that names the device [dev]. *)
Definition disk_qualifies (h : host) (disk : pyval) (dev : string) : Prop :=
  exists disk_id size z,
    py_get disk "DeviceIdentifier" PNone = Ok disk_id /\
    py_get disk "Size" PNone = Ok size /\
    truthy disk_id = true /\
    int_value size = Some z /\ In z floppy_sizes /\
    dev = "/dev/r" +++ py_format h disk_id.

(** No character of [s] is a slash. *)
Definition no_slash (s : string) : Prop :=
  Forall (fun c => code c <> 47%N) (chars s).

(** The data rows of the [lsblk] listing: the non-blank lines, stripped,
    after the header. *)
Definition lsblk_rows (out : string) : list string :=
  tl (map strip (filter (fun ln => negb (String.eqb (strip ln) "")) (splitlines out))).

(** An [lsblk] listing whose first line, taken for the header, looks like
    a floppy, followed by a hard disk, a read-only stick and two USB floppy
    drives. *)
Definition usb_listing : string :=
  let nl := String (ascii_of_nat 10) "" in
  "sdz 1474560 1 disk 0" +++ nl +++ "sda 512110190592 0 disk 0" +++ nl
  +++ "sdb 1474560 1 disk 1" +++ nl +++ "sdc 1474560 1 disk 0" +++ nl
  +++ "sdd 737280 1 disk 0" +++ nl.

(** A Linux machine without conventional floppy paths. *)
Definition usb_floppy_host : host :=
  mkHost "linux" (fun _ => false) (Ok usb_listing) no_plist
         (fun _ => "") (Some 1052672) (fun _ => "").





(** ** The end of an operation *)

(** The device is synced once after a loop that ended, and not at all after
    one that was cut short. *)
Definition sync_after (o : outcome Z) (post : trace) : bool :=
  match o with
  | Done _ => (count is_sync post =? 1)%nat
  | _ => negb (existsb is_sync post)
  end.

(** The [OSError] of a failed system call. *)
Definition from_system_call (e : exn) : bool :=
  match e with OSError _ _ | OSErrorFile _ _ _ => true | _ => false end.

(** Where an exception of an operation comes from: the device resolution,
    the cancellation, or a system call. *)
Definition raised_by (h : host) (drive_letter : string) (e : exn) : Prop :=
  resolve_device_path h drive_letter = Raise e \/
  e = interrupted \/
  from_system_call e = true.

(** How an operation ends: what it may raise, and when it syncs the device;
    [pre] and [post] are the events before and after the loop. *)
Definition settled (h : host) (drive_letter : string)
    (run : trace -> outcome Z -> Prop) (r : outcome unit * trace) : Prop :=
  (forall e, fst r = Raised e -> raised_by h drive_letter e) /\
  exists pre t post,
    snd r = pre ++ t ++ post /\
    forallb (fun e => negb (in_loop e)) (pre ++ post) = true /\
    existsb is_sync pre = false /\
    ((t = [] /\ existsb is_sync post = false /\ fst r <> Done tt) \/
     exists o, run t o /\ sync_after o post = true /\
               (fst r = Done tt -> exists v, o = Done v)).

(** [stop_cb] answered that the work goes on. *)
Definition is_go (e : event) : bool :=
  match e with EvStop false => true | _ => false end.

(** Every raw write comes right after a poll of [stop_cb] that let the work
    go on; [go] tells whether the event before [t] was such a poll. *)
Fixpoint polled_before_writes (go : bool) (t : trace) : bool :=
  match t with
  | [] => true
  | e :: t' => (negb (is_write e) || go) && polled_before_writes (is_go e) t'
  end.

(** The device takes the whole of every buffer. *)
Definition takes_all (w : world) : Prop :=
  forall i buf, exists n, raw_write w i buf = Wrote n /\ Z.of_nat (List.length buf) <= n.











(** A raw write that returned took its whole buffer; a failed one counts
    for nothing. *)
Definition returned_whole (e : event) : Prop :=
  match e with
  | EvWriteFile buf (Some k) | EvWrite buf (Some k) => k = Z.of_nat (List.length buf)
  | _ => True
  end.

(** Nothing was reported and nothing is on the device, or the last report
    counts the bytes on the device. *)
Definition reports_device (calls : list (Z * Z)) (on_device : list Byte.byte) : Prop :=
  (calls = [] /\ on_device = []) \/
  exists cs total, calls = cs ++ [(Z.of_nat (List.length on_device), total)].

(** ** Holding the device *)

(** The device was opened, the volume acquired before the first raw write,
    and the device released once, as the last thing done: unlock then close
    on Windows, close on Unix. *)
Definition held (on_windows : bool) (t : trace) : Prop :=
  existsb is_opened t = true /\
  acquired on_windows (before_first_write t) = true /\
  count is_close t = 1%nat /\
  (on_windows = true -> count is_unlock t = 1%nat) /\
  ends_with_release on_windows t = true.

(** The first true answer of [stop_cb] ends the loop: with [K] raw writes in
    the trace, it is the answer to poll number [K], all [K] writes and [K]
    polls that answered false come before it, and no poll, raw write or
    progress call follows it. *)
Definition stopped_at (w : world) (t : trace) : Prop :=
  (exists t1 t2,
     t = t1 ++ EvStop true :: t2 /\
     ~ In (EvStop true) t1 /\
     polls t1 = writes t /\ writes t1 = writes t /\
     polls t2 = 0%nat /\ writes t2 = 0%nat /\ progress_calls t2 = []) /\
  stop_cb w (writes t) = true /\
  (forall p, (p < writes t)%nat -> stop_cb w p = false).

(** A Linux machine on which [os.close] fails, and a user who stops at
    once. *)
Definition close_fails_host : host :=
  mkHost "linux" (fun _ => true) no_inventory no_plist (fun _ => "") None
         (fun _ => "Input/output error").

Definition close_fails_world : world :=
  mkWorld (fun _ => true) false None (fun _ => None) whole None None None None (Some 5).

(** The first raw write takes one byte of its chunk; the user stops before
    the second. *)
Definition short_then_stop : world := world_with (fun p => (1 <=? p)%nat) first_short.



(** * Properties *)

(** ** Size formatting *)

Example human_bytes_1536 : human_bytes 1536 = Ok "1.50 KB".
Proof. vm_compute. reflexivity. Qed.

Example human_bytes_negative : human_bytes (-5) = Ok "-5 B".
Proof. vm_compute. reflexivity. Qed.

Example human_bytes_petabytes : human_bytes (5 * 1024 ^ 5) = Ok "5120.00 TB".
Proof. vm_compute. reflexivity. Qed.

Example human_bytes_rounds_up : human_bytes 1048575 = Ok "1024.00 KB".
Proof. vm_compute. reflexivity. Qed.

Example py_hex_lock : py_hex FSCTL_LOCK_VOLUME = "0x90018".
Proof. vm_compute. reflexivity. Qed.

(** C8: [human_bytes] gives "0 B" for 0, "1.00 KB" for 1024 and "1.41 MB"
    for 1474560 (1474560 / 1024 / 1024 = 1.40625, scaled by 1024 twice). *)
Theorem human_bytes_examples :
  human_bytes 0 = Ok "0 B" /\
  human_bytes 1024 = Ok "1.00 KB" /\
  human_bytes FLOPPY_1440K = Ok "1.41 MB" /\
  (forall x, float_of_int 1024 = Ok x -> scale 1 x = mkFloat 1024 (-10)) /\
  (forall x, float_of_int FLOPPY_1440K = Ok x -> scale 2 x = mkFloat 1474560 (-20)).
Proof.
  repeat split; try (vm_compute; reflexivity).
  - intros x H. vm_compute in H. inversion H. reflexivity.
  - intros x H. vm_compute in H. inversion H. reflexivity.
Qed.

Lemma length_append (a b : string) :
  String.length (a +++ b) = (String.length a + String.length b)%nat.
Proof. induction a as [|c a IH]; simpl; [reflexivity | now rewrite IH]. Qed.

Lemma frac_digits_length (p : nat) (r : Z) : String.length (frac_digits p r) = p.
Proof.
  revert r. induction p as [|p IH]; intros r; simpl; [reflexivity|].
  rewrite length_append, IH. simpl. lia.
Qed.

(** An integer below [2^53] in absolute value converts to itself. *)
Lemma float_of_int_exact (n : Z) :
  Z.abs n < 2 ^ 53 -> float_of_int n = Ok (mkFloat n 0).
Proof.
  intros H. unfold float_of_int.
  destruct (Z.abs n =? 0) eqn:E0; [reflexivity|].
  apply Z.eqb_neq in E0.
  assert (Hlog : Z.log2 (Z.abs n) < 53) by (apply Z.log2_lt_pow2; lia).
  destruct (Z.log2 (Z.abs n) + 1 <=? 53) eqn:E; [reflexivity|].
  apply Z.leb_gt in E. lia.
Qed.

(** C9, as the code has it: [human_bytes] stops at the first unit whose
    scaled value is below 1024, at TB at the latest, and prints two decimals
    for every unit above bytes and none for bytes. *)
Theorem human_bytes_scaling (n : Z) (x : float) :
  float_of_int n = Ok x ->
  exists k : nat,
    (k <= 4)%nat /\
    (forall j, (j < k)%nat -> float_ltb (scale j x) 1024 = false) /\
    ((k < 4)%nat -> float_ltb (scale k x) 1024 = true) /\
    human_bytes n = Ok (render k (scale k x)) /\
    String.length (frac_digits 2 (scaled_digits 2 (scale k x))) = 2%nat.
Proof.
  intros Hx. unfold human_bytes. rewrite Hx.
  assert (Hcase : forall j, (j < 1)%nat -> j = 0%nat) by lia.
  destruct (float_ltb (scale 0 x) 1024) eqn:E0.
  { exists 0%nat. repeat split; try lia; auto using frac_digits_length.
    simpl in *. rewrite E0. reflexivity. }
  destruct (float_ltb (scale 1 x) 1024) eqn:E1.
  { exists 1%nat. repeat split; try lia; auto using frac_digits_length.
    - intros j Hj. assert (j = 0%nat) by lia. subst. exact E0.
    - simpl in *. rewrite E0, E1. reflexivity. }
  destruct (float_ltb (scale 2 x) 1024) eqn:E2.
  { exists 2%nat. repeat split; try lia; auto using frac_digits_length.
    - intros j Hj.
      destruct j as [|[|j]]; [exact E0 | exact E1 | lia].
    - simpl in *. rewrite E0, E1, E2. reflexivity. }
  destruct (float_ltb (scale 3 x) 1024) eqn:E3.
  { exists 3%nat. repeat split; try lia; auto using frac_digits_length.
    - intros j Hj.
      destruct j as [|[|[|j]]]; [exact E0 | exact E1 | exact E2 | lia].
    - simpl in *. rewrite E0, E1, E2, E3. reflexivity. }
  exists 4%nat. repeat split; try lia; auto using frac_digits_length.
  - intros j Hj.
    destruct j as [|[|[|[|j]]]]; [exact E0 | exact E1 | exact E2 | exact E3 | lia].
  - simpl in *. rewrite E0, E1, E2, E3. rewrite orb_true_r. reflexivity.
Qed.

Lemma human_bytes_scaling_witness :
  exists k : nat,
    (k <= 4)%nat /\
    (forall j, (j < k)%nat -> float_ltb (scale j (mkFloat 1474560 0)) 1024 = false) /\
    ((k < 4)%nat -> float_ltb (scale k (mkFloat 1474560 0)) 1024 = true) /\
    human_bytes 1474560 = Ok (render k (scale k (mkFloat 1474560 0))) /\
    String.length (frac_digits 2 (scaled_digits 2 (scale k (mkFloat 1474560 0)))) = 2%nat.
Proof.
  apply (human_bytes_scaling 1474560 (mkFloat 1474560 0)).
  vm_compute. reflexivity.
Defined.

(** C9, counterexample: 1536 bytes print as "1.50 KB", two decimals where
    the claim has one, and 1024 bytes print as "1.00 KB" although the value
    in KB does not exceed 1. *)
Lemma human_bytes_one_decimal_counterexample :
  human_bytes 1536 = Ok "1.50 KB" /\
  human_bytes_spec 1536 = Ok "1.5 KB" /\
  human_bytes 1024 = Ok "1.00 KB" /\
  human_bytes_spec 1024 = Ok "1024 B" /\
  human_bytes 1536 <> human_bytes_spec 1536.
Proof.
  repeat split; try (vm_compute; reflexivity).
  vm_compute. discriminate.
Qed.

(** ** The Windows flush *)

(** C6: [_flush] raises exactly when [FlushFileBuffers] fails with a code
    other than 1, and returns normally when it fails with code 1. *)
Theorem flush_raises_iff (w : world) (t : trace) :
  ((exists e, fst (_flush w t) = Raised e) <->
   (exists code, FlushFileBuffers w = Some code /\ code <> 1)) /\
  (FlushFileBuffers w = Some 1 -> fst (_flush w t) = Done tt).
Proof.
  unfold _flush. destruct (FlushFileBuffers w) as [code|] eqn:E.
  - unfold bind, emit. destruct (code =? 1) eqn:E1.
    + apply Z.eqb_eq in E1. subst. split.
      * split.
        -- intros [e He]. discriminate.
        -- intros [c [Hc Hne]]. inversion Hc. congruence.
      * reflexivity.
    + apply Z.eqb_neq in E1. split.
      * split.
        -- intros _. exists code. auto.
        -- intros _. eexists. reflexivity.
      * intros H. inversion H. congruence.
  - split.
    + split.
      * intros [e He]. discriminate.
      * intros [c [Hc _]]. discriminate.
    + discriminate.
Qed.

(** ** Discovery and resolution *)

Lemma linux_scan_never_raises (lines : list string) :
  exists r, linux_scan lines = Ok r.
Proof.
  induction lines as [|ln rest IH]; simpl; [eauto|].
  destruct (split ln) as [|name [|size_s [|rm_s [|typ [|ro_s more]]]]]; try exact IH.
  destruct (parse_row size_s rm_s ro_s) as [[[size rm] ro]|e]; [|exact IH].
  destruct (negb (String.eqb typ "disk") || negb (rm =? 1) || negb (ro =? 0));
    [exact IH|].
  destruct (is_floppy_size size); [eauto | exact IH].
Qed.

(** The Linux scan returns a result for every outcome of [lsblk], and "not
    found" when the command fails or prints fewer than two lines. *)
Lemma linux_discovery_never_raises (h : host) :
  (exists r, _linux_find_floppy_sized_block_device h = Ok r) /\
  (forall e, lsblk_output h = Raise e ->
             _linux_find_floppy_sized_block_device h = Ok None).
Proof.
  unfold _linux_find_floppy_sized_block_device. split.
  - destruct (lsblk_output h) as [out|e]; [|eauto].
    match goal with |- context [if ?c then _ else _] => destruct c end; [eauto|].
    apply linux_scan_never_raises.
  - intros e He. rewrite He. reflexivity.
Qed.

(** A failing or unparsable [diskutil] listing is "not found" on macOS. *)
Lemma mac_discovery_command_failure (h : host) (e : exn) :
  diskutil_plist h = Raise e -> _mac_find_floppy_sized_disk h = Ok None.
Proof. intros He. unfold _mac_find_floppy_sized_disk. rewrite He. reflexivity. Qed.

Example linux_discovery_finds_usb_floppy :
  let nl := String (ascii_of_nat 10) "" in
  _linux_find_floppy_sized_block_device
    (mkHost "linux" (fun _ => false)
       (Ok ("NAME SIZE RM TYPE RO" +++ nl +++ "sda 512110190592 0 disk 0" +++ nl
            +++ "sdb 1474560 1 disk 0" +++ nl))
       no_plist (fun _ => "") None (fun _ => ""))
  = Ok (Some "/dev/sdb").
Proof. vm_compute. reflexivity. Qed.

Example mac_discovery_finds_floppy :
  _mac_find_floppy_sized_disk
    (mkHost "darwin" (fun _ => false) no_inventory
       (Ok (PDict [("AllDisksAndPartitions",
                    PList [PDict [("DeviceIdentifier", PStr "disk0"); ("Size", PInt 500107862016)];
                           PDict [("DeviceIdentifier", PStr "disk2"); ("Size", PInt 1474560)]])]))
       (fun _ => "") None (fun _ => ""))
  = Ok (Some "/dev/rdisk2").
Proof. vm_compute. reflexivity. Qed.

(** C5, the failing input: when [diskutil] prints a well-formed property
    list whose root is an array, the macOS scan raises [AttributeError]
    instead of returning "not found": [data.get] runs outside the [try]. *)
Theorem mac_discovery_raises_on_array_plist :
  diskutil_plist mac_host_array_plist = Ok (PList []) /\
  _mac_find_floppy_sized_disk mac_host_array_plist
  = Raise (AttributeError "'list' object has no attribute 'get'") /\
  resolve_device_path mac_host_array_plist "A"
  = Raise (AttributeError "'list' object has no attribute 'get'").
Proof. repeat split; vm_compute; reflexivity. Qed.

(** The same happens for a disk entry that is not a dictionary. *)
Example mac_discovery_raises_on_string_entry :
  _mac_find_floppy_sized_disk
    (mkHost "darwin" (fun _ => false) no_inventory
       (Ok (PDict [("AllDisksAndPartitions", PList [PStr "disk2"])]))
       (fun _ => "") None (fun _ => ""))
  = Raise (AttributeError "'str' object has no attribute 'get'").
Proof. vm_compute. reflexivity. Qed.

Lemma py_get_raises (v : pyval) (key : string) (default : pyval) (e : exn) :
  py_get v key default = Raise e -> exists m, e = AttributeError m.
Proof. destruct v; simpl; intros H; inversion H; eauto. Qed.

Lemma mac_scan_raises_only (h : host) (disks : list pyval) (e : exn) :
  mac_scan h disks = Raise e -> exists m, e = AttributeError m.
Proof.
  induction disks as [|disk rest IH]; simpl; [discriminate|].
  destruct (py_get disk "DeviceIdentifier" PNone) as [disk_id|e1] eqn:E1.
  - destruct (py_get disk "Size" PNone) as [size|e2] eqn:E2.
    + destruct (negb (truthy disk_id) || negb (is_int size)); [exact IH|].
      destruct (int_value size) as [z|]; [|exact IH].
      destruct (is_floppy_size z); [discriminate | exact IH].
    + intros H. inversion H; subst. eapply py_get_raises; eauto.
  - intros H. inversion H; subst. eapply py_get_raises; eauto.
Qed.

(** The only errors the macOS scan lets through come from the shape of the
    parsed listing. *)
Lemma mac_discovery_raises_only (h : host) (e : exn) :
  _mac_find_floppy_sized_disk h = Raise e ->
  (exists m, e = AttributeError m) \/ (exists m, e = TypeError m).
Proof.
  unfold _mac_find_floppy_sized_disk.
  destruct (diskutil_plist h) as [data|e0]; [|discriminate].
  destruct (py_get data "AllDisksAndPartitions" (PList [])) as [all|e1] eqn:E1.
  - destruct (py_iter all) as [disks|e2] eqn:E2.
    + intros H. left. eapply mac_scan_raises_only; eauto.
    + intros H. inversion H; subst. right.
      destruct all; simpl in E2; inversion E2; eauto.
  - intros H. inversion H; subst. left. eapply py_get_raises; eauto.
Qed.

Lemma platform_name_cases (h : host) :
  platform_name h = "windows" \/ platform_name h = "macos" \/ platform_name h = "linux".
Proof.
  unfold platform_name.
  destruct (String.prefix "win" (sys_platform h)); [auto|].
  destruct (String.eqb (sys_platform h) "darwin"); auto.
Qed.

Lemma resolve_as_linux (h : host) (drive : string) :
  platform_name h = "linux" ->
  resolve_device_path h drive = resolve_device_path (as_linux h) drive.
Proof.
  intros Hp. unfold resolve_device_path. rewrite Hp.
  replace (platform_name (as_linux h)) with "linux" by reflexivity.
  simpl. destruct (String.eqb (strip (upper drive)) "A"); reflexivity.
Qed.

(** C7, as the code has it: [platform_name] knows three platforms only and
    takes every platform that is neither Windows nor macOS for Linux, so
    [resolve_device_path] never fails with "Unsupported platform."; on such
    a platform it does what it does on Linux, and fails, if at all, with
    the device-not-found error of Linux. *)
Theorem resolve_never_unsupported (h : host) (drive : string) :
  (platform_name h = "windows" \/ platform_name h = "macos" \/ platform_name h = "linux") /\
  resolve_device_path h drive <> Raise (FileNotFoundError "Unsupported platform.") /\
  (String.prefix "win" (sys_platform h) = false ->
   String.eqb (sys_platform h) "darwin" = false ->
   platform_name h = "linux" /\
   resolve_device_path h drive = resolve_device_path (as_linux h) drive /\
   forall e, resolve_device_path h drive = Raise e ->
             e = FileNotFoundError "No suitable floppy device found on Linux.").
Proof.
  split; [apply platform_name_cases|]. split.
  - unfold resolve_device_path.
    destruct (platform_name_cases h) as [Hp|[Hp|Hp]]; rewrite Hp; simpl.
    + discriminate.
    + destruct (_mac_find_floppy_sized_disk h) as [dev|e] eqn:E.
      * destruct (found dev); discriminate.
      * intros Heq. inversion Heq; subst.
        destruct (mac_discovery_raises_only h _ E) as [[m Hm]|[m Hm]]; discriminate.
    + destruct (first_existing h _); [discriminate|].
      destruct (linux_discovery_never_raises h) as [[r Hr] _]. rewrite Hr.
      destruct (found r); discriminate.
  - intros Hw Hd.
    assert (Hp : platform_name h = "linux").
    { unfold platform_name. rewrite Hw, Hd. reflexivity. }
    split; [exact Hp|]. split; [apply resolve_as_linux; exact Hp|].
    intros e. unfold resolve_device_path. rewrite Hp. simpl.
    destruct (first_existing h _); [discriminate|].
    destruct (linux_discovery_never_raises h) as [[r Hr] _]. rewrite Hr.
    destruct (found r); [discriminate|].
    intros Heq. inversion Heq. reflexivity.
Qed.

Lemma resolve_never_unsupported_witness :
  platform_name freebsd_host = "linux" /\
  resolve_device_path freebsd_host "A" = resolve_device_path (as_linux freebsd_host) "A" /\
  forall e, resolve_device_path freebsd_host "A" = Raise e ->
            e = FileNotFoundError "No suitable floppy device found on Linux.".
Proof.
  apply (resolve_never_unsupported freebsd_host "A"); reflexivity.
Defined.

(** C7, counterexample: on FreeBSD, a platform that is none of Windows,
    Linux and macOS, resolution fails with the device-not-found error of the
    Linux branch, not with an unsupported-platform error. *)
Lemma resolve_freebsd_counterexample :
  String.prefix "win" (sys_platform freebsd_host) = false /\
  sys_platform freebsd_host <> "darwin" /\
  sys_platform freebsd_host <> "linux" /\
  resolve_device_path freebsd_host "A"
  = Raise (FileNotFoundError "No suitable floppy device found on Linux.").
Proof.
  repeat split; try (vm_compute; reflexivity); vm_compute; discriminate.
Qed.

(** ** Traces *)

Lemma polls_app (a b : trace) : polls (a ++ b) = (polls a + polls b)%nat.
Proof. unfold polls. now rewrite filter_app, length_app. Qed.

Lemma writes_app (a b : trace) : writes (a ++ b) = (writes a + writes b)%nat.
Proof. unfold writes. now rewrite filter_app, length_app. Qed.

Lemma count_app (p : event -> bool) (a b : trace) :
  count p (a ++ b) = (count p a + count p b)%nat.
Proof. unfold count. now rewrite filter_app, length_app. Qed.

Lemma disk_app (a b : trace) : disk (a ++ b) = disk a ++ disk b.
Proof. apply flat_map_app. Qed.

Lemma progress_calls_app (a b : trace) :
  progress_calls (a ++ b) = progress_calls a ++ progress_calls b.
Proof. apply flat_map_app. Qed.

Lemma write_requests_app (a b : trace) :
  write_requests (a ++ b) = write_requests a ++ write_requests b.
Proof. apply flat_map_app. Qed.

(** Events outside the loop leave the counters, the device and the progress
    calls alone. *)
Lemma quiet_trace (t : trace) :
  forallb (fun e => negb (in_loop e)) t = true ->
  polls t = 0%nat /\ writes t = 0%nat /\ disk t = [] /\
  progress_calls t = [] /\ write_requests t = [] /\
  before_first_write t = t /\ count is_committed t = 0%nat /\
  Forall whole_write t /\ ~ In (EvStop true) t /\
  ~ Exists short_write t.
Proof.
  induction t as [|e t IH]; simpl.
  - intros _. repeat split; auto. intros H. inversion H.
  - intros H. apply andb_true_iff in H. destruct H as [He Ht].
    destruct (IH Ht) as (Hp & Hw & Hd & Hc & Hr & Hb & Hm & Hf & Hs & Hx).
    unfold polls, writes, disk, progress_calls, write_requests, count in *. simpl.
    destruct e; simpl in *; try discriminate;
      rewrite ?Hp, ?Hw, ?Hd, ?Hc, ?Hr, ?Hb, ?Hm; repeat split; auto;
      try (intros [H|H]; [discriminate | contradiction]);
      try (intros H; inversion H; subst; simpl in *; contradiction);
      constructor; simpl; auto.
Qed.

(** ** The loops and their runs *)

Lemma file_read_app (size : Z) (f : list Byte.byte) :
  fst (file_read size f) ++ snd (file_read size f) = f.
Proof.
  unfold file_read. destruct (size <? 0); simpl.
  - apply app_nil_r.
  - apply firstn_skipn.
Qed.

Lemma file_read_shorter (size : Z) (f : list Byte.byte) :
  fst (file_read size f) <> [] ->
  (List.length (snd (file_read size f)) < List.length f)%nat.
Proof.
  intros H. rewrite <- (file_read_app size f) at 2. rewrite length_app.
  destruct (fst (file_read size f)); [congruence | simpl; lia].
Qed.

Lemma write_loop_run ev err w chunk_size total fuel :
  raw_event ev ->
  forall f wt t0 o t1,
    (List.length f < fuel)%nat ->
    write_loop (raw_call ev err w) w chunk_size fuel f wt total t0 = (o, t1) ->
    exists t, t1 = t0 ++ t /\
              write_run ev err w chunk_size total (polls t0) (writes t0) f wt t o.
Proof.
  intros Hev. induction fuel as [|fuel IH]; intros f wt t0 o t1 Hlen H; [lia|].
  cbn [write_loop] in H. unfold bind, call_stop_cb in H.
  destruct (stop_cb w (polls t0)) eqn:Es.
  - inversion H; subst. exists [EvStop true]. split; [reflexivity|].
    now apply wr_interrupted.
  - destruct (fst (file_read chunk_size f)) as [|b l] eqn:Ebuf.
    + inversion H; subst. exists [EvStop false]. split; [reflexivity|].
      now apply wr_eof.
    + assert (Hne : fst (file_read chunk_size f) <> []) by (rewrite Ebuf; discriminate).
      assert (Hw0 : writes (t0 ++ [EvStop false]) = writes t0).
      { rewrite writes_app. unfold writes. simpl. lia. }
      unfold raw_call in H. rewrite Hw0 in H.
      destruct (raw_write w (writes t0) (b :: l)) as [n|code] eqn:Ew.
      * unfold call_progress_cb, emit in H.
        apply IH in H; [|apply file_read_shorter in Hne; lia].
        destruct H as [t [Ht Hrun]]. subst t1.
        rewrite <- Ebuf in *.
        eexists. split; [rewrite <- !app_assoc; simpl; reflexivity|].
        apply wr_chunk; auto.
        rewrite !polls_app, !writes_app in Hrun.
        replace (polls t0 + _ + _ + _)%nat with (S (polls t0)) in Hrun
          by (destruct Hev as [-> | ->]; cbn; lia).
        replace (writes t0 + _ + _ + _)%nat with (S (writes t0)) in Hrun
          by (destruct Hev as [-> | ->]; cbn; lia).
        exact Hrun.
      * inversion H; subst. rewrite <- Ebuf in *.
        eexists. split; [rewrite <- app_assoc; simpl; reflexivity|].
        now apply wr_failed.
Qed.

Lemma format_loop_run ev err w chunk_size size fuel :
  raw_event ev ->
  forall wt t0 o t1,
    format_loop (raw_call ev err w) w chunk_size fuel size wt t0 = (o, t1) ->
    o <> OutOfFuel ->
    exists t, t1 = t0 ++ t /\
              format_run ev err w chunk_size size (polls t0) (writes t0) wt t o.
Proof.
  intros Hev. induction fuel as [|fuel IH]; intros wt t0 o t1 H Ho.
  - cbn [format_loop] in H. destruct (wt <? size) eqn:Elt.
    + inversion H; subst. congruence.
    + inversion H; subst. exists []. rewrite app_nil_r. split; [reflexivity|].
      apply fr_done. apply Z.ltb_ge in Elt. lia.
  - cbn [format_loop] in H. destruct (wt <? size) eqn:Elt.
    + apply Z.ltb_lt in Elt. unfold bind, call_stop_cb in H.
      destruct (stop_cb w (polls t0)) eqn:Es.
      * inversion H; subst. exists [EvStop true]. split; [reflexivity|].
        now apply fr_interrupted.
      * assert (Hw0 : writes (t0 ++ [EvStop false]) = writes t0).
        { rewrite writes_app. unfold writes. simpl. lia. }
        unfold raw_call in H. rewrite Hw0 in H.
        fold (zero_chunk chunk_size size wt) in H.
        destruct (raw_write w (writes t0) (zero_chunk chunk_size size wt))
          as [n|code] eqn:Ew.
        -- unfold call_progress_cb, emit in H.
           apply IH in H; [|exact Ho].
           destruct H as [t [Ht Hrun]]. subst t1.
           eexists. split; [rewrite <- !app_assoc; simpl; reflexivity|].
           apply fr_chunk; auto.
        rewrite !polls_app, !writes_app in Hrun.
           replace (polls t0 + _ + _ + _)%nat with (S (polls t0)) in Hrun
             by (destruct Hev as [-> | ->]; cbn; lia).
           replace (writes t0 + _ + _ + _)%nat with (S (writes t0)) in Hrun
             by (destruct Hev as [-> | ->]; cbn; lia).
           exact Hrun.
        -- inversion H; subst.
           eexists. split; [rewrite <- app_assoc; simpl; reflexivity|].
           now apply fr_failed.
    + inversion H; subst. exists []. rewrite app_nil_r. split; [reflexivity|].
      apply fr_done. apply Z.ltb_ge in Elt. lia.
Qed.

Lemma write_run_returns ev err w chunk_size total p i f wt t o :
  write_run ev err w chunk_size total p i f wt t o -> o <> OutOfFuel.
Proof. induction 1; auto; discriminate. Qed.

(** ** The shape of the public operations *)

Lemma cons_split (a : event) (l pre r : trace) :
  l = pre ++ r -> a :: l = (a :: pre) ++ r.
Proof. intros ->. reflexivity. Qed.

Lemma nil_split (r : trace) : r = [] ++ r.
Proof. reflexivity. Qed.

(** One step of the evaluation of an operation: the next call whose answer
    the world decides. *)
Ltac world_step H :=
  match type of H with
  | context [has_log_cb ?w] => destruct (has_log_cb w) eqn:?
  | context [CreateFileW ?w] => destruct (CreateFileW w) eqn:?
  | context [subprocess_run ?w] => destruct (subprocess_run w) eqn:?
  | context [os_open ?w] => destruct (os_open w) eqn:?
  | context [DeviceIoControl ?w FSCTL_LOCK_VOLUME] =>
      destruct (DeviceIoControl w FSCTL_LOCK_VOLUME) eqn:?
  | context [DeviceIoControl ?w FSCTL_DISMOUNT_VOLUME] =>
      destruct (DeviceIoControl w FSCTL_DISMOUNT_VOLUME) eqn:?
  | context [DeviceIoControl ?w FSCTL_UNLOCK_VOLUME] =>
      destruct (DeviceIoControl w FSCTL_UNLOCK_VOLUME) eqn:?
  | context [FlushFileBuffers ?w] =>
      let code := fresh "code" in
      destruct (FlushFileBuffers w) as [code|] eqn:?;
      [destruct (code =? 1) eqn:?|]
  | context [os_fsync ?w] => destruct (os_fsync w) eqn:?
  | context [os_close ?w] => destruct (os_close w) eqn:?
  end; cbv beta iota in H.

Ltac unfold_operation H :=
  unfold _write_windows, _format_windows, _write_unix, _format_unix,
    _open_device_handle, _device_ioctl, _flush, _close_handle,
    _unix_unmount_best_effort, call_subprocess_run, call_os_open,
    call_os_fsync, call_os_close, call_log_cb, call_os_write, _writefile,
    try_finally, try_pass, bind, emit, raise, ret, lift in H;
  cbv beta iota in H.

Ltac split_trace := repeat apply cons_split; apply nil_split.

(** Closes a leaf of the case analysis: the trace is known and [shaped]
    asks for its three parts. *)
Ltac not_reached Hwin :=
  eexists [], [], _; split; [reflexivity|];
  split; [reflexivity|]; split; [rewrite ?Hwin; reflexivity|];
  split; [discriminate|];
  left; split; [reflexivity|]; split; [eexists; reflexivity|];
  unfold setup_ok; rewrite Hwin;
  let Hs := fresh in
  intros Hs; decompose [and ex] Hs; congruence.

Ltac link_facts Hwin :=
  split; [|split];
  [ let e := fresh in let He := fresh in let Hc := fresh in
    intros e He Hc; unfold close_ok in Hc; rewrite Hwin in Hc;
    first [discriminate He
          | inversion He; subst; first [reflexivity | destruct Hc; congruence]]
  | let v := fresh in let Hv := fresh in let Hf := fresh in
    intros v Hv Hf; unfold finish_ok in Hf; rewrite Hwin in Hf;
    first [discriminate Hv
          | reflexivity
          | destruct Hf as [Hf|Hf];
            [congruence
            | match goal with
              | H1 : FlushFileBuffers _ = Some ?c, H2 : (?c =? 1) = false |- _ =>
                  rewrite H1 in Hf; inversion Hf; subst; discriminate H2
              end]
          | destruct Hf; congruence]
  | let Hd := fresh in
    intros Hd; first [discriminate Hd | eexists; reflexivity] ].

Ltac reached Hwin Hrun t :=
  rewrite <- ?app_assoc; cbn [app];
  eexists; exists t; eexists; split; [split_trace|];
  split; [reflexivity|]; split; [rewrite ?Hwin; reflexivity|];
  split; [discriminate|];
  right; split; [rewrite ?Hwin; reflexivity|]; split; [reflexivity|];
  eexists; split; [exact Hrun|]; link_facts Hwin.

Lemma platform_tests (h : host) :
  (is_windows h = true /\ platform_name h = "windows") \/
  (is_windows h = false /\
   (platform_name h = "linux" \/ platform_name h = "macos")).
Proof.
  unfold is_windows.
  destruct (platform_name_cases h) as [Hp|[Hp|Hp]]; rewrite Hp; auto.
Qed.

Lemma write_image_shaped (h : host) (w : world) (chunk_size : Z)
    (image : list Byte.byte) (drive : string) :
  shaped h w drive
    (write_run (platform_event h) (platform_error h) w chunk_size
       (Z.of_nat (List.length image)) 0 0 image 0)
    (write_image h w chunk_size image drive []).
Proof.
  remember (write_image h w chunk_size image drive []) as r eqn:Hr.
  unfold write_image in Hr. unfold bind at 1, lift in Hr.
  destruct (resolve_device_path h drive) as [device|e] eqn:Eres.
  2:{ subst r. exists [], [], []. split; [reflexivity|]. split; [reflexivity|].
      split; [reflexivity|]. split; [discriminate|]. left. split; [reflexivity|].
      split; [eexists; reflexivity|]. intros [[d Hd] _]. congruence. }
  unfold ret in Hr. cbv beta iota in Hr.
  unfold platform_event, platform_error.
  destruct (platform_tests h) as [[Hwin Hp]|[Hwin Hp]].
  - fold (is_windows h) in Hr. rewrite Hwin in *.
    unfold_operation Hr. rewrite Hwin in Hr. cbv beta iota delta [negb] in Hr.
    repeat world_step Hr;
      try (subst r; unfold shaped; cbn [fst snd]; not_reached Hwin).
    all: match type of Hr with
         | context [write_loop ?prim ?w ?c ?fuel ?f ?wt ?tot ?t0] =>
             let Hp0 := fresh "Hp0" in let Hw0 := fresh "Hw0" in
             assert (Hp0 : polls t0 = 0%nat) by reflexivity;
             assert (Hw0 : writes t0 = 0%nat) by reflexivity;
             destruct (write_loop prim w c fuel f wt tot t0) as [o t1] eqn:El;
             apply write_loop_run in El; [|left; reflexivity |lia];
             rewrite Hp0, Hw0 in El
         end.
    all: destruct El as [t [-> Hrun]].
    all: destruct o as [?v|?e|]; [| |apply write_run_returns in Hrun; congruence].
    all: cbv beta iota in Hr; subst r; unfold shaped; cbn [fst snd].
    all: try reached Hwin Hrun t.
  - fold (is_windows h) in Hr. rewrite Hwin in *.
    unfold_operation Hr.
    destruct Hp as [Hp|Hp]; rewrite Hp in Hr;
      [ change (String.eqb "linux" "linux") with true in Hr
      | change (String.eqb "macos" "linux") with false in Hr;
        change (String.eqb "macos" "macos") with true in Hr ];
      cbv beta iota in Hr.
    all: repeat world_step Hr;
      try (subst r; unfold shaped; cbn [fst snd]; not_reached Hwin).
    all: match type of Hr with
         | context [write_loop ?prim ?w ?c ?fuel ?f ?wt ?tot ?t0] =>
             let Hp0 := fresh "Hp0" in let Hw0 := fresh "Hw0" in
             assert (Hp0 : polls t0 = 0%nat) by reflexivity;
             assert (Hw0 : writes t0 = 0%nat) by reflexivity;
             destruct (write_loop prim w c fuel f wt tot t0) as [o t1] eqn:El;
             apply write_loop_run in El; [|right; reflexivity |lia];
             rewrite Hp0, Hw0 in El
         end.
    all: destruct El as [t [-> Hrun]].
    all: destruct o as [?v|?e|]; [| |apply write_run_returns in Hrun; congruence].
    all: cbv beta iota in Hr; subst r; unfold shaped; cbn [fst snd].
    all: try reached Hwin Hrun t.
Qed.

Lemma format_zero_fill_shaped (h : host) (w : world) (chunk_size : Z) (fuel : nat)
    (size : Z) (drive : string) :
  fst (format_zero_fill h w chunk_size fuel size drive []) <> OutOfFuel ->
  shaped h w drive
    (format_run (platform_event h) (platform_error h) w chunk_size size 0 0 0)
    (format_zero_fill h w chunk_size fuel size drive []).
Proof.
  remember (format_zero_fill h w chunk_size fuel size drive []) as r eqn:Hr.
  intros Hfuel.
  unfold format_zero_fill in Hr. unfold bind at 1, lift in Hr.
  destruct (resolve_device_path h drive) as [device|e] eqn:Eres.
  2:{ subst r. exists [], [], []. split; [reflexivity|]. split; [reflexivity|].
      split; [reflexivity|]. split; [discriminate|]. left. split; [reflexivity|].
      split; [eexists; reflexivity|]. intros [[d Hd] _]. congruence. }
  unfold ret in Hr. cbv beta iota in Hr.
  unfold platform_event, platform_error.
  destruct (platform_tests h) as [[Hwin Hp]|[Hwin Hp]].
  - fold (is_windows h) in Hr. rewrite Hwin in *.
    unfold_operation Hr. rewrite Hwin in Hr. cbv beta iota delta [negb] in Hr.
    repeat world_step Hr;
      try (subst r; unfold shaped; cbn [fst snd]; not_reached Hwin).
    all: match type of Hr with
         | context [format_loop ?prim ?w ?c ?fuel ?sz ?wt ?t0] =>
             let Hp0 := fresh "Hp0" in let Hw0 := fresh "Hw0" in
             assert (Hp0 : polls t0 = 0%nat) by reflexivity;
             assert (Hw0 : writes t0 = 0%nat) by reflexivity;
             destruct (format_loop prim w c fuel sz wt t0) as [o t1] eqn:El;
             destruct o as [?v|?e|];
             [ | |cbv beta iota in Hr; subst r; cbn [fst] in Hfuel; congruence];
             (apply format_loop_run in El; [|left; reflexivity |discriminate]);
             rewrite Hp0, Hw0 in El
         end.
    all: destruct El as [t [-> Hrun]].
    all: cbv beta iota in Hr; subst r; unfold shaped; cbn [fst snd].
    all: try reached Hwin Hrun t.
  - fold (is_windows h) in Hr. rewrite Hwin in *.
    unfold_operation Hr.
    destruct Hp as [Hp|Hp]; rewrite Hp in Hr;
      [ change (String.eqb "linux" "linux") with true in Hr
      | change (String.eqb "macos" "linux") with false in Hr;
        change (String.eqb "macos" "macos") with true in Hr ];
      cbv beta iota in Hr.
    all: repeat world_step Hr;
      try (subst r; unfold shaped; cbn [fst snd]; not_reached Hwin).
    all: match type of Hr with
         | context [format_loop ?prim ?w ?c ?fuel ?sz ?wt ?t0] =>
             let Hp0 := fresh "Hp0" in let Hw0 := fresh "Hw0" in
             assert (Hp0 : polls t0 = 0%nat) by reflexivity;
             assert (Hw0 : writes t0 = 0%nat) by reflexivity;
             destruct (format_loop prim w c fuel sz wt t0) as [o t1] eqn:El;
             destruct o as [?v|?e|];
             [ | |cbv beta iota in Hr; subst r; cbn [fst] in Hfuel; congruence];
             (apply format_loop_run in El; [|right; reflexivity |discriminate]);
             rewrite Hp0, Hw0 in El
         end.
    all: destruct El as [t [-> Hrun]].
    all: cbv beta iota in Hr; subst r; unfold shaped; cbn [fst snd].
    all: try reached Hwin Hrun t.
Qed.
(** ** Facts about the runs of the write loop *)

Lemma committed_bounds (n : Z) (buf : list Byte.byte) :
  0 <= committed n buf <= Z.of_nat (List.length buf).
Proof. unfold committed. lia. Qed.

Lemma nondecreasing_lower (a b : Z) (l : list Z) :
  a <= b -> nondecreasing (b :: l) -> nondecreasing (a :: l).
Proof. destruct l; simpl; intuition lia. Qed.

Section WriteRuns.

Variable ev : list Byte.byte -> option Z -> event.
Variable err : Z -> exn.
Variable w : world.
Variable chunk_size total : Z.
Hypothesis Hev : raw_event ev.

Lemma write_run_in_loop p i f wt t o :
  write_run ev err w chunk_size total p i f wt t o ->
  forallb in_loop t = true.
Proof.
  induction 1; destruct Hev as [-> | ->]; simpl; auto.
Qed.

Lemma write_run_progress p i f wt t o :
  write_run ev err w chunk_size total p i f wt t o ->
  Forall (fun c => wt <= fst c <= wt + Z.of_nat (List.length f) /\ snd c = total)
         (progress_calls t) /\
  nondecreasing (wt :: map fst (progress_calls t)) /\
  count is_committed t = List.length (progress_calls t).
Proof.
  induction 1 as [ | | |p i f wt n t o Hs Hne Hw Hrun IH].
  - simpl. repeat split; auto.
  - simpl. repeat split; auto.
  - destruct Hev as [-> | ->]; simpl; repeat split; auto.
  - destruct IH as (Hall & Hnd & Hcount).
    pose proof (committed_bounds n (fst (file_read chunk_size f))) as Hk.
    pose proof (file_read_app chunk_size f) as Happ.
    apply (f_equal (@List.length _)) in Happ. rewrite length_app in Happ.
    set (k := committed n (fst (file_read chunk_size f))) in *.
    assert (Hpc : progress_calls
                    (EvStop false :: ev (fst (file_read chunk_size f)) (Some k)
                     :: EvProgress (wt + k) total :: t)
                  = (wt + k, total) :: progress_calls t).
    { destruct Hev as [-> | ->]; reflexivity. }
    assert (Hcc : count is_committed
                    (EvStop false :: ev (fst (file_read chunk_size f)) (Some k)
                     :: EvProgress (wt + k) total :: t)
                  = S (count is_committed t)).
    { destruct Hev as [-> | ->]; reflexivity. }
    rewrite Hpc, Hcc. simpl. repeat split.
    + constructor; simpl; [lia|].
      eapply Forall_impl; [|exact Hall]. simpl. intros c Hc. lia.
    + lia.
    + destruct (map fst (progress_calls t)); simpl in *; intuition lia.
    + exact (proj2 Hnd).
    + lia.
Qed.

Lemma whole_write_ev buf k :
  whole_write (ev buf (Some k)) -> k = Z.of_nat (List.length buf).
Proof. destruct Hev as [-> | ->]; simpl; congruence. Qed.

Lemma disk_chunk buf k a b t :
  disk (EvStop false :: ev buf (Some k) :: EvProgress a b :: t)
  = firstn (Z.to_nat k) buf ++ disk t.
Proof. destruct Hev as [-> | ->]; reflexivity. Qed.

Lemma requests_chunk buf r a b t :
  write_requests (EvStop false :: ev buf r :: EvProgress a b :: t)
  = buf :: write_requests t.
Proof. destruct Hev as [-> | ->]; reflexivity. Qed.

Lemma progress_chunk buf r a b t :
  progress_calls (EvStop false :: ev buf r :: EvProgress a b :: t)
  = (a, b) :: progress_calls t.
Proof. destruct Hev as [-> | ->]; reflexivity. Qed.

Lemma writes_chunk buf r a b t :
  writes (EvStop false :: ev buf r :: EvProgress a b :: t) = S (writes t).
Proof. destruct Hev as [-> | ->]; reflexivity. Qed.

(** A run that ends normally has handed every byte of the file to the
    raw write, once and in order. *)
Lemma write_run_requests p i f wt t v :
  chunk_size <> 0 ->
  write_run ev err w chunk_size total p i f wt t (Done v) ->
  List.concat (write_requests t) = f /\
  v = wt + Z.of_nat (List.length (disk t)) /\
  (List.length (disk t) <= List.length f)%nat /\
  (Exists short_write t -> v < wt + Z.of_nat (List.length f)).
Proof.
  intros Hc Hrun. remember (Done v) as o eqn:Ho.
  induction Hrun as [ |p i f wt Hs Hbuf| |p i f wt n t o Hs Hne Hw Hrun IH];
    try discriminate.
  - inversion Ho; subst. simpl.
    assert (Hf : f = []).
    { unfold file_read in Hbuf. destruct (chunk_size <? 0) eqn:E; simpl in Hbuf; auto.
      apply Z.ltb_ge in E. destruct f; auto.
      assert (Z.to_nat chunk_size <> 0%nat) by lia.
      destruct (Z.to_nat chunk_size); [congruence | discriminate]. }
    subst f. repeat split; auto; try lia.
    intros Hx. inversion Hx as [? ? Hx1|? ? Hx1]; subst; [contradiction | inversion Hx1].
  - specialize (IH Ho). destruct IH as (Hcat & Hv & Hlen & Hshort).
    pose proof (committed_bounds n (fst (file_read chunk_size f))) as Hk.
    pose proof (file_read_app chunk_size f) as Happ.
    set (buf := fst (file_read chunk_size f)) in *.
    set (k := committed n buf) in *.
    rewrite requests_chunk, disk_chunk. simpl. rewrite Hcat.
    assert (Hfl : List.length f
                  = (List.length buf + List.length (snd (file_read chunk_size f)))%nat).
    { rewrite <- Happ at 1. apply length_app. }
    assert (Hfn : List.length (firstn (Z.to_nat k) buf) = Z.to_nat k).
    { rewrite length_firstn. lia. }
    rewrite length_app, Hfn. repeat split; auto; try lia.
    intros Hx. inversion Hx as [? ? Hx1|? ? Hx1]; subst; [contradiction|].
    inversion Hx1 as [? ? Hx2|? ? Hx2]; subst.
    + assert (k < Z.of_nat (List.length buf)).
      { destruct Hev as [He | He]; rewrite He in Hx2; exact Hx2. }
      lia.
    + inversion Hx2 as [? ? Hx3|? ? Hx3]; subst; [contradiction|].
      specialize (Hshort Hx3). lia.
Qed.

(** With whole writes the counter reaches the length of the file. *)
Lemma write_run_whole p i f wt t v :
  0 < chunk_size ->
  write_run ev err w chunk_size total p i f wt t (Done v) ->
  Forall whole_write t ->
  v = wt + Z.of_nat (List.length f) /\
  disk t = f /\
  Forall (fun c => wt < fst c) (progress_calls t) /\
  (f <> [] ->
   exists ps, progress_calls t = ps ++ [(wt + Z.of_nat (List.length f), total)]) /\
  (f = [] -> progress_calls t = []).
Proof.
  intros Hc Hrun. remember (Done v) as o eqn:Ho. revert Ho.
  induction Hrun as [ |p i f wt Hs Hbuf| |p i f wt n t o Hs Hne Hw Hrun IH];
    intros Ho Hwhole; try discriminate.
  - inversion Ho; subst. simpl.
    assert (Hf : f = []).
    { unfold file_read in Hbuf. destruct (chunk_size <? 0) eqn:E; simpl in Hbuf; auto.
      destruct f; auto.
      assert (Z.to_nat chunk_size <> 0%nat) by lia.
      destruct (Z.to_nat chunk_size); [congruence | discriminate]. }
    subst f. simpl. repeat split; auto; try lia. congruence.
  - inversion Hwhole as [|? ? _ Hw1]; subst.
    inversion Hw1 as [|? ? Hwk Hw2]; subst.
    inversion Hw2 as [|? ? _ Hw3]; subst.
    apply whole_write_ev in Hwk.
    specialize (IH eq_refl Hw3). destruct IH as (Hv & Hdisk & Hpos & Hlast & Hnil).
    pose proof (file_read_app chunk_size f) as Happ.
    set (buf := fst (file_read chunk_size f)) in *.
    set (k := committed n buf) in *.
    assert (Hfl : List.length f
                  = (List.length buf + List.length (snd (file_read chunk_size f)))%nat).
    { rewrite <- Happ at 1. apply length_app. }
    assert (Hbl : (0 < List.length buf)%nat).
    { destruct buf; [congruence | simpl; lia]. }
    rewrite disk_chunk, progress_chunk, Hdisk.
    clearbody k buf.
    replace (Z.to_nat k) with (List.length buf) by lia.
    rewrite firstn_all, Happ.
    repeat split; auto; try lia.
    + constructor; simpl; [lia|].
      eapply Forall_impl; [|exact Hpos]. simpl. intros c Hc'. lia.
    + intros _. destruct (snd (file_read chunk_size f)) as [|b rest] eqn:Er.
      * rewrite (Hnil eq_refl). exists []. simpl.
        replace (wt + Z.of_nat (List.length f)) with (wt + k)
          by (simpl in Hfl; lia).
        reflexivity.
      * assert (Hne' : b :: rest <> []) by discriminate.
        destruct (Hlast Hne') as [ps Hps]. rewrite Hps.
        exists ((wt + k, total) :: ps).
        replace (wt + Z.of_nat (List.length f))
          with (wt + k + Z.of_nat (List.length (b :: rest))) by lia.
        reflexivity.
    + intros Hf. subst f. simpl in Hfl. lia.
Qed.

(** A run in which [stop_cb] answered true ends there, interrupted, after
    as many whole chunks as it had written. *)
Lemma write_run_interrupted p i f wt t o :
  write_run ev err w chunk_size total p i f wt t o ->
  In (EvStop true) t ->
  o = Raised interrupted /\
  (exists t0, t = t0 ++ [EvStop true]) /\
  count is_committed t = writes t /\
  (0 < chunk_size -> Forall whole_write t ->
   disk t = List.concat (write_requests t) /\
   disk t = firstn (Z.to_nat (Z.of_nat (writes t) * chunk_size)) f).
Proof.
  induction 1 as [p i f wt Hs|p i f wt Hs Hbuf|p i f wt code Hs Hne Hw
                 |p i f wt n t o Hs Hne Hw Hrun IH]; intros Hin.
  - repeat split; auto. exists []. reflexivity.
  - simpl in Hin. destruct Hin as [Hin|[]]. discriminate.
  - simpl in Hin. destruct Hin as [Hin|[Hin|[]]]; [discriminate|].
    destruct Hev as [He | He]; rewrite He in Hin; discriminate.
  - assert (Hin' : In (EvStop true) t).
    { simpl in Hin. destruct Hin as [Hin|[Hin|[Hin|Hin]]]; auto; try discriminate.
      destruct Hev as [He | He]; rewrite He in Hin; discriminate. }
    destruct (IH Hin') as (Ho & Hex & Hcount & Hdisk).
    split; [exact Ho|]. split.
    { destruct Hex as [t0 Ht0].
      exists (EvStop false :: ev (fst (file_read chunk_size f))
                (Some (committed n (fst (file_read chunk_size f))))
              :: EvProgress (wt + committed n (fst (file_read chunk_size f))) total
              :: t0).
      simpl. now rewrite Ht0. }
    split.
    { rewrite writes_chunk. rewrite <- Hcount.
      destruct Hev as [-> | ->]; reflexivity. }
    intros Hc Hwhole.
    inversion Hwhole as [|? ? _ Hw1]; subst.
    inversion Hw1 as [|? ? Hwk Hw2]; subst.
    inversion Hw2 as [|? ? _ Hw3]; subst.
    apply whole_write_ev in Hwk.
    destruct (Hdisk Hc Hw3) as [Hd1 Hd2].
    rewrite disk_chunk, requests_chunk, writes_chunk. cbn [List.concat].
    set (buf := fst (file_read chunk_size f)) in *.
    replace (Z.to_nat (committed n buf)) with (List.length buf) by lia.
    rewrite firstn_all. split; [now rewrite Hd1|].
    rewrite Hd2. unfold buf, file_read.
    assert (E : (chunk_size <? 0) = false) by (apply Z.ltb_ge; lia).
    rewrite E. simpl fst. simpl snd.
    replace (Z.to_nat (Z.of_nat (S (writes t)) * chunk_size))
      with (Z.to_nat chunk_size + Z.to_nat (Z.of_nat (writes t) * chunk_size))%nat
      by nia.
    generalize (Z.to_nat chunk_size) as a.
    generalize (Z.to_nat (Z.of_nat (writes t) * chunk_size)) as b.
    clear. intros b a. revert f. induction a as [|a IHa]; intros f; simpl.
    + reflexivity.
    + destruct f as [|x f]; simpl; [now rewrite firstn_nil|].
      now rewrite IHa.
Qed.

(** When nothing interrupts and no write fails, the loop ends normally. *)
Lemma write_run_done p i f wt t o :
  never_stops w -> writes_return w ->
  write_run ev err w chunk_size total p i f wt t o ->
  exists v, o = Done v.
Proof.
  intros Hns Hwr. induction 1 as [p i f wt Hs| |p i f wt code Hs Hne Hw| ]; eauto.
  - rewrite Hns in Hs. discriminate.
  - destruct (Hwr i (fst (file_read chunk_size f))) as [n Hn]. congruence.
Qed.

End WriteRuns.

(** ** Facts about the runs of the zero-fill loop *)

Lemma repeat_firstn {A} (x : A) (n k : nat) :
  (k <= n)%nat -> firstn k (repeat x n) = repeat x k.
Proof.
  revert n. induction k as [|k IH]; intros n Hk; simpl; [reflexivity|].
  destruct n as [|n]; [lia|]. simpl. f_equal. apply IH. lia.
Qed.

Lemma last_chunk_size (size chunk_size q rem : Z) :
  0 < chunk_size -> 0 < rem <= chunk_size -> size = q * chunk_size + rem ->
  rem = if size mod chunk_size =? 0 then chunk_size else size mod chunk_size.
Proof.
  intros Hc Hrem Hs.
  destruct (Z.eq_dec rem chunk_size) as [Heq|Hne].
  - subst rem. replace size with ((q + 1) * chunk_size) by lia.
    rewrite Z_mod_mult. reflexivity.
  - assert (Hm : size mod chunk_size = rem).
    { symmetry. apply (Zmod_unique size chunk_size q rem); lia. }
    rewrite Hm. destruct (rem =? 0) eqn:E; [apply Z.eqb_eq in E; lia | reflexivity].
Qed.

Section FormatRuns.

Variable ev : list Byte.byte -> option Z -> event.
Variable err : Z -> exn.
Variable w : world.
Variable chunk_size size : Z.
Hypothesis Hev : raw_event ev.

Lemma zero_chunk_length wt :
  Z.of_nat (List.length (zero_chunk chunk_size size wt))
  = Z.max 0 (Z.min chunk_size (size - wt)).
Proof. unfold zero_chunk. rewrite repeat_length. lia. Qed.

Lemma format_run_in_loop p i wt t o :
  format_run ev err w chunk_size size p i wt t o ->
  forallb in_loop t = true.
Proof.
  induction 1; destruct Hev as [-> | ->]; simpl; auto.
Qed.

Lemma format_run_at_end p i wt t o :
  format_run ev err w chunk_size size p i wt t o ->
  size <= wt -> t = [] /\ o = Done wt.
Proof. intros Hrun Hle. inversion Hrun; subst; try lia. auto. Qed.

(** What every run of the loop does: zero bytes only, never past [size],
    one progress call per chunk written, the counter never decreasing;
    and a run that ends normally has reached [size] exactly. *)
Lemma format_run_bytes p i wt t o :
  format_run ev err w chunk_size size p i wt t o ->
  wt <= size ->
  disk t = repeat Byte.x00 (List.length (disk t)) /\
  wt + Z.of_nat (List.length (disk t)) <= size /\
  Forall (fun c => wt <= fst c <= size /\ snd c = size) (progress_calls t) /\
  nondecreasing (wt :: map fst (progress_calls t)) /\
  count is_committed t = List.length (progress_calls t) /\
  (forall v, o = Done v ->
     v = size /\ wt + Z.of_nat (List.length (disk t)) = size /\
     (wt < size -> exists ps, progress_calls t = ps ++ [(size, size)])).
Proof.
  induction 1 as [p i wt Hge|p i wt Hlt Hs|p i wt code Hlt Hs Hw
                 |p i wt n t o Hlt Hs Hw Hrun IH]; intros Hle.
  - simpl. split; [reflexivity|]. split; [lia|]. split; [constructor|].
    split; [simpl; auto|]. split; [reflexivity|].
    intros v Hv. inversion Hv; subst. split; [lia|]. split; [lia|]. intros; lia.
  - simpl. split; [reflexivity|]. split; [lia|]. split; [constructor|].
    split; [simpl; auto|]. split; [reflexivity|]. discriminate.
  - destruct Hev as [-> | ->]; simpl;
      (split; [reflexivity|]; split; [lia|]; split; [constructor|];
       split; [simpl; auto|]; split; [reflexivity|]; discriminate).
  - pose proof (committed_bounds n (zero_chunk chunk_size size wt)) as Hk.
    pose proof (zero_chunk_length wt) as Hzl.
    set (buf := zero_chunk chunk_size size wt) in *.
    set (k := committed n buf) in *.
    assert (Hk2 : wt + k <= size) by lia.
    destruct (IH Hk2) as (Hz & Hbound & Hall & Hnd & Hcount & Hdone).
    rewrite (disk_chunk ev Hev), (progress_chunk ev Hev).
    assert (Hfirst : firstn (Z.to_nat k) buf = repeat Byte.x00 (Z.to_nat k)).
    { unfold buf, zero_chunk. apply repeat_firstn.
      unfold buf, zero_chunk in Hk. rewrite repeat_length in Hk. lia. }
    assert (Hcc : count is_committed
                    (EvStop false :: ev buf (Some k) :: EvProgress (wt + k) size :: t)
                  = S (count is_committed t)).
    { destruct Hev as [-> | ->]; reflexivity. }
    rewrite Hfirst, Hcc, length_app, repeat_length.
    split.
    { rewrite Hz at 1. rewrite <- repeat_app. reflexivity. }
    split; [lia|]. split.
    { constructor; simpl; [lia|].
      eapply Forall_impl; [|exact Hall]. simpl. intros c Hc. lia. }
    split.
    { simpl. split; [lia|]. exact Hnd. }
    split; [simpl; lia|].
    intros v Hv. destruct (Hdone v Hv) as (Hv1 & Hv2 & Hlast).
    split; [exact Hv1|]. split; [lia|]. intros _.
    destruct (Z.eq_dec (wt + k) size) as [Heq|Hneq].
    + exists []. simpl.
      destruct (format_run_at_end _ _ _ _ _ Hrun) as [Hnil _]; [lia|].
      rewrite Hnil. simpl. rewrite Heq. reflexivity.
    + destruct Hlast as [ps Hps]; [lia|]. rewrite Hps.
      exists ((wt + k, size) :: ps). reflexivity.
Qed.

(** With whole writes, the last chunk requested is what is left of
    [size] after the chunks of [chunk_size] bytes. *)
Lemma format_run_last_chunk p i wt t v :
  0 < chunk_size ->
  format_run ev err w chunk_size size p i wt t (Done v) ->
  Forall whole_write t ->
  (exists q, wt = q * chunk_size) ->
  forall rs buf, write_requests t = rs ++ [buf] ->
    Z.of_nat (List.length buf)
    = if size mod chunk_size =? 0 then chunk_size else size mod chunk_size.
Proof.
  intros Hc Hrun. remember (Done v) as o eqn:Ho. revert Ho.
  induction Hrun as [p i wt Hge|p i wt Hlt Hs|p i wt code Hlt Hs Hw
                    |p i wt n t o Hlt Hs Hw Hrun IH];
    intros Ho Hwhole [q Hq] rs buf Hreq; try discriminate.
  - simpl in Hreq. destruct rs; discriminate.
  - inversion Hwhole as [|? ? _ Hw1]. inversion Hw1 as [|? ? Hwk Hw2].
    inversion Hw2 as [|? ? _ Hw3].
    apply (whole_write_ev ev Hev) in Hwk.
    pose proof (zero_chunk_length wt) as Hzl.
    rewrite (requests_chunk ev Hev) in Hreq.
    assert (Hk : committed n (zero_chunk chunk_size size wt)
                 = Z.min chunk_size (size - wt)) by lia.
    destruct rs as [|r rs]; simpl in Hreq; inversion Hreq as [[Hb Hrest]].
    + assert (Hend : size <= wt + committed n (zero_chunk chunk_size size wt)).
      { destruct (Z_le_gt_dec size (wt + committed n (zero_chunk chunk_size size wt)))
          as [Hle|Hgt]; [exact Hle|].
        exfalso. inversion Hrun; subst; try lia; try discriminate.
        rewrite (requests_chunk ev Hev) in Hrest. discriminate. }
      rewrite Hzl.
      replace (Z.max 0 (Z.min chunk_size (size - wt))) with (size - wt) by lia.
      apply (last_chunk_size size chunk_size q (size - wt)); lia.
    + assert (Hmore : wt + committed n (zero_chunk chunk_size size wt) < size).
      { destruct (Z_lt_ge_dec (wt + committed n (zero_chunk chunk_size size wt)) size)
          as [Hl|Hg]; [exact Hl|].
        exfalso. destruct (format_run_at_end _ _ _ _ _ Hrun) as [Hnil _]; [lia|].
        rewrite Hnil in Hrest. simpl in Hrest. destruct rs; discriminate. }
      apply (IH Ho Hw3) with (rs := rs).
      * exists (q + 1). lia.
      * exact Hrest.
Qed.

(** A run in which [stop_cb] answered true ends there, interrupted; with
    whole writes every chunk before had [chunk_size] bytes. *)
Lemma format_run_interrupted p i wt t o :
  format_run ev err w chunk_size size p i wt t o ->
  In (EvStop true) t ->
  wt < size /\
  o = Raised interrupted /\
  (exists t0, t = t0 ++ [EvStop true]) /\
  count is_committed t = writes t /\
  (0 < chunk_size -> Forall whole_write t ->
   disk t = List.concat (write_requests t) /\
   disk t = repeat Byte.x00 (Z.to_nat (Z.of_nat (writes t) * chunk_size))).
Proof.
  induction 1 as [p i wt Hge|p i wt Hlt Hs|p i wt code Hlt Hs Hw
                 |p i wt n t o Hlt Hs Hw Hrun IH]; intros Hin.
  - destruct Hin.
  - split; [exact Hlt|]. split; [reflexivity|]. split; [exists []; reflexivity|].
    split; [reflexivity|]. intros _ _. split; reflexivity.
  - simpl in Hin. destruct Hin as [Hin|[Hin|[]]]; [discriminate|].
    destruct Hev as [He | He]; rewrite He in Hin; discriminate.
  - assert (Hin' : In (EvStop true) t).
    { simpl in Hin. destruct Hin as [Hin|[Hin|[Hin|Hin]]]; auto; try discriminate.
      destruct Hev as [He | He]; rewrite He in Hin; discriminate. }
    destruct (IH Hin') as (Hlt' & Ho & Hex & Hcount & Hdisk).
    split; [exact Hlt|]. split; [exact Ho|]. split.
    { destruct Hex as [t0 Ht0].
      exists (EvStop false :: ev (zero_chunk chunk_size size wt)
                (Some (committed n (zero_chunk chunk_size size wt)))
              :: EvProgress (wt + committed n (zero_chunk chunk_size size wt)) size
              :: t0).
      simpl. now rewrite Ht0. }
    split.
    { rewrite (writes_chunk ev Hev). rewrite <- Hcount.
      destruct Hev as [-> | ->]; reflexivity. }
    intros Hc Hwhole.
    inversion Hwhole as [|? ? _ Hw1]. inversion Hw1 as [|? ? Hwk Hw2].
    inversion Hw2 as [|? ? _ Hw3].
    apply (whole_write_ev ev Hev) in Hwk.
    destruct (Hdisk Hc Hw3) as [Hd1 Hd2].
    pose proof (zero_chunk_length wt) as Hzl.
    rewrite (disk_chunk ev Hev), (requests_chunk ev Hev), (writes_chunk ev Hev).
    cbn [List.concat].
    assert (Hk : committed n (zero_chunk chunk_size size wt) = chunk_size) by lia.
    assert (Hbuf : zero_chunk chunk_size size wt = repeat Byte.x00 (Z.to_nat chunk_size)).
    { unfold zero_chunk. f_equal. lia. }
    rewrite Hk, Hbuf.
    rewrite repeat_firstn by lia.
    split; [now rewrite Hd1|].
    rewrite Hd2, <- repeat_app. f_equal. nia.
Qed.

(** When nothing interrupts and no write fails, a run ends normally. *)
Lemma format_run_done p i wt t o :
  0 < chunk_size -> never_stops w -> makes_progress w ->
  format_run ev err w chunk_size size p i wt t o ->
  exists v, o = Done v.
Proof.
  intros Hc Hns Hmp.
  induction 1 as [ |p i wt Hlt Hs|p i wt code Hlt Hs Hw| ]; eauto.
  - rewrite Hns in Hs. discriminate.
  - assert (Hne : zero_chunk chunk_size size wt <> []).
    { pose proof (zero_chunk_length wt) as Hzl.
      destruct (zero_chunk chunk_size size wt); [simpl in Hzl; lia | discriminate]. }
    destruct (Hmp i _ Hne) as [n [Hn _]]. congruence.
Qed.

(** The loop ends within [size - wt] iterations when every raw write takes
    at least one byte. *)
Lemma format_loop_terminates (fuel : nat) :
  makes_progress w -> 0 < chunk_size ->
  forall wt t0,
    size - wt <= Z.of_nat fuel ->
    fst (format_loop (raw_call ev err w) w chunk_size fuel size wt t0) <> OutOfFuel.
Proof.
  intros Hmp Hc. induction fuel as [|fuel IH]; intros wt t0 Hfuel.
  - cbn [format_loop]. destruct (wt <? size) eqn:E; [|discriminate].
    apply Z.ltb_lt in E. lia.
  - cbn [format_loop]. destruct (wt <? size) eqn:E; [|discriminate].
    apply Z.ltb_lt in E. unfold bind, call_stop_cb.
    destruct (stop_cb w (polls t0)); [discriminate|].
    unfold raw_call.
    fold (zero_chunk chunk_size size wt).
    assert (Hne : zero_chunk chunk_size size wt <> []).
    { pose proof (zero_chunk_length wt) as Hzl.
      destruct (zero_chunk chunk_size size wt); [simpl in Hzl; lia | discriminate]. }
    destruct (Hmp (writes (t0 ++ [EvStop false])) _ Hne) as [n [Hn Hn1]].
    rewrite Hn. unfold call_progress_cb, emit.
    apply IH.
    pose proof (zero_chunk_length wt) as Hzl. unfold committed. lia.
Qed.

End FormatRuns.

(** ** From the shape of an operation to its whole trace *)

Lemma before_first_write_quiet (pre x : trace) :
  forallb (fun e => negb (in_loop e)) pre = true ->
  before_first_write (pre ++ x) = pre ++ before_first_write x.
Proof.
  induction pre as [|e pre IH]; simpl; [reflexivity|].
  intros H. apply andb_true_iff in H. destruct H as [He Hp].
  destruct (is_write e) eqn:E.
  - unfold in_loop in He. rewrite E, orb_true_r in He. discriminate.
  - now rewrite IH.
Qed.

Lemma around_loop (pre t post : trace) :
  forallb (fun e => negb (in_loop e)) (pre ++ post) = true ->
  progress_calls (pre ++ t ++ post) = progress_calls t /\
  disk (pre ++ t ++ post) = disk t /\
  write_requests (pre ++ t ++ post) = write_requests t /\
  writes (pre ++ t ++ post) = writes t /\
  count is_committed (pre ++ t ++ post) = count is_committed t /\
  (Forall whole_write (pre ++ t ++ post) -> Forall whole_write t) /\
  (In (EvStop true) (pre ++ t ++ post) -> In (EvStop true) t) /\
  (Exists short_write (pre ++ t ++ post) -> Exists short_write t) /\
  before_first_write (pre ++ t ++ post) = pre ++ before_first_write (t ++ post).
Proof.
  intros H. rewrite forallb_app in H. apply andb_true_iff in H.
  destruct H as [Hpre Hpost].
  destruct (quiet_trace pre Hpre) as (_ & Hw1 & Hd1 & Hc1 & Hr1 & _ & Hm1 & _ & Hs1 & Hx1).
  destruct (quiet_trace post Hpost) as (_ & Hw2 & Hd2 & Hc2 & Hr2 & _ & Hm2 & _ & Hs2 & Hx2).
  rewrite !progress_calls_app, !disk_app, !write_requests_app, !writes_app, !count_app.
  rewrite Hw1, Hd1, Hc1, Hr1, Hm1, Hw2, Hd2, Hc2, Hr2, Hm2, !app_nil_r.
  repeat split; simpl; try lia.
  - intros Hf. apply Forall_app in Hf. destruct Hf as [_ Hf].
    apply Forall_app in Hf. tauto.
  - intros Hin. apply in_app_or in Hin. destruct Hin as [Hin|Hin]; [contradiction|].
    apply in_app_or in Hin. destruct Hin as [Hin|Hin]; [exact Hin | contradiction].
  - intros Hx. apply Exists_app in Hx. destruct Hx as [Hx|Hx]; [contradiction|].
    apply Exists_app in Hx. destruct Hx as [Hx|Hx]; [exact Hx | contradiction].
  - now apply before_first_write_quiet.
Qed.

Lemma loop_events_release (t : trace) :
  forallb in_loop t = true ->
  count is_close t = 0%nat /\ count is_unlock t = 0%nat /\
  existsb is_opened t = false.
Proof.
  induction t as [|e t IH]; simpl; [auto|].
  intros H. apply andb_true_iff in H. destruct H as [He Ht].
  destruct (IH Ht) as (Hc & Hu & Ho). unfold count in *.
  destruct e; simpl in *; try discriminate; auto.
Qed.

Lemma locked_then_dismounted_app (locked : bool) (a b : trace) :
  locked_then_dismounted locked a = true ->
  locked_then_dismounted locked (a ++ b) = true.
Proof.
  revert locked. induction a as [|e a IH]; intros locked; simpl; [discriminate|].
  destruct (locked && is_dismount_ok e); [reflexivity | apply IH].
Qed.

Lemma acquired_app (on_windows : bool) (a b : trace) :
  acquired on_windows a = true -> acquired on_windows (a ++ b) = true.
Proof.
  unfold acquired. destruct on_windows.
  - apply locked_then_dismounted_app.
  - intros H. rewrite existsb_app, H. reflexivity.
Qed.

Lemma ends_with_release_app (on_windows : bool) (a post : trace) :
  ends_with_release on_windows post = true ->
  ends_with_release on_windows (a ++ post) = true.
Proof.
  unfold ends_with_release. rewrite rev_app_distr.
  destruct (rev post) as [|c rest]; [discriminate|]. simpl.
  destruct on_windows; [|auto].
  destruct c; try discriminate. destruct rest as [|u rest]; [discriminate|].
  simpl. auto.
Qed.

Lemma shaped_bracketed h w drive run r :
  (forall t o, run t o -> forallb in_loop t = true) ->
  shaped h w drive run r -> bracketed (is_windows h) (snd r).
Proof.
  intros Hloop (pre & t & post & HT & Hq & Hb & _ & Hcase).
  destruct (around_loop pre t post Hq) as (_ & _ & _ & Hw & _ & _ & _ & _ & Hbf).
  assert (Hq' := Hq). rewrite forallb_app in Hq'. apply andb_true_iff in Hq'.
  destruct Hq' as [Hqpre Hqpost].
  destruct (quiet_trace post Hqpost) as (_ & Hwpost & _).
  assert (Ht : count is_close t = 0%nat /\ count is_unlock t = 0%nat /\
               existsb is_opened t = false).
  { destruct Hcase as [(Ht & _)|(_ & _ & o & Hrun & _)].
    - subst t. auto.
    - apply loop_events_release. eapply Hloop; eauto. }
  destruct Ht as (Htc & Htu & Hto).
  assert (Hopen : existsb is_opened (snd r) = existsb is_opened (pre ++ post)).
  { rewrite HT, !existsb_app, Hto. reflexivity. }
  assert (Hclose : count is_close (snd r) = count is_close (pre ++ post)).
  { rewrite HT, !count_app, Htc. lia. }
  assert (Hunlock : count is_unlock (snd r) = count is_unlock (pre ++ post)).
  { rewrite HT, !count_app, Htu. lia. }
  assert (Hwr : writes (snd r) = writes t) by (rewrite HT; exact Hw).
  unfold bracket_ok in Hb. unfold bracketed.
  rewrite Hopen, Hclose, Hunlock, Hwr.
  split; [|split].
  - intros Hne. destruct Hcase as [(Ht & _)|(Hacq & _)].
    + subst t. unfold writes in Hne. simpl in Hne. congruence.
    + rewrite HT, Hbf. now apply acquired_app.
  - intros Ho. rewrite Ho in Hb.
    apply andb_true_iff in Hb. destruct Hb as [Hb Hu].
    apply andb_true_iff in Hb. destruct Hb as [He Hc].
    apply Nat.eqb_eq in Hc. split; [exact Hc|]. split.
    + intros Hwin. rewrite Hwin in Hu. now apply Nat.eqb_eq in Hu.
    + rewrite HT, app_assoc. now apply ends_with_release_app.
  - intros Ho. rewrite Ho in Hb.
    apply andb_true_iff in Hb. destruct Hb as [Hc Hu].
    apply Nat.eqb_eq in Hc. split; [exact Hc|].
    destruct Hcase as [(Ht & _)|(_ & Hop & _)].
    + subst t. reflexivity.
    + rewrite existsb_app, Hop in Ho. discriminate.
Qed.

Lemma platform_raw_event (h : host) : raw_event (platform_event h).
Proof. unfold platform_event, raw_event. destruct (is_windows h); auto. Qed.

(** ** Progress reports of [write_image] *)

Lemma nondecreasing_tail (a : Z) (l : list Z) :
  nondecreasing (a :: l) -> nondecreasing l.
Proof. simpl. tauto. Qed.

(** C1, as the code has it: every call of [progress_cb] made by
    [write_image] carries [total = L] and a counter between 0 and [L] that
    never decreases, one call after each chunk written.  When the operation
    returns normally and every raw write took its whole chunk, every counter
    is positive and, for a non-empty image, the last call has
    [written = L = total]; for an empty image no call is made.  The
    operation returns normally when setup and finish succeed, nothing
    interrupts and no raw write fails. *)
Theorem write_image_progress (h : host) (w : world) (chunk_size : Z)
    (image : list Byte.byte) (drive : string) :
  0 < chunk_size ->
  let r := write_image h w chunk_size image drive [] in
  let L := Z.of_nat (List.length image) in
  let calls := progress_calls (snd r) in
  Forall (fun c => 0 <= fst c <= L /\ snd c = L) calls /\
  nondecreasing (map fst calls) /\
  List.length calls = count is_committed (snd r) /\
  (fst r = Done tt -> Forall whole_write (snd r) ->
   Forall (fun c => 0 < fst c) calls /\
   (image <> [] -> exists cs, calls = cs ++ [(L, L)]) /\
   (image = [] -> calls = [])) /\
  (setup_ok h w drive -> finish_ok h w -> never_stops w -> writes_return w ->
   fst r = Done tt).
Proof.
  intros Hc r L calls. subst r L calls.
  destruct (write_image_shaped h w chunk_size image drive)
    as (pre & t & post & HT & Hq & _ & _ & Hcase).
  destruct (around_loop pre t post Hq)
    as (Hpc & _ & _ & _ & Hcm & Hwhole & _ & _ & _).
  rewrite HT, Hpc, Hcm.
  destruct Hcase as [(Ht & [e He] & Hsetup)|(_ & _ & o & Hrun & _ & Hdone & Hret)].
  - subst t. simpl. split; [constructor|]. split; [exact I|]. split; [reflexivity|].
    split.
    + intros Hd. rewrite He in Hd. discriminate.
    + intros Hs. contradiction.
  - pose proof (platform_raw_event h) as Hev.
    destruct (write_run_progress _ _ _ _ _ Hev _ _ _ _ _ _ Hrun) as (Hall & Hnd & Hcount).
    split; [|split; [|split; [|split]]].
    + eapply Forall_impl; [|exact Hall]. simpl. intros c Hcall. lia.
    + eapply nondecreasing_tail; exact Hnd.
    + symmetry. exact Hcount.
    + intros Hd Hw. destruct (Hret Hd) as [v Hv]. subst o.
      apply Hwhole in Hw.
      destruct (write_run_whole _ _ _ _ _ Hev _ _ _ _ _ _ Hc Hrun Hw)
        as (_ & _ & Hpos & Hlast & Hnil).
      simpl in Hlast. auto.
    + intros Hs Hf Hns Hwr.
      destruct (write_run_done _ _ _ _ _ _ _ _ _ _ _ Hns Hwr Hrun) as [v Hv].
      eapply Hdone; eauto.
Qed.

Lemma write_image_progress_witness :
  let r := write_image linux_host good_world 2 image5 "A" [] in
  let L := Z.of_nat (List.length image5) in
  let calls := progress_calls (snd r) in
  Forall (fun c => 0 <= fst c <= L /\ snd c = L) calls /\
  nondecreasing (map fst calls) /\
  List.length calls = count is_committed (snd r) /\
  (fst r = Done tt -> Forall whole_write (snd r) ->
   Forall (fun c => 0 < fst c) calls /\
   (image5 <> [] -> exists cs, calls = cs ++ [(L, L)]) /\
   (image5 = [] -> calls = [])) /\
  (setup_ok linux_host good_world "A" -> finish_ok linux_host good_world ->
   never_stops good_world -> writes_return good_world ->
   fst r = Done tt).
Proof.
  apply (write_image_progress linux_host good_world 2 image5 "A"). lia.
Defined.

Example write_image_progress_calls :
  progress_calls (snd (write_image linux_host good_world 2 image5 "A" []))
  = [(2, 5); (4, 5); (5, 5)].
Proof. vm_compute. reflexivity. Qed.

(** C1, counterexample: when the device takes one byte of the first
    two-byte chunk, [write_image] returns normally on a three-byte image,
    having reported after each of its two chunks, and its last progress call
    has [written = 2], not 3. *)
Lemma write_image_final_call_counterexample :
  let image := [Byte.x01; Byte.x02; Byte.x03] in
  let r := write_image linux_host short_world 2 image "A" [] in
  fst r = Done tt /\
  write_requests (snd r) = [[Byte.x01; Byte.x02]; [Byte.x03]] /\
  progress_calls (snd r) = [(1, 3); (2, 3)] /\
  Z.of_nat (List.length image) = 3.
Proof. vm_compute. repeat split; reflexivity. Qed.

(** ** Short writes in [write_image] *)

Lemma write_run_final_call ev err w chunk_size total p i f wt t v :
  raw_event ev ->
  write_run ev err w chunk_size total p i f wt t (Done v) ->
  (progress_calls t = [] /\ write_requests t = [] /\ v = wt) \/
  (exists cs, progress_calls t = cs ++ [(v, total)]).
Proof.
  intros Hev Hrun. remember (Done v) as o eqn:Ho. revert Ho.
  induction Hrun as [ |p i f wt Hs Hbuf| |p i f wt n t o Hs Hne Hw Hrun IH];
    intros Ho; try discriminate.
  - inversion Ho; subst. left. auto.
  - right. rewrite (progress_chunk ev Hev).
    destruct (IH Ho) as [(Hnil & _ & Hv)|[cs Hcs]].
    + exists []. rewrite Hnil, Hv. reflexivity.
    + exists ((wt + committed n (fst (file_read chunk_size f)), total) :: cs).
      rewrite Hcs. reflexivity.
Qed.

Lemma no_requests_no_short (t : trace) :
  write_requests t = [] -> ~ Exists short_write t.
Proof.
  induction t as [|e t IH]; intros Hr Hx; inversion Hx as [? ? H1|? ? H1]; subst.
  - destruct e; simpl in *; try contradiction; discriminate.
  - apply IH; auto. unfold write_requests in *. simpl in Hr.
    apply app_eq_nil in Hr. tauto.
Qed.

Example short_write_shifts_the_image :
  disk (snd (write_image linux_host short_world 2 [Byte.x01; Byte.x02; Byte.x03] "A" []))
  = [Byte.x01; Byte.x03].
Proof. vm_compute. reflexivity. Qed.

(** ** Cancellation *)

Lemma no_writes_no_bytes (t : trace) : writes t = 0%nat -> disk t = [].
Proof.
  induction t as [|e t IH]; [reflexivity|].
  unfold writes, disk in *. simpl.
  destruct e; simpl; intros H; try discriminate; auto.
Qed.

Lemma shaped_released h w drive run r :
  (forall t o, run t o -> forallb in_loop t = true) ->
  shaped h w drive run r ->
  writes (snd r) <> 0%nat \/ In (EvStop true) (snd r) ->
  count is_close (snd r) = 1%nat /\ ends_with_release (is_windows h) (snd r) = true.
Proof.
  intros Hloop Hsh Hin.
  pose proof (shaped_bracketed h w drive run r Hloop Hsh) as (_ & Hopened & _).
  destruct Hsh as (pre & t & post & HT & Hq & _ & _ & Hcase).
  destruct (around_loop pre t post Hq) as (_ & _ & _ & Hw & _ & _ & Hstop & _).
  assert (Hop : existsb is_opened (snd r) = true).
  { destruct Hcase as [(Ht & _)|(_ & Hop & _)].
    - subst t. rewrite HT in Hin. destruct Hin as [Hin|Hin].
      + rewrite Hw in Hin. unfold writes in Hin. simpl in Hin. congruence.
      + apply Hstop in Hin. destruct Hin.
    - rewrite HT, existsb_app, Hop. reflexivity. }
  destruct (Hopened Hop) as (Hc & _ & He). auto.
Qed.

Example cancelled_before_first_chunk :
  let r := write_image windows_host (stop_from 0) 2 image5 "A" [] in
  fst r = Raised interrupted /\ disk (snd r) = [] /\
  snd r = [EvLog "Target device: \\.\A:" "info"; EvCreateFile "\\.\A:" true;
           EvIoctl FSCTL_LOCK_VOLUME true; EvIoctl FSCTL_DISMOUNT_VOLUME true;
           EvStop true;
           EvIoctl FSCTL_UNLOCK_VOLUME true; EvCloseHandle].
Proof. vm_compute. repeat split; reflexivity. Qed.

Example cancelled_after_one_chunk :
  let r := write_image linux_host (stop_from 1) 2 image5 "A" [] in
  fst r = Raised interrupted /\ disk (snd r) = [Byte.x01; Byte.x02] /\
  In (EvStop true) (snd r) /\ ends_with_release false (snd r) = true.
Proof. vm_compute. repeat split; try reflexivity. do 6 right. left. reflexivity. Qed.

Example format_cancelled_after_two_chunks :
  let r := format_zero_fill linux_host (stop_from 2) 2 10 7 "A" [] in
  fst r = Raised interrupted /\
  disk (snd r) = [Byte.x00; Byte.x00; Byte.x00; Byte.x00].
Proof. vm_compute. repeat split; reflexivity. Qed.

(** The error of a failing [os.close] replaces the interruption. *)
Example close_failure_masks_interruption :
  fst (write_image
         (mkHost "linux" (fun _ => true) no_inventory no_plist (fun _ => "") None
                 (fun _ => "Input/output error"))
         (mkWorld (fun _ => true) false None (fun _ => None) whole None None None None
                  (Some 5))
         2 image5 "A" [])
  = Raised (OSError 5 "Input/output error").
Proof. vm_compute. reflexivity. Qed.

(** ** Zero fill *)

Lemma format_zero_fill_returns (h : host) (w : world) (chunk_size : Z) (fuel : nat)
    (size : Z) (drive : string) :
  (forall t0,
     fst (format_loop (raw_call (platform_event h) (platform_error h) w) w
            chunk_size fuel size 0 t0) <> OutOfFuel) ->
  fst (format_zero_fill h w chunk_size fuel size drive []) <> OutOfFuel.
Proof.
  intros Hloop.
  remember (format_zero_fill h w chunk_size fuel size drive []) as r eqn:Hr.
  unfold format_zero_fill in Hr. unfold bind at 1, lift in Hr.
  destruct (resolve_device_path h drive) as [device|e] eqn:Eres;
    [|subst r; discriminate].
  unfold ret in Hr. cbv beta iota in Hr.
  unfold platform_event, platform_error in Hloop.
  destruct (platform_tests h) as [[Hwin Hp]|[Hwin Hp]].
  - fold (is_windows h) in Hr. rewrite Hwin in *.
    unfold_operation Hr. rewrite Hwin in Hr. cbv beta iota delta [negb] in Hr.
    repeat world_step Hr; try (subst r; discriminate).
    all: match type of Hr with
         | context [format_loop ?prim ?w ?c ?fuel ?sz ?wt ?t0] =>
             pose proof (Hloop t0) as Hl;
             destruct (format_loop prim w c fuel sz wt t0) as [o t1] eqn:El
         end.
    all: destruct o as [?v|?e|]; [| |cbn [fst] in Hl; congruence].
    all: cbv beta iota in Hr; subst r; discriminate.
  - fold (is_windows h) in Hr. rewrite Hwin in *.
    unfold_operation Hr.
    destruct Hp as [Hp|Hp]; rewrite Hp in Hr;
      [ change (String.eqb "linux" "linux") with true in Hr
      | change (String.eqb "macos" "linux") with false in Hr;
        change (String.eqb "macos" "macos") with true in Hr ];
      cbv beta iota in Hr.
    all: repeat world_step Hr; try (subst r; discriminate).
    all: match type of Hr with
         | context [format_loop ?prim ?w ?c ?fuel ?sz ?wt ?t0] =>
             pose proof (Hloop t0) as Hl;
             destruct (format_loop prim w c fuel sz wt t0) as [o t1] eqn:El
         end.
    all: destruct o as [?v|?e|]; [| |cbn [fst] in Hl; congruence].
    all: cbv beta iota in Hr; subst r; discriminate.
Qed.

(** C2, as the code has it: for [size >= 0] and a positive chunk size,
    every execution of [format_zero_fill] that ends puts only zero bytes on
    the device, never more than [size], and reports counters that never
    decrease nor exceed [size], one after each chunk written; an execution
    that returns normally has put exactly [size] zero bytes on the device
    and, if [size > 0], made its last report with [written = size]; if
    moreover every raw write took its whole chunk, the last chunk requested
    has [size mod chunk_size] bytes when that is not zero and [chunk_size]
    bytes otherwise.  The operation returns normally, given [size]
    iterations, when setup and finish succeed, nothing interrupts and every
    raw write takes at least one byte. *)
Theorem format_zero_fill_bytes (h : host) (w : world) (chunk_size : Z) (fuel : nat)
    (size : Z) (drive : string) :
  0 <= size -> 0 < chunk_size ->
  let r := format_zero_fill h w chunk_size fuel size drive [] in
  let calls := progress_calls (snd r) in
  (fst r <> OutOfFuel ->
   disk (snd r) = repeat Byte.x00 (List.length (disk (snd r))) /\
   Z.of_nat (List.length (disk (snd r))) <= size /\
   Forall (fun c => 0 <= fst c <= size /\ snd c = size) calls /\
   nondecreasing (map fst calls) /\
   List.length calls = count is_committed (snd r)) /\
  (fst r = Done tt ->
   disk (snd r) = repeat Byte.x00 (Z.to_nat size) /\
   (0 < size -> exists cs, calls = cs ++ [(size, size)]) /\
   (size = 0 -> write_requests (snd r) = []) /\
   (Forall whole_write (snd r) ->
    forall rs buf, write_requests (snd r) = rs ++ [buf] ->
      Z.of_nat (List.length buf)
      = if size mod chunk_size =? 0 then chunk_size else size mod chunk_size)) /\
  (setup_ok h w drive -> finish_ok h w -> never_stops w -> makes_progress w ->
   size <= Z.of_nat fuel ->
   fst r = Done tt).
Proof.
  intros Hs Hc r calls. subst r calls.
  pose proof (platform_raw_event h) as Hev.
  assert (Hmain :
    fst (format_zero_fill h w chunk_size fuel size drive []) <> OutOfFuel ->
    exists pre t post o,
      snd (format_zero_fill h w chunk_size fuel size drive []) = pre ++ t ++ post /\
      forallb (fun e => negb (in_loop e)) (pre ++ post) = true /\
      ((t = [] /\ (exists e, fst (format_zero_fill h w chunk_size fuel size drive [])
                             = Raised e) /\ o = Raised interrupted /\
        ~ setup_ok h w drive) \/
       (format_run (platform_event h) (platform_error h) w chunk_size size 0 0 0 t o /\
        (forall v, o = Done v -> finish_ok h w ->
           fst (format_zero_fill h w chunk_size fuel size drive []) = Done tt) /\
        (fst (format_zero_fill h w chunk_size fuel size drive []) = Done tt ->
         exists v, o = Done v)))).
  { intros Hfuel.
    destruct (format_zero_fill_shaped h w chunk_size fuel size drive Hfuel)
      as (pre & t & post & HT & Hq & _ & _ & Hcase).
    destruct Hcase as [(Ht & He & Hno)|(_ & _ & o & Hrun & _ & Hdone & Hret)].
    - exists pre, t, post, (Raised interrupted). auto 10.
    - exists pre, t, post, o. auto 10. }
  split; [|split].
  - intros Hfuel. destruct (Hmain Hfuel) as (pre & t & post & o & HT & Hq & Hcase).
    destruct (around_loop pre t post Hq) as (Hpc & Hd & _ & _ & Hcm & _).
    rewrite HT, Hpc, Hd, Hcm.
    destruct Hcase as [(Ht & _)|(Hrun & _)].
    + subst t. simpl. split; [reflexivity|]. split; [lia|]. split; [constructor|].
      split; [exact I | reflexivity].
    + destruct (format_run_bytes _ _ _ _ _ Hev _ _ _ _ _ Hrun Hs)
        as (Hz & Hb & Hall & Hnd & Hcount & _).
      split; [exact Hz|]. split; [lia|]. split; [exact Hall|].
      split; [eapply nondecreasing_tail; exact Hnd|]. symmetry. exact Hcount.
  - intros Hd.
    assert (Hfuel : fst (format_zero_fill h w chunk_size fuel size drive []) <> OutOfFuel)
      by (rewrite Hd; discriminate).
    destruct (Hmain Hfuel) as (pre & t & post & o & HT & Hq & Hcase).
    destruct (around_loop pre t post Hq) as (Hpc & Hdisk & Hrq & _ & _ & Hwhole & _).
    rewrite HT, Hpc, Hdisk, Hrq.
    destruct Hcase as [(_ & [e He] & _)|(Hrun & _ & Hret)]; [congruence|].
    destruct (Hret Hd) as [v Hv]. subst o.
    destruct (format_run_bytes _ _ _ _ _ Hev _ _ _ _ _ Hrun Hs)
      as (Hz & _ & _ & _ & _ & Hdone).
    destruct (Hdone v eq_refl) as (_ & Hlen & Hlast).
    split; [|split; [|split]].
    + rewrite Hz. f_equal. lia.
    + exact Hlast.
    + intros H0. destruct (format_run_at_end _ _ _ _ _ _ _ _ _ _ Hrun) as [Hnil _];
        [lia|]. rewrite Hnil. reflexivity.
    + intros Hw rs buf Hreq. apply Hwhole in Hw.
      eapply (format_run_last_chunk _ _ _ _ _ Hev _ _ _ _ _ Hc Hrun Hw); eauto.
      exists 0. lia.
  - intros Hsetup Hfinish Hns Hmp Hfuel.
    assert (Hret : fst (format_zero_fill h w chunk_size fuel size drive []) <> OutOfFuel).
    { apply format_zero_fill_returns. intros t0.
      apply format_loop_terminates; auto. lia. }
    destruct (Hmain Hret) as (pre & t & post & o & HT & Hq & Hcase).
    destruct Hcase as [(_ & _ & _ & Hno)|(Hrun & Hdone & _)]; [contradiction|].
    destruct (format_run_done _ _ _ _ _ _ _ _ _ _ Hc Hns Hmp Hrun) as [v Hv].
    eapply Hdone; eauto.
Qed.

(** Whatever its outcome, a run hands successive chunks of the file to the
    raw write and never goes back: the requests are a prefix of the file,
    and the device holds fewer bytes than the file once a write was short. *)
Lemma write_run_prefix ev err w chunk_size total p i f wt t o :
  raw_event ev ->
  write_run ev err w chunk_size total p i f wt t o ->
  (exists n, List.concat (write_requests t) = firstn n f) /\
  (List.length (disk t) <= List.length f)%nat /\
  (Exists short_write t -> (List.length (disk t) < List.length f)%nat).
Proof.
  intros Hev.
  induction 1 as [p i f wt Hs|p i f wt Hs Hbuf|p i f wt code Hs Hne Hw
                 |p i f wt n t o Hs Hne Hw Hrun IH].
  - simpl. split; [exists 0%nat; reflexivity|]. split; [lia|].
    intros Hx. inversion Hx as [? ? H1|? ? H1]; subst; [contradiction | inversion H1].
  - simpl. split; [exists 0%nat; reflexivity|]. split; [lia|].
    intros Hx. inversion Hx as [? ? H1|? ? H1]; subst; [contradiction | inversion H1].
  - pose proof (file_read_app chunk_size f) as Happ.
    set (buf := fst (file_read chunk_size f)) in *.
    assert (Hrq : write_requests [EvStop false; ev buf None] = [buf])
      by (destruct Hev as [-> | ->]; reflexivity).
    assert (Hdk : disk [EvStop false; ev buf None] = [])
      by (destruct Hev as [-> | ->]; reflexivity).
    rewrite Hrq, Hdk. simpl. split.
    + exists (List.length buf). rewrite <- Happ, app_nil_r.
      rewrite firstn_app, firstn_all, Nat.sub_diag. simpl. now rewrite app_nil_r.
    + split; [lia|]. intros Hx.
      inversion Hx as [? ? H1|? ? H1]; subst; [contradiction|].
      inversion H1 as [? ? H2|? ? H2]; subst; [|inversion H2].
      destruct Hev as [He | He]; rewrite He in H2; contradiction.
  - destruct IH as ([m Hm] & Hlen & Hshort).
    pose proof (committed_bounds n (fst (file_read chunk_size f))) as Hk.
    pose proof (file_read_app chunk_size f) as Happ.
    set (buf := fst (file_read chunk_size f)) in *.
    set (k := committed n buf) in *.
    assert (Hfl : List.length f
                  = (List.length buf + List.length (snd (file_read chunk_size f)))%nat).
    { rewrite <- Happ at 1. apply length_app. }
    assert (Hfn : List.length (firstn (Z.to_nat k) buf) = Z.to_nat k).
    { rewrite length_firstn. lia. }
    rewrite (requests_chunk ev Hev), (disk_chunk ev Hev). cbn [List.concat].
    rewrite length_app, Hfn. split.
    + exists (List.length buf + m)%nat. rewrite Hm.
      rewrite <- Happ at 2. now rewrite firstn_app_2.
    + split; [lia|]. intros Hx.
      inversion Hx as [? ? H1|? ? H1]; subst; [contradiction|].
      inversion H1 as [? ? H2|? ? H2]; subst.
      * assert (k < Z.of_nat (List.length buf)).
        { destruct Hev as [He | He]; rewrite He in H2; exact H2. }
        lia.
      * inversion H2 as [? ? H3|? ? H3]; subst; [contradiction|].
        specialize (Hshort H3). lia.
Qed.

(** C10, as the code has it: in every execution of [write_image] in which a
    raw write took
    fewer bytes than its chunk, the remainder is not issued again: the
    chunks handed to the raw write are successive parts of the image, and
    the device ends with fewer bytes than [total].  When setup and finish
    succeed, nothing interrupts and every raw write returns, the operation
    returns normally, every byte of the image has been handed to the raw
    write once, and the last counter reported, the number of bytes on the
    device, is strictly less than [total]. *)
Theorem write_image_short_write (h : host) (w : world) (chunk_size : Z)
    (image : list Byte.byte) (drive : string) :
  0 < chunk_size ->
  Exists short_write (snd (write_image h w chunk_size image drive [])) ->
  let r := write_image h w chunk_size image drive [] in
  let total := Z.of_nat (List.length image) in
  (exists n, List.concat (write_requests (snd r)) = firstn n image) /\
  Z.of_nat (List.length (disk (snd r))) < total /\
  (setup_ok h w drive -> finish_ok h w -> never_stops w -> writes_return w ->
   fst r = Done tt /\
   List.concat (write_requests (snd r)) = image /\
   exists cs written,
     progress_calls (snd r) = cs ++ [(written, total)] /\
     written = Z.of_nat (List.length (disk (snd r))) /\
     written < total).
Proof.
  intros Hc Hshort r total. subst r total.
  destruct (write_image_shaped h w chunk_size image drive)
    as (pre & t & post & HT & Hq & _ & _ & Hcase).
  destruct (around_loop pre t post Hq)
    as (Hpc & Hd & Hrq & _ & _ & _ & _ & Hsh & _).
  rewrite HT in Hshort. apply Hsh in Hshort.
  rewrite HT, Hpc, Hd, Hrq.
  pose proof (platform_raw_event h) as Hev.
  destruct Hcase as [(Ht & _)|(_ & _ & o & Hrun & _ & Hdone & _)].
  { subst t. inversion Hshort. }
  destruct (write_run_prefix _ _ _ _ _ _ _ _ _ _ _ Hev Hrun) as (Hpre & _ & Hlt).
  split; [exact Hpre|]. split; [specialize (Hlt Hshort); lia|].
  intros Hsetup Hfinish Hns Hwr.
  destruct (write_run_done _ _ _ _ _ _ _ _ _ _ _ Hns Hwr Hrun) as [v Hv]. subst o.
  assert (Hc0 : chunk_size <> 0) by lia.
  destruct (write_run_requests _ _ _ _ _ Hev _ _ _ _ _ _ Hc0 Hrun)
    as (Hcat & Hval & _ & Hless).
  split; [eapply Hdone; eauto|]. split; [exact Hcat|].
  destruct (write_run_final_call _ _ _ _ _ _ _ _ _ _ _ Hev Hrun)
    as [(_ & Hnone & _)|[cs Hcs]].
  - exfalso. eapply no_requests_no_short; eauto.
  - exists cs, v. split; [exact Hcs|]. split; [lia|]. specialize (Hless Hshort). lia.
Qed.

Lemma write_image_short_write_witness :
  let image := [Byte.x01; Byte.x02; Byte.x03] in
  let r := write_image linux_host short_world 2 image "A" [] in
  let total := Z.of_nat (List.length image) in
  (exists n, List.concat (write_requests (snd r)) = firstn n image) /\
  Z.of_nat (List.length (disk (snd r))) < total /\
  fst r = Done tt /\
  List.concat (write_requests (snd r)) = image /\
  exists cs written,
    progress_calls (snd r) = cs ++ [(written, total)] /\
    written = Z.of_nat (List.length (disk (snd r))) /\
    written < total.
Proof.
  destruct (write_image_short_write linux_host short_world 2
              [Byte.x01; Byte.x02; Byte.x03] "A") as (H1 & H2 & H3).
  - lia.
  - vm_compute. do 4 apply Exists_cons_tl. apply Exists_cons_hd. reflexivity.
  - split; [exact H1|]. split; [exact H2|]. apply H3.
    + split; [eexists; vm_compute; reflexivity | reflexivity].
    + split; reflexivity.
    + intros p. reflexivity.
    + intros i buf. destruct i; eexists; reflexivity.
Defined.

(** A short write followed by a cancellation: the operation raises. *)
Example short_write_then_cancelled :
  let r := write_image linux_host (world_with (fun p => (1 <=? p)%nat) first_short)
                       2 [Byte.x01; Byte.x02; Byte.x03] "A" [] in
  fst r = Raised interrupted /\ disk (snd r) = [Byte.x01].
Proof. vm_compute. split; reflexivity. Qed.

Lemma format_zero_fill_bytes_witness :
  let r := format_zero_fill linux_host good_world 2 5 5 "A" [] in
  fst r = Done tt /\
  disk (snd r) = repeat Byte.x00 5 /\
  (exists cs, progress_calls (snd r) = cs ++ [(5, 5)]) /\
  (forall rs buf, write_requests (snd r) = rs ++ [buf] ->
     Z.of_nat (List.length buf) = if 5 mod 2 =? 0 then 2 else 5 mod 2).
Proof.
  destruct (format_zero_fill_bytes linux_host good_world 2 5 5 "A")
    as (_ & H2 & H3); [lia | lia |].
  assert (Hd : fst (format_zero_fill linux_host good_world 2 5 5 "A" []) = Done tt).
  { apply H3.
    - split; [eexists; vm_compute; reflexivity | reflexivity].
    - split; reflexivity.
    - intros p. reflexivity.
    - intros i buf Hne. exists (Z.of_nat (List.length buf)). split; [reflexivity|].
      destruct buf; [congruence | simpl; lia].
    - simpl. lia. }
  destruct (H2 Hd) as (Hdisk & Hlast & _ & Hchunk).
  split; [exact Hd|]. split; [exact Hdisk|]. split; [apply Hlast; lia|].
  apply Hchunk. vm_compute. repeat constructor.
Defined.

(** C2, counterexample: when the device takes one byte of the first
    two-byte chunk, zero-filling 4 bytes in chunks of 2 returns normally
    with 4 zero bytes on the device, but its last chunk has 1 byte, although
    4 is a multiple of 2. *)
Lemma format_last_chunk_counterexample :
  let r := format_zero_fill linux_host short_world 2 10 4 "A" [] in
  fst r = Done tt /\
  disk (snd r) = [Byte.x00; Byte.x00; Byte.x00; Byte.x00] /\
  write_requests (snd r)
  = [[Byte.x00; Byte.x00]; [Byte.x00; Byte.x00]; [Byte.x00]] /\
  4 mod 2 = 0.
Proof. vm_compute. repeat split; reflexivity. Qed.

Example format_zero_size_writes_nothing :
  write_requests (snd (format_zero_fill linux_host good_world 2 10 0 "A" [])) = [].
Proof. vm_compute. reflexivity. Qed.

(** * Further properties *)

(** ** Size formatting, by magnitude *)

Lemma float_ltb_scaled (n : Z) (j : nat) :
  (j <= 4)%nat ->
  float_ltb (scale j (mkFloat n 0)) 1024 = (n <? 1024 ^ (Z.of_nat j + 1)).
Proof.
  intros Hj.
  destruct j as [|[|[|[|[|j]]]]]; try lia; unfold float_ltb; simpl.
  - now rewrite Z.mul_1_r.
  - reflexivity.
  - reflexivity.
  - reflexivity.
  - reflexivity.
Qed.

Lemma scale_exact (n : Z) (k : nat) :
  scale k (mkFloat n 0) = mkFloat n (- 10 * Z.of_nat k).
Proof.
  assert (H : forall e, scale k (mkFloat n e) = mkFloat n (e - 10 * Z.of_nat k)).
  { induction k as [|k IH]; intros e.
    - simpl. f_equal. lia.
    - cbn [scale]. unfold fdiv1024. cbn [mant expo]. rewrite IH. f_equal. lia. }
  rewrite H. f_equal. lia.
Qed.

Lemma human_bytes_loop_units (x : float) :
  human_bytes_loop units x
  = Some (if float_ltb (scale 0 x) 1024 then render 0 (scale 0 x)
          else if float_ltb (scale 1 x) 1024 then render 1 (scale 1 x)
          else if float_ltb (scale 2 x) 1024 then render 2 (scale 2 x)
          else if float_ltb (scale 3 x) 1024 then render 3 (scale 3 x)
          else render 4 (scale 4 x)).
Proof.
  simpl.
  destruct (float_ltb x 1024); [reflexivity|].
  destruct (float_ltb (fdiv1024 x) 1024); [reflexivity|].
  destruct (float_ltb (fdiv1024 (fdiv1024 x)) 1024); [reflexivity|].
  destruct (float_ltb (fdiv1024 (fdiv1024 (fdiv1024 x))) 1024); [reflexivity|].
  rewrite orb_true_r. reflexivity.
Qed.

Lemma append_assoc (a b c : string) : (a +++ b) +++ c = a +++ b +++ c.
Proof. induction a as [|x a IH]; simpl; [reflexivity | rewrite IH; reflexivity]. Qed.

Lemma round_half_even_bounds (num den : Z) :
  0 < den ->
  num / den <= round_half_even num den /\
  2 * Z.abs (round_half_even num den * den - num) <= den.
Proof.
  intros Hden. unfold round_half_even.
  pose proof (Z.div_mod num den ltac:(lia)) as Hdm.
  pose proof (Z.mod_pos_bound num den Hden) as Hr.
  set (q := num / den) in *. set (r := num mod den) in *.
  destruct ((2 * r >? den) || ((2 * r =? den) && Z.odd q)) eqn:E.
  - split; [lia|].
    assert (den <= 2 * r).
    { apply orb_true_iff in E. destruct E as [E|E].
      - apply Z.gtb_lt in E. lia.
      - apply andb_true_iff in E. destruct E as [E _]. apply Z.eqb_eq in E. lia. }
    replace ((q + 1) * den - num) with (den - r) by lia. lia.
  - split; [lia|].
    apply orb_false_iff in E. destruct E as [E _].
    assert (2 * r <= den).
    { destruct (2 * r >? den) eqn:E'; [discriminate|].
      pose proof (Zgt_cases (2 * r) den) as Hc. rewrite E' in Hc. lia. }
    replace (q * den - num) with (- r) by lia. lia.
Qed.

Lemma human_bytes_at_unit (n : Z) (k : nat) :
  0 <= n < 2 ^ 53 ->
  (k <= 4)%nat ->
  (k <> 0%nat -> 1024 ^ Z.of_nat k <= n) ->
  ((k < 4)%nat -> n < 1024 ^ (Z.of_nat k + 1)) ->
  human_bytes n = Ok (render k (mkFloat n (- 10 * Z.of_nat k))).
Proof.
  intros Hn Hk Hlow Hhigh.
  unfold human_bytes. rewrite float_of_int_exact by lia.
  rewrite human_bytes_loop_units, <- scale_exact.
  assert (Hbelow : forall j, (j < k)%nat ->
                     float_ltb (scale j (mkFloat n 0)) 1024 = false).
  { intros j Hj. rewrite float_ltb_scaled by lia. apply Z.ltb_ge.
    assert (1024 ^ (Z.of_nat j + 1) <= 1024 ^ Z.of_nat k)
      by (apply Z.pow_le_mono_r; lia).
    assert (1024 ^ Z.of_nat k <= n) by (apply Hlow; lia). lia. }
  assert (Hstop : (k < 4)%nat -> float_ltb (scale k (mkFloat n 0)) 1024 = true).
  { intros Hk4. rewrite float_ltb_scaled by lia. apply Z.ltb_lt. auto. }
  destruct k as [|[|[|[|[|k]]]]]; try lia.
  - rewrite Hstop by lia. reflexivity.
  - rewrite (Hbelow 0%nat), Hstop by lia. reflexivity.
  - rewrite (Hbelow 0%nat), (Hbelow 1%nat), Hstop by lia. reflexivity.
  - rewrite (Hbelow 0%nat), (Hbelow 1%nat), (Hbelow 2%nat), Hstop by lia. reflexivity.
  - rewrite (Hbelow 0%nat), (Hbelow 1%nat), (Hbelow 2%nat), (Hbelow 3%nat) by lia.
    reflexivity.
Qed.

(** X1: for [1024 <= n < 2^53] the unit is chosen by magnitude, the unit
    [k] with [1024^k <= n < 1024^(k+1)] and terabytes from [1024^4] on, and
    the two decimals printed are the hundredths nearest to [n / 1024^k]. *)
Theorem human_bytes_unit (n : Z) (k : nat) :
  0 <= n < 2 ^ 53 ->
  (0 < k <= 4)%nat ->
  1024 ^ Z.of_nat k <= n ->
  ((k < 4)%nat -> n < 1024 ^ (Z.of_nat k + 1)) ->
  exists d,
    human_bytes n =
      Ok (str_N (Z.to_N (d / 100)) +++ "." +++ frac_digits 2 d +++ " " +++ nth k units "") /\
    2 * Z.abs (d * 1024 ^ Z.of_nat k - 100 * n) <= 1024 ^ Z.of_nat k.
Proof.
  intros Hn Hk Hlo Hhi.
  exists (scaled_digits 2 (mkFloat n (- 10 * Z.of_nat k))). split.
  - rewrite (human_bytes_at_unit n k) by (lia || (intros; assumption) || auto).
    unfold render, format_f. cbn [mant].
    destruct k as [|k']; [lia|].
    assert (Hs : (n <? 0) = false) by (apply Z.ltb_ge; lia).
    rewrite Hs. change (10 ^ Z.of_nat 2) with 100.
    rewrite !append_assoc. reflexivity.
  - unfold scaled_digits. cbn [mant expo].
    assert (Hneg : (0 <=? - 10 * Z.of_nat k) = false) by (apply Z.leb_gt; lia).
    rewrite Hneg.
    replace (- (- 10 * Z.of_nat k)) with (10 * Z.of_nat k) by lia.
    assert (Hpow : 2 ^ (10 * Z.of_nat k) = 1024 ^ Z.of_nat k).
    { rewrite Z.pow_mul_r by lia. reflexivity. }
    rewrite Hpow.
    assert (Hp : 0 < 1024 ^ Z.of_nat k) by (apply Z.pow_pos_nonneg; lia).
    destruct (round_half_even_bounds (Z.abs n * 10 ^ Z.of_nat 2) (1024 ^ Z.of_nat k) Hp)
      as [_ Hb].
    rewrite (Z.abs_eq n) in * by lia.
    replace (100 * n) with (n * 10 ^ Z.of_nat 2) by (change (10 ^ Z.of_nat 2) with 100; lia).
    exact Hb.
Qed.

Lemma human_bytes_unit_witness :
  exists d,
    human_bytes 1474560 =
      Ok (str_N (Z.to_N (d / 100)) +++ "." +++ frac_digits 2 d +++ " " +++ nth 2%nat units "") /\
    2 * Z.abs (d * 1024 ^ Z.of_nat 2 - 100 * 1474560) <= 1024 ^ Z.of_nat 2.
Proof.
  apply (human_bytes_unit 1474560 2); lia.
Defined.

(** X2: below 1024, and for every negative number down to [-2^53], the
    bytes are printed as they are, whatever their magnitude: a negative
    size is never scaled. *)
Theorem human_bytes_plain (n : Z) :
  - 2 ^ 53 < n < 1024 ->
  human_bytes n = Ok (str_int n +++ " B").
Proof.
  intros Hn. unfold human_bytes. rewrite float_of_int_exact by lia.
  rewrite human_bytes_loop_units.
  assert (Hlt : float_ltb (scale 0 (mkFloat n 0)) 1024 = true).
  { unfold float_ltb. simpl. rewrite Z.mul_1_r. apply Z.ltb_lt. lia. }
  rewrite Hlt. unfold render, format_f, scaled_digits, str_int. simpl.
  rewrite !Z.mul_1_r, Z.div_1_r.
  destruct (n <? 0) eqn:E.
  - apply Z.ltb_lt in E. rewrite Z.abs_neq by lia. reflexivity.
  - apply Z.ltb_ge in E. rewrite Z.abs_eq by lia. reflexivity.
Qed.

Lemma human_bytes_plain_witness : human_bytes (-5000) = Ok (str_int (-5000) +++ " B").
Proof. apply (human_bytes_plain (-5000)). lia. Defined.

(** X3: an integer of absolute value [2^1024] or more cannot be converted,
    and [human_bytes] raises [OverflowError] on it. *)
Theorem human_bytes_overflow (n : Z) :
  2 ^ 1024 <= Z.abs n ->
  human_bytes n = Raise (OverflowError "int too large to convert to float").
Proof.
  intros Hn. unfold human_bytes, float_of_int.
  set (B := 2 ^ 1024) in *.
  assert (HB : 0 < B) by (unfold B; apply Z.pow_pos_nonneg; lia).
  set (a := Z.abs n) in *.
  assert (Ha0 : (a =? 0) = false) by (apply Z.eqb_neq; lia).
  rewrite Ha0.
  assert (Hlog : 1024 <= Z.log2 a).
  { replace 1024 with (Z.log2 B) by (unfold B; apply Z.log2_pow2; lia).
    apply Z.log2_le_mono. exact Hn. }
  assert (Hbits : (Z.log2 a + 1 <=? 53) = false) by (apply Z.leb_gt; lia).
  rewrite Hbits.
  set (sh := Z.log2 a + 1 - 53).
  assert (Hsh : 0 <= sh) by (unfold sh; lia).
  assert (Hp : 0 < 2 ^ sh) by (apply Z.pow_pos_nonneg; lia).
  destruct (round_half_even_bounds a (2 ^ sh) Hp) as [Hq _].
  destruct (Z.log2_spec a ltac:(lia)) as [Hlo _].
  assert (Hsplit : 2 ^ Z.log2 a = 2 ^ sh * 2 ^ 52).
  { rewrite <- Z.pow_add_r by lia. f_equal. unfold sh. lia. }
  assert (Hdiv : 2 ^ 52 <= a / 2 ^ sh).
  { apply Z.div_le_lower_bound; [exact Hp|]. rewrite <- Hsplit. exact Hlo. }
  assert (Hbig : B <= round_half_even a (2 ^ sh) * 2 ^ sh).
  { assert (B <= 2 ^ Z.log2 a) by (unfold B; apply Z.pow_le_mono_r; lia).
    assert (2 ^ 52 * 2 ^ sh <= round_half_even a (2 ^ sh) * 2 ^ sh)
      by (apply Z.mul_le_mono_nonneg_r; lia).
    lia. }
  destruct (round_half_even a (2 ^ sh) * 2 ^ sh >=? B) eqn:E; [reflexivity|].
  pose proof (Zge_cases (round_half_even a (2 ^ sh) * 2 ^ sh) B) as Hc.
  rewrite E in Hc. lia.
Qed.

Lemma human_bytes_overflow_witness :
  human_bytes (2 ^ 1024) = Raise (OverflowError "int too large to convert to float").
Proof.
  apply (human_bytes_overflow (2 ^ 1024)).
  rewrite Z.abs_eq; [lia | apply Z.pow_nonneg; lia].
Defined.

(** The largest double still converts. *)
Example human_bytes_largest :
  exists s, human_bytes (2 ^ 1024 - 2 ^ 971) = Ok s.
Proof. eexists. vm_compute. reflexivity. Qed.


(** ** Device discovery *)

Lemma is_floppy_size_In (z : Z) : is_floppy_size z = true <-> In z floppy_sizes.
Proof.
  unfold is_floppy_size. rewrite existsb_exists. split.
  - intros [x [Hin Hx]]. apply Z.eqb_eq in Hx. subst. exact Hin.
  - intros Hin. exists z. split; [exact Hin | apply Z.eqb_refl].
Qed.

Lemma row_qualifies_unique (ln d1 d2 : string) :
  row_qualifies ln d1 -> row_qualifies ln d2 -> d1 = d2.
Proof.
  intros (n1 & s1 & r1 & t1 & o1 & m1 & z1 & H1 & -> & _)
         (n2 & s2 & r2 & t2 & o2 & m2 & z2 & H2 & -> & _).
  rewrite H1 in H2. inversion H2. reflexivity.
Qed.

(** One row of the scan: it is returned, or it does not qualify and the scan
    goes on. *)
Lemma linux_scan_row (ln : string) (rest : list string) :
  (exists dev, row_qualifies ln dev /\ linux_scan (ln :: rest) = Ok (Some dev)) \/
  ((forall dev, ~ row_qualifies ln dev) /\ linux_scan (ln :: rest) = linux_scan rest).
Proof.
  cbn [linux_scan].
  destruct (split ln) as [|name [|size_s [|rm_s [|typ [|ro_s more]]]]] eqn:Es;
    try (right; split; [|reflexivity];
         intros dev (n & s & r & t & o & m & z & H & _); congruence).
  unfold parse_row.
  destruct (py_int size_s) as [size|e1] eqn:E1;
    [|right; split; [|reflexivity];
      intros dev (n & s & r & t & o & m & z & H & _ & _ & Hs & _);
      inversion H; subst; congruence].
  destruct (py_int rm_s) as [rm|e2] eqn:E2;
    [|right; split; [|reflexivity];
      intros dev (n & s & r & t & o & m & z & H & _ & _ & _ & _ & Hr & _);
      inversion H; subst; congruence].
  destruct (py_int ro_s) as [ro|e3] eqn:E3;
    [|right; split; [|reflexivity];
      intros dev (n & s & r & t & o & m & z & H & _ & _ & _ & _ & _ & Ho);
      inversion H; subst; congruence].
  destruct (String.eqb typ "disk") eqn:Et; cbn [negb orb].
  2:{ right. split; [|reflexivity].
      intros dev (n & s & r & t & o & m & z & H & _ & Ht & _).
      rewrite Es in H. inversion H; subst. vm_compute in Et. discriminate. }
  apply String.eqb_eq in Et.
  destruct (rm =? 1) eqn:Er; cbn [negb orb].
  2:{ right. split; [|reflexivity].
      intros dev (n & s & r & t & o & m & z & H & _ & _ & _ & _ & Hr & _).
      rewrite Es in H. inversion H; subst. rewrite E2 in Hr. inversion Hr; subst.
      discriminate. }
  apply Z.eqb_eq in Er.
  destruct (ro =? 0) eqn:Eo; cbn [negb orb].
  2:{ right. split; [|reflexivity].
      intros dev (n & s & r & t & o & m & z & H & _ & _ & _ & _ & _ & Ho).
      rewrite Es in H. inversion H; subst. rewrite E3 in Ho. inversion Ho; subst.
      discriminate. }
  apply Z.eqb_eq in Eo.
  destruct (is_floppy_size size) eqn:Ef.
  - left. exists ("/dev/" +++ name). split; [|reflexivity].
    exists name, size_s, rm_s, typ, ro_s, more, size.
    apply is_floppy_size_In in Ef. subst. auto 10.
  - right. split; [|reflexivity].
    intros dev (n & s & r & t & o & m & z & H & _ & _ & Hs & Hin & _).
    rewrite Es in H. inversion H; subst. rewrite E1 in Hs. inversion Hs; subst.
    apply is_floppy_size_In in Hin. congruence.
Qed.

Lemma linux_scan_first (lines : list string) :
  (forall dev,
     linux_scan lines = Ok (Some dev) <->
     exists before ln after,
       lines = before ++ ln :: after /\ row_qualifies ln dev /\
       forall l d, In l before -> ~ row_qualifies l d) /\
  (linux_scan lines = Ok None <-> forall l d, In l lines -> ~ row_qualifies l d).
Proof.
  induction lines as [|ln rest [IHsome IHnone]].
  - split.
    + intros dev. split; [discriminate|].
      intros (b & l & a & H & _). destruct b; discriminate.
    + split; [intros _ l d []|reflexivity].
  - destruct (linux_scan_row ln rest) as [[dev0 [Hq Hs]]|[Hnq Hs]]; rewrite Hs.
    + split.
      * intros dev. split.
        -- intros H. inversion H; subst. exists [], ln, rest. split; [reflexivity|].
           split; [exact Hq|]. intros l d [].
        -- intros (b & l & a & H & Hql & Hb). destruct b as [|x b].
           ++ inversion H; subst. f_equal. f_equal.
              exact (row_qualifies_unique _ _ _ Hq Hql).
           ++ inversion H; subst. exfalso. apply (Hb x dev0); [left; reflexivity|exact Hq].
      * split; [discriminate|].
        intros H. exfalso. apply (H ln dev0); [left; reflexivity|exact Hq].
    + split.
      * intros dev. rewrite IHsome. split.
        -- intros (b & l & a & H & Hql & Hb). exists (ln :: b), l, a.
           split; [rewrite H; reflexivity|]. split; [exact Hql|].
           intros l' d [<-|Hin]; [apply Hnq | apply Hb; exact Hin].
        -- intros (b & l & a & H & Hql & Hb). destruct b as [|x b].
           ++ inversion H; subst. exfalso. exact (Hnq _ Hql).
           ++ inversion H; subst. exists b, l, a. split; [reflexivity|].
              split; [exact Hql|]. intros l' d Hin. apply Hb. right. exact Hin.
      * rewrite IHnone. split.
        -- intros H l d [<-|Hin]; [apply Hnq | apply H; exact Hin].
        -- intros H l d Hin. apply H. right. exact Hin.
Qed.

(** X4: when [lsblk] answers, the Linux discovery returns the device of the
    first data row (the header apart) that names a writable removable disk
    of a floppy size, and nothing exactly when no row does. *)
Theorem linux_discovery_first_match (h : host) (out : string) :
  lsblk_output h = Ok out ->
  (forall dev,
     _linux_find_floppy_sized_block_device h = Ok (Some dev) <->
     exists before ln after,
       lsblk_rows out = before ++ ln :: after /\ row_qualifies ln dev /\
       forall l d, In l before -> ~ row_qualifies l d) /\
  (_linux_find_floppy_sized_block_device h = Ok None <->
   forall l d, In l (lsblk_rows out) -> ~ row_qualifies l d).
Proof.
  intros Hout.
  assert (Heq : _linux_find_floppy_sized_block_device h = linux_scan (lsblk_rows out)).
  { unfold _linux_find_floppy_sized_block_device, lsblk_rows. rewrite Hout.
    destruct (map strip _) as [|a [|b l]]; reflexivity. }
  rewrite Heq. apply linux_scan_first.
Qed.

Lemma linux_discovery_first_match_witness :
  (forall dev,
     _linux_find_floppy_sized_block_device usb_floppy_host = Ok (Some dev) <->
     exists before ln after,
       lsblk_rows usb_listing = before ++ ln :: after /\ row_qualifies ln dev /\
       forall l d, In l before -> ~ row_qualifies l d) /\
  (_linux_find_floppy_sized_block_device usb_floppy_host = Ok None <->
   forall l d, In l (lsblk_rows usb_listing) -> ~ row_qualifies l d).
Proof. apply (linux_discovery_first_match usb_floppy_host). reflexivity. Defined.

Example usb_floppy_found :
  _linux_find_floppy_sized_block_device usb_floppy_host = Ok (Some "/dev/sdc").
Proof. vm_compute. reflexivity. Qed.

Lemma is_int_value (v : pyval) :
  is_int v = true <-> exists z, int_value v = Some z.
Proof.
  destruct v; simpl; split; try discriminate; eauto;
    intros [z Hz]; discriminate.
Qed.

(** One entry of the macOS scan: a lookup raises, or the entry is returned,
    or it does not qualify and the scan goes on. *)
Lemma mac_scan_entry (h : host) (disk : pyval) (rest : list pyval) :
  (exists e, mac_scan h (disk :: rest) = Raise e) \/
  (exists dev, disk_qualifies h disk dev /\ mac_scan h (disk :: rest) = Ok (Some dev)) \/
  ((forall dev, ~ disk_qualifies h disk dev) /\
   mac_scan h (disk :: rest) = mac_scan h rest).
Proof.
  cbn [mac_scan].
  destruct (py_get disk "DeviceIdentifier" PNone) as [disk_id|e] eqn:Eid; [|eauto].
  destruct (py_get disk "Size" PNone) as [size|e] eqn:Esz; [|eauto].
  right.
  destruct (truthy disk_id) eqn:Et; cbn [negb orb].
  2:{ right. split; [|reflexivity].
      intros dev (i & s & z & Hi & _ & Ht & _). congruence. }
  destruct (is_int size) eqn:Ei; cbn [negb].
  2:{ right. split; [|reflexivity].
      intros dev (i & s & z & _ & Hs & _ & Hz & _).
      assert (is_int size = true) by (apply is_int_value; exists z; congruence).
      congruence. }
  destruct (int_value size) as [z|] eqn:Ez.
  2:{ apply is_int_value in Ei. destruct Ei as [z Hz]. congruence. }
  destruct (is_floppy_size z) eqn:Ef.
  - left. exists ("/dev/r" +++ py_format h disk_id). split; [|reflexivity].
    exists disk_id, size, z. apply is_floppy_size_In in Ef. auto 10.
  - right. split; [|reflexivity].
    intros dev (i & s & z' & _ & Hs & _ & Hz & Hin & _).
    apply is_floppy_size_In in Hin. congruence.
Qed.

Lemma mac_scan_first (h : host) (disks : list pyval) :
  (forall dev,
     mac_scan h disks = Ok (Some dev) ->
     exists before disk after,
       disks = before ++ disk :: after /\ disk_qualifies h disk dev /\
       forall d dev', In d before -> ~ disk_qualifies h d dev') /\
  (mac_scan h disks = Ok None ->
   forall d dev, In d disks -> ~ disk_qualifies h d dev).
Proof.
  induction disks as [|disk rest [IHsome IHnone]].
  - split; [discriminate | intros _ d dev []].
  - destruct (mac_scan_entry h disk rest) as [[e He]|[[dev0 [Hq He]]|[Hnq He]]];
      rewrite He.
    + split; discriminate.
    + split; [|discriminate].
      intros dev H. inversion H; subst. exists [], disk, rest.
      split; [reflexivity|]. split; [exact Hq|]. intros d dev' [].
    + split.
      * intros dev H. destruct (IHsome dev H) as (b & d & a & -> & Hqd & Hb).
        exists (disk :: b), d, a. split; [reflexivity|]. split; [exact Hqd|].
        intros d' dev' [<-|Hin]; [apply Hnq | apply Hb; exact Hin].
      * intros H d dev [<-|Hin]; [apply Hnq | apply IHnone; assumption].
Qed.

(** X5: a device the macOS discovery returns is [/dev/r] followed by the
    identifier of the first entry of [AllDisksAndPartitions] whose
    identifier is a true value and whose size is an integer of a floppy
    size; when it returns nothing after reading the list, no entry is
    such. *)
Theorem mac_discovery_first_match (h : host) (data : pyval) :
  diskutil_plist h = Ok data ->
  (forall dev,
     _mac_find_floppy_sized_disk h = Ok (Some dev) ->
     exists all disks before disk after,
       py_get data "AllDisksAndPartitions" (PList []) = Ok all /\
       py_iter all = Ok disks /\
       disks = before ++ disk :: after /\ disk_qualifies h disk dev /\
       forall d dev', In d before -> ~ disk_qualifies h d dev') /\
  (_mac_find_floppy_sized_disk h = Ok None ->
   exists all disks,
     py_get data "AllDisksAndPartitions" (PList []) = Ok all /\
     py_iter all = Ok disks /\
     forall d dev, In d disks -> ~ disk_qualifies h d dev).
Proof.
  intros Hd. unfold _mac_find_floppy_sized_disk. rewrite Hd.
  destruct (py_get data "AllDisksAndPartitions" (PList [])) as [all|e] eqn:Eall;
    [|split; discriminate].
  destruct (py_iter all) as [disks|e] eqn:Eit; [|split; [intros dev|]; discriminate].
  destruct (mac_scan_first h disks) as [Hsome Hnone]. split.
  - intros dev H. destruct (Hsome dev H) as (b & d & a & H1 & H2 & H3).
    exists all, disks, b, d, a. auto 10.
  - intros H. exists all, disks. auto.
Qed.

Lemma mac_discovery_first_match_witness :
  let h := mkHost "darwin" (fun _ => false) no_inventory
             (Ok (PDict [("AllDisksAndPartitions",
                          PList [PDict [("DeviceIdentifier", PStr "disk0");
                                        ("Size", PInt 500107862016)];
                                 PDict [("DeviceIdentifier", PStr "disk2");
                                        ("Size", PInt 1474560)]])]))
             (fun _ => "") None (fun _ => "") in
  _mac_find_floppy_sized_disk h = Ok (Some "/dev/rdisk2") /\
  exists all disks before disk after,
    py_get (PDict [("AllDisksAndPartitions",
                    PList [PDict [("DeviceIdentifier", PStr "disk0");
                                  ("Size", PInt 500107862016)];
                           PDict [("DeviceIdentifier", PStr "disk2");
                                  ("Size", PInt 1474560)]])])
           "AllDisksAndPartitions" (PList []) = Ok all /\
    py_iter all = Ok disks /\
    disks = before ++ disk :: after /\ disk_qualifies h disk "/dev/rdisk2" /\
    forall d dev', In d before -> ~ disk_qualifies h d dev'.
Proof.
  intros h. split; [reflexivity|].
  apply (mac_discovery_first_match h _ eq_refl). reflexivity.
Defined.

(** ** Drive letters *)

(** X6: off Windows the drive letter hardly matters.  On macOS it is
    ignored; on Linux it only chooses between the conventional paths, so
    that without them every letter resolves alike, and any letter other
    than [A], even an empty one, stands for drive B. *)
Theorem resolve_drive_letter (h : host) (d1 d2 : string) :
  is_windows h = false ->
  (platform_name h = "linux" ->
   (forall p, In p ["/dev/fd0"; "/dev/floppy/0"; "/dev/fd1"; "/dev/floppy/1"] ->
              path_exists h p = false) \/
   (strip (upper d1) <> "A" /\ strip (upper d2) <> "A")) ->
  resolve_device_path h d1 = resolve_device_path h d2.
Proof.
  intros Hwin Hlin. unfold resolve_device_path.
  unfold is_windows in Hwin. rewrite Hwin.
  destruct (platform_name_cases h) as [Hp|[Hp|Hp]]; rewrite Hp in *.
  - discriminate.
  - change (String.eqb "macos" "linux") with false. reflexivity.
  - change (String.eqb "linux" "linux") with true. cbv iota.
    destruct (Hlin eq_refl) as [Hno|[H1 H2]].
    + assert (Hc : forall d, first_existing h
                (if String.eqb d "A" then ["/dev/fd0"; "/dev/floppy/0"]
                 else ["/dev/fd1"; "/dev/floppy/1"]) = None).
      { intros d. destruct (String.eqb d "A"); cbn [first_existing];
          rewrite !Hno by (simpl; auto); reflexivity. }
      rewrite !Hc. reflexivity.
    + apply String.eqb_neq in H1. apply String.eqb_neq in H2.
      rewrite H1, H2. reflexivity.
Qed.

Lemma resolve_drive_letter_witness :
  resolve_device_path usb_floppy_host "A" = resolve_device_path usb_floppy_host "b".
Proof.
  apply (resolve_drive_letter usb_floppy_host "A" "b"); [reflexivity|].
  intros _. left. intros p _. reflexivity.
Defined.

Example linux_any_letter_is_drive_b :
  resolve_device_path
    (mkHost "linux" (fun p => String.eqb p "/dev/fd1") no_inventory no_plist
            (fun _ => "") None (fun _ => "")) "Z"
  = Ok "/dev/fd1".
Proof. reflexivity. Qed.

(** ** Unmounting *)

Lemma replace_no_slash (s : string) :
  no_slash s -> replace_from "/dev/rdisk" "/dev/disk" 0 s = s.
Proof.
  unfold no_slash, chars. induction s as [|c s IH]; intros H; [reflexivity|].
  cbn [list_ascii_of_string] in H. inversion H as [|? ? Hc Hs]; subst.
  cbn [replace_from String.prefix].
  destruct (ascii_dec "/" c) as [<-|_].
  - exfalso. apply Hc. reflexivity.
  - rewrite IH by exact Hs. reflexivity.
Qed.

Lemma replace_raw_disk (s : string) :
  no_slash s ->
  replace "/dev/rdisk" "/dev/disk" ("/dev/rdisk" +++ s) = "/dev/disk" +++ s.
Proof.
  intros H. unfold replace. cbn. rewrite (replace_no_slash s H).
  destruct s; reflexivity.
Qed.

(** X7: the unmount before a transfer never raises, whatever the command
    does, and runs one command: [umount] on the device on Linux and, on
    macOS, [diskutil unmountDisk] on the block device [/dev/diskN] of a raw
    device [/dev/rdiskN]. *)
Theorem unmount_best_effort (h : host) (w : world) (dev : string) (t : trace) :
  is_windows h = false ->
  exists argv,
    _unix_unmount_best_effort h w dev t = (Done tt, t ++ [EvRun argv]) /\
    (platform_name h = "linux" -> argv = ["umount"; dev]) /\
    (platform_name h = "macos" ->
     exists base, argv = ["diskutil"; "unmountDisk"; base] /\
       forall s, no_slash s -> dev = "/dev/rdisk" +++ s -> base = "/dev/disk" +++ s).
Proof.
  intros Hwin. unfold is_windows in Hwin.
  unfold _unix_unmount_best_effort, try_pass, call_subprocess_run, bind, emit, raise, ret.
  destruct (platform_name_cases h) as [Hp|[Hp|Hp]]; rewrite Hp in *.
  - discriminate.
  - change (String.eqb "macos" "linux") with false.
    change (String.eqb "macos" "macos") with true. cbv iota.
    eexists. split; [destruct (subprocess_run w); reflexivity|].
    split; [discriminate|]. intros _. eexists. split; [reflexivity|].
    intros s Hs ->. apply replace_raw_disk. exact Hs.
  - change (String.eqb "linux" "linux") with true. cbv iota.
    eexists. split; [destruct (subprocess_run w); reflexivity|].
    split; [reflexivity | discriminate].
Qed.

Lemma unmount_best_effort_witness :
  exists argv,
    _unix_unmount_best_effort mac_host_array_plist good_world "/dev/rdisk2" []
    = (Done tt, [] ++ [EvRun argv]) /\
    (platform_name mac_host_array_plist = "linux" -> argv = ["umount"; "/dev/rdisk2"]) /\
    (platform_name mac_host_array_plist = "macos" ->
     exists base, argv = ["diskutil"; "unmountDisk"; base] /\
       forall s, no_slash s -> "/dev/rdisk2" = "/dev/rdisk" +++ s ->
                 base = "/dev/disk" +++ s).
Proof.
  apply (unmount_best_effort mac_host_array_plist good_world "/dev/rdisk2" []).
  reflexivity.
Defined.

Example unmount_failure_is_swallowed :
  _unix_unmount_best_effort
    (mkHost "darwin" (fun _ => false) no_inventory no_plist (fun _ => "") None (fun _ => ""))
    (mkWorld (fun _ => false) false None (fun _ => None) whole None
             (Some (FileNotFoundError "diskutil")) None None None)
    "/dev/rdisk2" []
  = (Done tt, [EvRun ["diskutil"; "unmountDisk"; "/dev/disk2"]]).
Proof. reflexivity. Qed.

(** ** How the operations end *)

Lemma write_run_raises ev err w chunk_size total p i f wt t e :
  write_run ev err w chunk_size total p i f wt t (Raised e) ->
  e = interrupted \/ exists code, e = err code.
Proof.
  remember (Raised e) as o eqn:Ho. intros H. revert Ho.
  induction H; intros Ho; try discriminate; auto.
  - inversion Ho. auto.
  - inversion Ho. eauto.
Qed.

Lemma format_run_raises ev err w chunk_size size p i wt t e :
  format_run ev err w chunk_size size p i wt t (Raised e) ->
  e = interrupted \/ exists code, e = err code.
Proof.
  remember (Raised e) as o eqn:Ho. intros H. revert Ho.
  induction H; intros Ho; try discriminate; auto.
  - inversion Ho. auto.
  - inversion Ho. eauto.
Qed.

Lemma format_run_returns ev err w chunk_size size p i wt t o :
  format_run ev err w chunk_size size p i wt t o -> o <> OutOfFuel.
Proof. induction 1; auto; discriminate. Qed.

Ltac os_error_raised := right; right; reflexivity.

(** The exception of a leaf of the case analysis is one of the three
    kinds. *)
Ltac classify Hrun :=
  let e := fresh "e" in let He := fresh "He" in
  intros e He; cbn [fst] in He;
  first
    [ discriminate He
    | inversion He; subst; clear He; unfold raised_by;
      first
        [ os_error_raised
        | first [ apply write_run_raises in Hrun | apply format_run_raises in Hrun ];
          destruct Hrun as [->|[?c ->]];
          [ right; left; reflexivity | os_error_raised ] ] ].

Ltac settle_setup :=
  unfold settled; cbn [fst snd]; split;
  [ let e := fresh "e" in let He := fresh "He" in
    intros e He; inversion He; subst; clear He; unfold raised_by; os_error_raised
  | eexists [], [], _; split; [reflexivity|]; split; [reflexivity|];
    split; [reflexivity|]; left; split; [reflexivity|];
    split; [reflexivity | discriminate] ].

Ltac settle_loop Hrun t :=
  unfold settled; cbn [fst snd]; split;
  [ classify Hrun
  | rewrite <- ?app_assoc; cbn [app];
    eexists; exists t; eexists; split; [split_trace|];
    split; [reflexivity|]; split; [reflexivity|];
    right; eexists; split; [exact Hrun|]; split; [reflexivity|];
    let Hd := fresh in
    intros Hd; first [discriminate Hd | eexists; reflexivity] ].

Lemma write_image_settled (h : host) (w : world) (chunk_size : Z)
    (image : list Byte.byte) (drive : string) :
  settled h drive
    (write_run (platform_event h) (platform_error h) w chunk_size
       (Z.of_nat (List.length image)) 0 0 image 0)
    (write_image h w chunk_size image drive []).
Proof.
  remember (write_image h w chunk_size image drive []) as r eqn:Hr.
  unfold write_image in Hr. unfold bind at 1, lift in Hr.
  destruct (resolve_device_path h drive) as [device|e] eqn:Eres.
  2:{ subst r. split.
      - intros e' He'. inversion He'; subst. left. exact Eres.
      - exists [], [], []. split; [reflexivity|]. split; [reflexivity|].
        split; [reflexivity|]. left. split; [reflexivity|].
        split; [reflexivity | discriminate]. }
  unfold ret in Hr. cbv beta iota in Hr.
  unfold platform_event, platform_error.
  destruct (platform_tests h) as [[Hwin Hp]|[Hwin Hp]].
  - fold (is_windows h) in Hr. rewrite Hwin in *.
    unfold_operation Hr. rewrite Hwin in Hr. cbv beta iota delta [negb] in Hr.
    repeat world_step Hr; try (subst r; settle_setup).
    all: match type of Hr with
         | context [write_loop ?prim ?w ?c ?fuel ?f ?wt ?tot ?t0] =>
             let Hp0 := fresh "Hp0" in let Hw0 := fresh "Hw0" in
             assert (Hp0 : polls t0 = 0%nat) by reflexivity;
             assert (Hw0 : writes t0 = 0%nat) by reflexivity;
             destruct (write_loop prim w c fuel f wt tot t0) as [o t1] eqn:El;
             apply write_loop_run in El; [|left; reflexivity |lia];
             rewrite Hp0, Hw0 in El
         end.
    all: destruct El as [t [-> Hrun]].
    all: destruct o as [?v|?e|]; [| |apply write_run_returns in Hrun; congruence].
    all: cbv beta iota in Hr; subst r.
    all: settle_loop Hrun t.
  - fold (is_windows h) in Hr. rewrite Hwin in *.
    unfold_operation Hr.
    destruct Hp as [Hp|Hp]; rewrite Hp in Hr;
      [ change (String.eqb "linux" "linux") with true in Hr
      | change (String.eqb "macos" "linux") with false in Hr;
        change (String.eqb "macos" "macos") with true in Hr ];
      cbv beta iota in Hr.
    all: repeat world_step Hr; try (subst r; settle_setup).
    all: match type of Hr with
         | context [write_loop ?prim ?w ?c ?fuel ?f ?wt ?tot ?t0] =>
             let Hp0 := fresh "Hp0" in let Hw0 := fresh "Hw0" in
             assert (Hp0 : polls t0 = 0%nat) by reflexivity;
             assert (Hw0 : writes t0 = 0%nat) by reflexivity;
             destruct (write_loop prim w c fuel f wt tot t0) as [o t1] eqn:El;
             apply write_loop_run in El; [|right; reflexivity |lia];
             rewrite Hp0, Hw0 in El
         end.
    all: destruct El as [t [-> Hrun]].
    all: destruct o as [?v|?e|]; [| |apply write_run_returns in Hrun; congruence].
    all: cbv beta iota in Hr; subst r.
    all: settle_loop Hrun t.
Qed.

Lemma format_zero_fill_settled (h : host) (w : world) (chunk_size : Z) (fuel : nat)
    (size : Z) (drive : string) :
  fst (format_zero_fill h w chunk_size fuel size drive []) <> OutOfFuel ->
  settled h drive
    (format_run (platform_event h) (platform_error h) w chunk_size size 0 0 0)
    (format_zero_fill h w chunk_size fuel size drive []).
Proof.
  remember (format_zero_fill h w chunk_size fuel size drive []) as r eqn:Hr.
  intros Hfuel.
  unfold format_zero_fill in Hr. unfold bind at 1, lift in Hr.
  destruct (resolve_device_path h drive) as [device|e] eqn:Eres.
  2:{ subst r. split.
      - intros e' He'. inversion He'; subst. left. exact Eres.
      - exists [], [], []. split; [reflexivity|]. split; [reflexivity|].
        split; [reflexivity|]. left. split; [reflexivity|].
        split; [reflexivity | discriminate]. }
  unfold ret in Hr. cbv beta iota in Hr.
  unfold platform_event, platform_error.
  destruct (platform_tests h) as [[Hwin Hp]|[Hwin Hp]].
  - fold (is_windows h) in Hr. rewrite Hwin in *.
    unfold_operation Hr. rewrite Hwin in Hr. cbv beta iota delta [negb] in Hr.
    repeat world_step Hr; try (subst r; settle_setup).
    all: match type of Hr with
         | context [format_loop ?prim ?w ?c ?fuel ?sz ?wt ?t0] =>
             let Hp0 := fresh "Hp0" in let Hw0 := fresh "Hw0" in
             assert (Hp0 : polls t0 = 0%nat) by reflexivity;
             assert (Hw0 : writes t0 = 0%nat) by reflexivity;
             destruct (format_loop prim w c fuel sz wt t0) as [o t1] eqn:El;
             destruct o as [?v|?e|];
             [ | |cbv beta iota in Hr; subst r; cbn [fst] in Hfuel; congruence];
             (apply format_loop_run in El; [|left; reflexivity |discriminate]);
             rewrite Hp0, Hw0 in El
         end.
    all: destruct El as [t [-> Hrun]].
    all: cbv beta iota in Hr; subst r.
    all: settle_loop Hrun t.
  - fold (is_windows h) in Hr. rewrite Hwin in *.
    unfold_operation Hr.
    destruct Hp as [Hp|Hp]; rewrite Hp in Hr;
      [ change (String.eqb "linux" "linux") with true in Hr
      | change (String.eqb "macos" "linux") with false in Hr;
        change (String.eqb "macos" "macos") with true in Hr ];
      cbv beta iota in Hr.
    all: repeat world_step Hr; try (subst r; settle_setup).
    all: match type of Hr with
         | context [format_loop ?prim ?w ?c ?fuel ?sz ?wt ?t0] =>
             let Hp0 := fresh "Hp0" in let Hw0 := fresh "Hw0" in
             assert (Hp0 : polls t0 = 0%nat) by reflexivity;
             assert (Hw0 : writes t0 = 0%nat) by reflexivity;
             destruct (format_loop prim w c fuel sz wt t0) as [o t1] eqn:El;
             destruct o as [?v|?e|];
             [ | |cbv beta iota in Hr; subst r; cbn [fst] in Hfuel; congruence];
             (apply format_loop_run in El; [|right; reflexivity |discriminate]);
             rewrite Hp0, Hw0 in El
         end.
    all: destruct El as [t [-> Hrun]].
    all: cbv beta iota in Hr; subst r.
    all: settle_loop Hrun t.
Qed.

(** ** More facts about the runs of the two loops *)

Lemma firstn_add {A} (a b : nat) (l : list A) :
  firstn (a + b) l = firstn a l ++ firstn b (skipn a l).
Proof.
  revert l. induction a as [|a IH]; intros l; [reflexivity|].
  destruct l as [|x l]; simpl.
  - now destruct b.
  - f_equal. apply IH.
Qed.

Lemma whole_writes_disk (t : trace) :
  Forall whole_write t -> disk t = List.concat (write_requests t).
Proof.
  induction 1 as [|e t He _ IH]; [reflexivity|].
  change (disk (e :: t)) with (bytes_of e ++ disk t).
  change (write_requests (e :: t)) with (request_of e ++ write_requests t).
  rewrite concat_app, IH. f_equal.
  destruct e; try reflexivity; simpl in He; subst; simpl;
    rewrite Nat2Z.id, firstn_all, app_nil_r; reflexivity.
Qed.

Lemma polled_before_writes_quiet (go : bool) (t : trace) :
  forallb (fun e => negb (in_loop e)) t = true -> polled_before_writes go t = true.
Proof.
  revert go. induction t as [|e t IH]; intros go H; [reflexivity|].
  simpl in H. apply andb_true_iff in H. destruct H as [He Ht].
  cbn [polled_before_writes]. rewrite (IH _ Ht), andb_true_r.
  unfold in_loop in He. destruct (is_write e); [|reflexivity].
  rewrite orb_true_r in He. discriminate.
Qed.

Lemma polled_before_writes_app (go : bool) (a b : trace) :
  polled_before_writes go a = true ->
  (forall go', polled_before_writes go' b = true) ->
  polled_before_writes go (a ++ b) = true.
Proof.
  revert go. induction a as [|e a IH]; intros go Ha Hb; [apply Hb|].
  cbn [app polled_before_writes] in *. apply andb_true_iff in Ha.
  destruct Ha as [He Ha]. rewrite He. apply IH; assumption.
Qed.

Section MoreWriteRuns.

Variable ev : list Byte.byte -> option Z -> event.
Variable err : Z -> exn.
Variable w : world.
Variable chunk_size total : Z.
Hypothesis Hev : raw_event ev.

Lemma polls_chunk buf r a b t :
  polls (EvStop false :: ev buf r :: EvProgress a b :: t) = S (polls t).
Proof. destruct Hev as [-> | ->]; reflexivity. Qed.

Lemma polled_chunk go buf r a b t :
  (forall go', polled_before_writes go' t = true) ->
  polled_before_writes go (EvStop false :: ev buf r :: EvProgress a b :: t) = true.
Proof. intros H. destruct Hev as [-> | ->]; cbn; apply H. Qed.

Lemma failed_write_chunk buf k a b t :
  existsb is_failed_write (EvStop false :: ev buf (Some k) :: EvProgress a b :: t)
  = existsb is_failed_write t.
Proof. destruct Hev as [-> | ->]; reflexivity. Qed.

Lemma write_run_polls p i f wt t o :
  write_run ev err w chunk_size total p i f wt t o ->
  (forall go, polled_before_writes go t = true) /\
  (writes t <= polls t <= S (writes t))%nat /\
  (forall v, o = Done v -> polls t = S (writes t)).
Proof.
  induction 1 as [p i f wt Hs|p i f wt Hs Hb|p i f wt code Hs Hb Hw
                 |p i f wt n t o Hs Hb Hw Hrun [IHg [IHc IHd]]].
  - split; [intros go; reflexivity|]. split; [cbn; lia | discriminate].
  - split; [intros go; reflexivity|]. split; [cbn; lia | reflexivity].
  - split; [intros go; destruct Hev as [-> | ->]; reflexivity|].
    split; [destruct Hev as [-> | ->]; cbn; lia | discriminate].
  - split; [intros go; apply polled_chunk; exact IHg|].
    rewrite polls_chunk, (writes_chunk ev Hev).
    split; [lia|]. intros v Hv. rewrite (IHd v Hv). reflexivity.
Qed.

Lemma write_run_cut_short p i f wt t o :
  write_run ev err w chunk_size total p i f wt t o ->
  In (EvStop true) t \/ existsb is_failed_write t = true ->
  exists e, o = Raised e.
Proof.
  induction 1 as [p i f wt Hs|p i f wt Hs Hb|p i f wt code Hs Hb Hw
                 |p i f wt n t o Hs Hb Hw Hrun IH]; intros Hcut.
  - eauto.
  - destruct Hcut as [[H|[]]|H]; discriminate.
  - eauto.
  - apply IH. destruct Hcut as [Hin|Hf].
    + left. destruct Hin as [H|[H|[H|H]]];
        [discriminate | destruct Hev as [-> | ->]; discriminate | discriminate | exact H].
    + right. rewrite failed_write_chunk in Hf. exact Hf.
Qed.

Lemma write_run_failed p i f wt t o :
  write_run ev err w chunk_size total p i f wt t o ->
  existsb is_failed_write t = true ->
  exists t0 buf code,
    t = t0 ++ [ev buf None] /\ o = Raised (err code) /\
    existsb is_failed_write t0 = false.
Proof.
  induction 1 as [p i f wt Hs|p i f wt Hs Hb|p i f wt code Hs Hb Hw
                 |p i f wt n t o Hs Hb Hw Hrun IH]; intros Hf.
  - discriminate.
  - discriminate.
  - exists [EvStop false], (fst (file_read chunk_size f)), code. auto.
  - rewrite failed_write_chunk in Hf.
    destruct (IH Hf) as (t0 & buf & code & -> & -> & H0).
    eexists (_ :: _ :: _ :: t0), buf, code.
    split; [reflexivity|]. split; [reflexivity|].
    rewrite failed_write_chunk. exact H0.
Qed.

Lemma write_run_chunks p i f wt t o :
  0 < chunk_size ->
  write_run ev err w chunk_size total p i f wt t o ->
  Forall (fun buf => 0 < Z.of_nat (List.length buf) <= chunk_size) (write_requests t) /\
  List.concat (write_requests t)
  = firstn (Z.to_nat (Z.of_nat (writes t) * chunk_size)) f.
Proof.
  intros Hc.
  assert (Hread : forall g, fst (file_read chunk_size g) = firstn (Z.to_nat chunk_size) g /\
                            snd (file_read chunk_size g) = skipn (Z.to_nat chunk_size) g).
  { intros g. unfold file_read.
    destruct (chunk_size <? 0) eqn:E; [apply Z.ltb_lt in E; lia | auto]. }
  assert (Hbuf : forall g, fst (file_read chunk_size g) <> [] ->
                           0 < Z.of_nat (List.length (fst (file_read chunk_size g)))
                           <= chunk_size).
  { intros g Hne. destruct (Hread g) as [Hfst _].
    split.
    - destruct (fst (file_read chunk_size g)); [congruence | simpl; lia].
    - rewrite Hfst. pose proof (firstn_le_length (Z.to_nat chunk_size) g). lia. }
  induction 1 as [p i f wt Hs|p i f wt Hs Hb|p i f wt code Hs Hb Hw
                 |p i f wt n t o Hs Hb Hw Hrun [IHb IHc]].
  - split; [constructor | reflexivity].
  - split; [constructor | reflexivity].
  - replace (write_requests [EvStop false; ev (fst (file_read chunk_size f)) None])
      with [fst (file_read chunk_size f)] by (destruct Hev as [-> | ->]; reflexivity).
    replace (writes [EvStop false; ev (fst (file_read chunk_size f)) None])
      with 1%nat by (destruct Hev as [-> | ->]; reflexivity).
    split; [constructor; [apply Hbuf; exact Hb | constructor]|].
    simpl List.concat. rewrite app_nil_r. destruct (Hread f) as [-> _].
    f_equal. lia.
  - rewrite (requests_chunk ev Hev), (writes_chunk ev Hev).
    split; [constructor; [apply Hbuf; exact Hb | exact IHb]|].
    simpl List.concat. rewrite IHc. destruct (Hread f) as [-> ->].
    replace (Z.to_nat (Z.of_nat (S (writes t)) * chunk_size))
      with (Z.to_nat chunk_size + Z.to_nat (Z.of_nat (writes t) * chunk_size))%nat
      by nia.
    symmetry. apply firstn_add.
Qed.

End MoreWriteRuns.

Section MoreFormatRuns.

Variable ev : list Byte.byte -> option Z -> event.
Variable err : Z -> exn.
Variable w : world.
Variable chunk_size size : Z.
Hypothesis Hev : raw_event ev.

Lemma format_run_polls p i wt t o :
  format_run ev err w chunk_size size p i wt t o ->
  (forall go, polled_before_writes go t = true) /\
  (writes t <= polls t <= S (writes t))%nat /\
  (forall v, o = Done v -> polls t = writes t).
Proof.
  induction 1 as [p i wt Hd|p i wt Hlt Hs|p i wt code Hlt Hs Hw
                 |p i wt n t o Hlt Hs Hw Hrun [IHg [IHc IHd]]].
  - split; [intros go; reflexivity|]. split; [cbn; lia | reflexivity].
  - split; [intros go; reflexivity|]. split; [cbn; lia | discriminate].
  - split; [intros go; destruct Hev as [-> | ->]; reflexivity|].
    split; [destruct Hev as [-> | ->]; cbn; lia | discriminate].
  - split; [intros go; apply (polled_chunk ev Hev); exact IHg|].
    rewrite (polls_chunk ev Hev), (writes_chunk ev Hev).
    split; [lia|]. intros v Hv. rewrite (IHd v Hv). reflexivity.
Qed.

Lemma format_run_cut_short p i wt t o :
  format_run ev err w chunk_size size p i wt t o ->
  In (EvStop true) t \/ existsb is_failed_write t = true ->
  exists e, o = Raised e.
Proof.
  induction 1 as [p i wt Hd|p i wt Hlt Hs|p i wt code Hlt Hs Hw
                 |p i wt n t o Hlt Hs Hw Hrun IH]; intros Hcut.
  - destruct Hcut as [[]|H]; discriminate.
  - eauto.
  - eauto.
  - apply IH. destruct Hcut as [Hin|Hf].
    + left. destruct Hin as [H|[H|[H|H]]];
        [discriminate | destruct Hev as [-> | ->]; discriminate | discriminate | exact H].
    + right. rewrite (failed_write_chunk ev Hev) in Hf. exact Hf.
Qed.

Lemma format_run_failed p i wt t o :
  format_run ev err w chunk_size size p i wt t o ->
  existsb is_failed_write t = true ->
  exists t0 buf code,
    t = t0 ++ [ev buf None] /\ o = Raised (err code) /\
    existsb is_failed_write t0 = false.
Proof.
  induction 1 as [p i wt Hd|p i wt Hlt Hs|p i wt code Hlt Hs Hw
                 |p i wt n t o Hlt Hs Hw Hrun IH]; intros Hf.
  - discriminate.
  - discriminate.
  - exists [EvStop false], (zero_chunk chunk_size size wt), code. auto.
  - rewrite (failed_write_chunk ev Hev) in Hf.
    destruct (IH Hf) as (t0 & buf & code & -> & -> & H0).
    eexists (_ :: _ :: _ :: t0), buf, code.
    split; [reflexivity|]. split; [reflexivity|].
    rewrite (failed_write_chunk ev Hev). exact H0.
Qed.

Lemma format_run_chunks p i wt t o :
  0 < chunk_size ->
  format_run ev err w chunk_size size p i wt t o ->
  Forall (fun buf => buf = repeat Byte.x00 (List.length buf) /\
                     0 < Z.of_nat (List.length buf) <= chunk_size)
         (write_requests t).
Proof.
  intros Hc.
  assert (Hbuf : forall wt', wt' < size ->
            zero_chunk chunk_size size wt'
            = repeat Byte.x00 (List.length (zero_chunk chunk_size size wt')) /\
            0 < Z.of_nat (List.length (zero_chunk chunk_size size wt')) <= chunk_size).
  { intros wt' Hlt. split.
    - unfold zero_chunk. rewrite repeat_length. reflexivity.
    - rewrite zero_chunk_length. lia. }
  induction 1 as [p i wt Hd|p i wt Hlt Hs|p i wt code Hlt Hs Hw
                 |p i wt n t o Hlt Hs Hw Hrun IH].
  - constructor.
  - constructor.
  - replace (write_requests [EvStop false; ev (zero_chunk chunk_size size wt) None])
      with [zero_chunk chunk_size size wt] by (destruct Hev as [-> | ->]; reflexivity).
    constructor; [apply Hbuf; exact Hlt | constructor].
  - rewrite (requests_chunk ev Hev).
    constructor; [apply Hbuf; exact Hlt | exact IH].
Qed.

End MoreFormatRuns.

(** ** More on the trace around the loop *)

Lemma quiet_parts (pre post : trace) :
  forallb (fun e => negb (in_loop e)) (pre ++ post) = true ->
  forallb (fun e => negb (in_loop e)) pre = true /\
  forallb (fun e => negb (in_loop e)) post = true.
Proof. rewrite forallb_app. apply andb_true_iff. Qed.

Lemma quiet_no_failed_write (t : trace) :
  forallb (fun e => negb (in_loop e)) t = true -> existsb is_failed_write t = false.
Proof.
  induction t as [|e t IH]; intros H; [reflexivity|].
  simpl in H. apply andb_true_iff in H. destruct H as [He Ht].
  simpl. rewrite (IH Ht), orb_false_r.
  destruct e as [| | | | |? [?|]| | | | |? [?|]| |]; try reflexivity; discriminate.
Qed.

Lemma loop_no_sync (t : trace) :
  forallb in_loop t = true -> existsb is_sync t = false /\ count is_sync t = 0%nat.
Proof.
  induction t as [|e t IH]; intros H; [split; reflexivity|].
  simpl in H. apply andb_true_iff in H. destruct H as [He Ht].
  destruct (IH Ht) as [IH1 IH2]. unfold count in *.
  destruct e; try discriminate; simpl; auto.
Qed.

Lemma around_loop_polls (pre t post : trace) :
  forallb (fun e => negb (in_loop e)) (pre ++ post) = true ->
  polls (pre ++ t ++ post) = polls t /\
  existsb is_failed_write (pre ++ t ++ post) = existsb is_failed_write t /\
  ((forall go, polled_before_writes go t = true) ->
   polled_before_writes false (pre ++ t ++ post) = true).
Proof.
  intros Hq. destruct (quiet_parts _ _ Hq) as [Hpre Hpost].
  destruct (quiet_trace pre Hpre) as (Hp1 & _).
  destruct (quiet_trace post Hpost) as (Hp2 & _).
  split; [rewrite !polls_app; lia|]. split.
  - rewrite !existsb_app, (quiet_no_failed_write pre Hpre),
      (quiet_no_failed_write post Hpost), orb_false_r. reflexivity.
  - intros Hg. apply polled_before_writes_app.
    + apply polled_before_writes_quiet. exact Hpre.
    + intros go. apply polled_before_writes_app; [apply Hg|].
      intros go'. apply polled_before_writes_quiet. exact Hpost.
Qed.

Lemma takes_all_returns (w : world) : takes_all w -> writes_return w.
Proof. intros H i buf. destruct (H i buf) as [n [Hn _]]. eauto. Qed.

Lemma write_run_takes_all ev err w chunk_size total p i f wt t o :
  raw_event ev -> takes_all w ->
  write_run ev err w chunk_size total p i f wt t o -> Forall whole_write t.
Proof.
  intros Hev Hall.
  induction 1 as [p i f wt Hs|p i f wt Hs Hb|p i f wt code Hs Hb Hw
                 |p i f wt n t o Hs Hb Hw Hrun IH].
  - repeat constructor.
  - repeat constructor.
  - destruct (Hall i (fst (file_read chunk_size f))) as [n [Hn _]]. congruence.
  - destruct (Hall i (fst (file_read chunk_size f))) as [n' [Hn Hle]].
    rewrite Hw in Hn. inversion Hn; subst n'.
    constructor; [exact I|]. constructor; [|constructor; [exact I | exact IH]].
    unfold committed. destruct Hev as [-> | ->]; simpl; f_equal; lia.
Qed.

Lemma write_image_succeeds (h : host) (w : world) (chunk_size : Z)
    (image : list Byte.byte) (drive : string) :
  setup_ok h w drive -> finish_ok h w -> never_stops w -> writes_return w ->
  fst (write_image h w chunk_size image drive []) = Done tt.
Proof.
  intros Hsetup Hfinish Hns Hwr.
  destruct (write_image_shaped h w chunk_size image drive)
    as (pre & t & post & _ & _ & _ & _ & [(_ & _ & Hno)|(_ & _ & o & Hrun & _ & Hdone & _)]);
    [contradiction|].
  destruct (write_run_done _ _ _ _ _ _ _ _ _ _ _ Hns Hwr Hrun) as [v ->].
  eapply Hdone; eauto.
Qed.

(** ** What reaches the device *)

(** X8: for a positive chunk size that [read] and the raw write can take,
    one below [2^32], when [write_image] returns normally and every raw
    write took its whole buffer, the device holds the image, byte for byte;
    and it does return normally, with the image on the device, when setup
    and finish succeed, nothing interrupts and the device takes every
    buffer whole. *)
Theorem write_image_copies (h : host) (w : world) (chunk_size : Z)
    (image : list Byte.byte) (drive : string) :
  0 < chunk_size < 2 ^ 32 ->
  let r := write_image h w chunk_size image drive [] in
  (fst r = Done tt -> Forall whole_write (snd r) -> disk (snd r) = image) /\
  (setup_ok h w drive -> finish_ok h w -> never_stops w -> takes_all w ->
   fst r = Done tt /\ disk (snd r) = image).
Proof.
  intros Hrange r. subst r.
  assert (Hc : chunk_size <> 0) by lia.
  pose proof (platform_raw_event h) as Hev.
  assert (Hcopy : fst (write_image h w chunk_size image drive []) = Done tt ->
                  Forall whole_write (snd (write_image h w chunk_size image drive [])) ->
                  disk (snd (write_image h w chunk_size image drive [])) = image).
  { intros Hdone Hwhole.
    destruct (write_image_shaped h w chunk_size image drive)
      as (pre & t & post & HT & Hq & _ & _ & Hcase).
    destruct (around_loop pre t post Hq) as (_ & Hd & _ & _ & _ & Hw & _).
    rewrite HT in Hwhole |- *. rewrite Hd. apply Hw in Hwhole.
    destruct Hcase as [(_ & [e He] & _)|(_ & _ & o & Hrun & _ & _ & Hv)]; [congruence|].
    destruct (Hv Hdone) as [v ->].
    destruct (write_run_requests _ _ _ _ _ Hev _ _ _ _ _ _ Hc Hrun) as (Hreq & _).
    rewrite (whole_writes_disk t Hwhole). exact Hreq. }
  split; [exact Hcopy|].
  intros Hsetup Hfinish Hns Hall.
  assert (Hdone : fst (write_image h w chunk_size image drive []) = Done tt)
    by (apply write_image_succeeds; auto using takes_all_returns).
  split; [exact Hdone|]. apply Hcopy; [exact Hdone|].
  destruct (write_image_shaped h w chunk_size image drive)
    as (pre & t & post & HT & Hq & _ & _ & Hcase).
  destruct (quiet_parts _ _ Hq) as [Hpre Hpost].
  destruct (quiet_trace pre Hpre) as (_ & _ & _ & _ & _ & _ & _ & Hw1 & _).
  destruct (quiet_trace post Hpost) as (_ & _ & _ & _ & _ & _ & _ & Hw2 & _).
  rewrite HT. apply Forall_app. split; [exact Hw1|]. apply Forall_app. split; [|exact Hw2].
  destruct Hcase as [(-> & _)|(_ & _ & o & Hrun & _)]; [constructor|].
  exact (write_run_takes_all _ _ _ _ _ _ _ _ _ _ _ Hev Hall Hrun).
Qed.

Lemma write_image_copies_witness :
  let r := write_image linux_host good_world 2 image5 "A" [] in
  fst r = Done tt /\ Forall whole_write (snd r) /\ disk (snd r) = image5.
Proof.
  intros r.
  assert (Hw : Forall whole_write (snd r)) by (vm_compute; repeat constructor).
  split; [reflexivity|]. split; [exact Hw|].
  assert (Hc : 0 < 2 < 2 ^ 32) by lia.
  destruct (write_image_copies linux_host good_world 2 image5 "A" Hc) as [Hcopy _].
  apply Hcopy; [reflexivity | exact Hw].
Defined.

Example whole_image_in_one_request :
  let r := write_image linux_host good_world (-1) image5 "A" [] in
  fst r = Done tt /\ write_requests (snd r) = [image5] /\ disk (snd r) = image5.
Proof. vm_compute. repeat split; reflexivity. Qed.

(** X9: with a positive chunk size, the buffers [write_image] hands to the
    raw write are the successive chunks of the image, whatever the device
    answers: each is non-empty and of [chunk_size] bytes at most, and the
    [K] requests made are together the first [K * chunk_size] bytes of the
    image.  Those of a [format_zero_fill] that ends are non-empty runs of
    zero bytes, of [chunk_size] bytes at most. *)
Theorem requests_are_chunks (h : host) (w : world) (chunk_size : Z)
    (image : list Byte.byte) (fuel : nat) (size : Z) (drive : string) :
  0 < chunk_size ->
  (let r := write_image h w chunk_size image drive [] in
   Forall (fun buf => 0 < Z.of_nat (List.length buf) <= chunk_size)
          (write_requests (snd r)) /\
   List.concat (write_requests (snd r))
   = firstn (Z.to_nat (Z.of_nat (writes (snd r)) * chunk_size)) image) /\
  (let r := format_zero_fill h w chunk_size fuel size drive [] in
   fst r <> OutOfFuel ->
   Forall (fun buf => buf = repeat Byte.x00 (List.length buf) /\
                      0 < Z.of_nat (List.length buf) <= chunk_size)
          (write_requests (snd r))).
Proof.
  intros Hc. pose proof (platform_raw_event h) as Hev. split.
  - intros r. subst r.
    destruct (write_image_shaped h w chunk_size image drive)
      as (pre & t & post & HT & Hq & _ & _ & Hcase).
    destruct (around_loop pre t post Hq) as (_ & _ & Hrq & Hw & _).
    rewrite HT, Hrq, Hw.
    destruct Hcase as [(-> & _)|(_ & _ & o & Hrun & _)].
    + split; [constructor | reflexivity].
    + exact (write_run_chunks _ _ _ _ _ Hev _ _ _ _ _ _ Hc Hrun).
  - intros r Hfuel. subst r.
    destruct (format_zero_fill_shaped h w chunk_size fuel size drive Hfuel)
      as (pre & t & post & HT & Hq & _ & _ & Hcase).
    destruct (around_loop pre t post Hq) as (_ & _ & Hrq & _).
    rewrite HT, Hrq.
    destruct Hcase as [(-> & _)|(_ & _ & o & Hrun & _)].
    + constructor.
    + exact (format_run_chunks _ _ _ _ _ Hev _ _ _ _ _ Hc Hrun).
Qed.

Lemma requests_are_chunks_witness :
  let r := write_image linux_host short_world 2 image5 "A" [] in
  Forall (fun buf => 0 < Z.of_nat (List.length buf) <= 2) (write_requests (snd r)) /\
  List.concat (write_requests (snd r))
  = firstn (Z.to_nat (Z.of_nat (writes (snd r)) * 2)) image5.
Proof.
  apply (requests_are_chunks linux_host short_world 2 image5 0 0 "A"). lia.
Defined.

(** X10: [stop_cb] is polled right before every raw write, and a write is
    made only when it answered false; so the polls number the writes or one
    more.  A [write_image] that returns normally polled once more than it
    wrote, its last poll being the one that met the end of the image; a
    [format_zero_fill] that returns normally polled as often as it wrote. *)
Theorem stop_polled_before_every_write (h : host) (w : world) (chunk_size : Z)
    (image : list Byte.byte) (fuel : nat) (size : Z) (drive : string) :
  (let r := write_image h w chunk_size image drive [] in
   polled_before_writes false (snd r) = true /\
   (writes (snd r) <= polls (snd r) <= S (writes (snd r)))%nat /\
   (fst r = Done tt -> polls (snd r) = S (writes (snd r)))) /\
  (let r := format_zero_fill h w chunk_size fuel size drive [] in
   fst r <> OutOfFuel ->
   polled_before_writes false (snd r) = true /\
   (writes (snd r) <= polls (snd r) <= S (writes (snd r)))%nat /\
   (fst r = Done tt -> polls (snd r) = writes (snd r))).
Proof.
  pose proof (platform_raw_event h) as Hev. split.
  - intros r. subst r.
    destruct (write_image_shaped h w chunk_size image drive)
      as (pre & t & post & HT & Hq & _ & _ & Hcase).
    destruct (around_loop pre t post Hq) as (_ & _ & _ & Hw & _).
    destruct (around_loop_polls pre t post Hq) as (Hp & _ & Hg).
    rewrite HT, Hw, Hp.
    destruct Hcase as [(-> & [e He] & _)|(_ & _ & o & Hrun & _ & _ & Hv)].
    + split; [apply Hg; reflexivity|]. split; [cbn; lia | congruence].
    + destruct (write_run_polls _ _ _ _ _ Hev _ _ _ _ _ _ Hrun) as (H1 & H2 & H3).
      split; [apply Hg; exact H1|]. split; [exact H2|].
      intros Hdone. destruct (Hv Hdone) as [v ->]. exact (H3 v eq_refl).
  - intros r Hfuel. subst r.
    destruct (format_zero_fill_shaped h w chunk_size fuel size drive Hfuel)
      as (pre & t & post & HT & Hq & _ & _ & Hcase).
    destruct (around_loop pre t post Hq) as (_ & _ & _ & Hw & _).
    destruct (around_loop_polls pre t post Hq) as (Hp & _ & Hg).
    rewrite HT, Hw, Hp.
    destruct Hcase as [(-> & [e He] & _)|(_ & _ & o & Hrun & _ & _ & Hv)].
    + split; [apply Hg; reflexivity|]. split; [cbn; lia | congruence].
    + destruct (format_run_polls _ _ _ _ _ Hev _ _ _ _ _ Hrun) as (H1 & H2 & H3).
      split; [apply Hg; exact H1|]. split; [exact H2|].
      intros Hdone. destruct (Hv Hdone) as [v ->]. exact (H3 v eq_refl).
Qed.

Lemma stop_polled_before_every_write_witness :
  let r := format_zero_fill linux_host good_world 2 5 5 "A" [] in
  fst r = Done tt /\
  polled_before_writes false (snd r) = true /\
  polls (snd r) = 3%nat /\ writes (snd r) = 3%nat.
Proof.
  intros r.
  assert (Hfuel : fst r <> OutOfFuel) by (vm_compute; discriminate).
  destruct (stop_polled_before_every_write linux_host good_world 2 image5 5 5 "A")
    as [_ Hf].
  destruct (Hf Hfuel) as (Hg & _ & Hp).
  split; [reflexivity|]. split; [exact Hg|].
  split; [exact (eq_trans (Hp eq_refl) eq_refl) | reflexivity].
Defined.

(** ** Syncing the device *)

Lemma count_one_split (p : event -> bool) (l : trace) :
  count p l = 1%nat ->
  exists l1 x l2, l = l1 ++ x :: l2 /\ p x = true.
Proof.
  unfold count. induction l as [|e l IH]; intros H; [discriminate|].
  simpl in H. destruct (p e) eqn:E.
  - exists [], e, l. auto.
  - destruct (IH H) as (l1 & x & l2 & -> & Hx). exists (e :: l1), x, l2. auto.
Qed.

Lemma existsb_count_zero (p : event -> bool) (l : trace) :
  existsb p l = false -> count p l = 0%nat.
Proof.
  unfold count. induction l as [|e l IH]; intros H; [reflexivity|].
  simpl in H. apply orb_false_iff in H. destruct H as [He Hl].
  simpl. rewrite He. apply IH. exact Hl.
Qed.

(** X11: an operation that was cancelled, or one of whose raw writes
    failed, never flushes nor syncs the device, and does not return
    normally. *)
Theorem never_synced_when_cut_short (h : host) (w : world) (chunk_size : Z)
    (image : list Byte.byte) (fuel : nat) (size : Z) (drive : string) :
  (let r := write_image h w chunk_size image drive [] in
   In (EvStop true) (snd r) \/ existsb is_failed_write (snd r) = true ->
   existsb is_sync (snd r) = false /\ fst r <> Done tt) /\
  (let r := format_zero_fill h w chunk_size fuel size drive [] in
   fst r <> OutOfFuel ->
   In (EvStop true) (snd r) \/ existsb is_failed_write (snd r) = true ->
   existsb is_sync (snd r) = false /\ fst r <> Done tt).
Proof.
  pose proof (platform_raw_event h) as Hev. split.
  - intros r Hcut. subst r.
    destruct (write_image_settled h w chunk_size image drive)
      as (_ & pre & t & post & HT & Hq & Hpre & Hcase).
    destruct (around_loop pre t post Hq) as (_ & _ & _ & _ & _ & _ & Hstop & _).
    destruct (around_loop_polls pre t post Hq) as (_ & Hfail & _).
    rewrite HT in Hcut |- *. rewrite Hfail in Hcut.
    rewrite !existsb_app, Hpre.
    destruct Hcase as [(-> & Hpost & Hnd)|(o & Hrun & Hsync & Hv)].
    + rewrite Hpost. auto.
    + assert (Hcut' : In (EvStop true) t \/ existsb is_failed_write t = true)
        by (destruct Hcut; auto).
      destruct (write_run_cut_short _ _ _ _ _ Hev _ _ _ _ _ _ Hrun Hcut') as [e ->].
      destruct (loop_no_sync t (write_run_in_loop _ _ _ _ _ Hev _ _ _ _ _ _ Hrun))
        as [Hloop _].
      cbn [sync_after] in Hsync. apply negb_true_iff in Hsync.
      rewrite Hloop, Hsync. split; [reflexivity|].
      intros Hd. destruct (Hv Hd) as [v Habs]. discriminate.
  - intros r Hfuel Hcut. subst r.
    destruct (format_zero_fill_settled h w chunk_size fuel size drive Hfuel)
      as (_ & pre & t & post & HT & Hq & Hpre & Hcase).
    destruct (around_loop pre t post Hq) as (_ & _ & _ & _ & _ & _ & Hstop & _).
    destruct (around_loop_polls pre t post Hq) as (_ & Hfail & _).
    rewrite HT in Hcut |- *. rewrite Hfail in Hcut.
    rewrite !existsb_app, Hpre.
    destruct Hcase as [(-> & Hpost & Hnd)|(o & Hrun & Hsync & Hv)].
    + rewrite Hpost. auto.
    + assert (Hcut' : In (EvStop true) t \/ existsb is_failed_write t = true)
        by (destruct Hcut; auto).
      destruct (format_run_cut_short _ _ _ _ _ Hev _ _ _ _ _ Hrun Hcut') as [e ->].
      destruct (loop_no_sync t (format_run_in_loop _ _ _ _ _ Hev _ _ _ _ _ Hrun))
        as [Hloop _].
      cbn [sync_after] in Hsync. apply negb_true_iff in Hsync.
      rewrite Hloop, Hsync. split; [reflexivity|].
      intros Hd. destruct (Hv Hd) as [v Habs]. discriminate.
Qed.

Lemma never_synced_when_cut_short_witness :
  let r := write_image linux_host (stop_from 1) 2 image5 "A" [] in
  In (EvStop true) (snd r) /\ existsb is_sync (snd r) = false /\ fst r <> Done tt.
Proof.
  intros r.
  assert (Hin : In (EvStop true) (snd r)) by (vm_compute; auto 10).
  split; [exact Hin|].
  apply (never_synced_when_cut_short linux_host (stop_from 1) 2 image5 0 0 "A").
  left. exact Hin.
Defined.

(** X12: an operation that returns normally has flushed or synced the
    device exactly once, after its last raw write and its last poll of
    [stop_cb]; none of its writes failed and [stop_cb] never answered
    true. *)
Theorem synced_once_on_success (h : host) (w : world) (chunk_size : Z)
    (image : list Byte.byte) (fuel : nat) (size : Z) (drive : string) :
  let ended (r : outcome unit * trace) :=
    count is_sync (snd r) = 1%nat /\
    (exists t1 s t2,
       snd r = t1 ++ s :: t2 /\ is_sync s = true /\
       writes t2 = 0%nat /\ polls t2 = 0%nat) /\
    existsb is_failed_write (snd r) = false /\
    ~ In (EvStop true) (snd r) in
  (let r := write_image h w chunk_size image drive [] in
   fst r = Done tt -> ended r) /\
  (let r := format_zero_fill h w chunk_size fuel size drive [] in
   fst r = Done tt -> ended r).
Proof.
  pose proof (platform_raw_event h) as Hev.
  assert (Hend : forall (run : trace -> outcome Z -> Prop) r,
            (forall t o, run t o -> forallb in_loop t = true) ->
            (forall t o, run t o ->
               In (EvStop true) t \/ existsb is_failed_write t = true ->
               exists e, o = Raised e) ->
            settled h drive run r -> fst r = Done tt ->
            count is_sync (snd r) = 1%nat /\
            (exists t1 s t2,
               snd r = t1 ++ s :: t2 /\ is_sync s = true /\
               writes t2 = 0%nat /\ polls t2 = 0%nat) /\
            existsb is_failed_write (snd r) = false /\
            ~ In (EvStop true) (snd r)).
  { intros run r Hloop Hcut (_ & pre & t & post & HT & Hq & Hpre & Hcase) Hdone.
    destruct Hcase as [(_ & _ & Hnd)|(o & Hrun & Hsync & Hv)]; [contradiction|].
    destruct (Hv Hdone) as [v ->]. cbn [sync_after] in Hsync.
    apply Nat.eqb_eq in Hsync.
    destruct (loop_no_sync t (Hloop _ _ Hrun)) as [_ Hc0].
    destruct (around_loop pre t post Hq) as (_ & _ & _ & _ & _ & _ & Hstop & _).
    destruct (around_loop_polls pre t post Hq) as (_ & Hfail & _).
    destruct (quiet_parts _ _ Hq) as [_ Hpost].
    rewrite HT. split; [|split; [|split]].
    - rewrite !count_app, (existsb_count_zero _ _ Hpre), Hc0, Hsync. reflexivity.
    - destruct (count_one_split _ _ Hsync) as (p1 & s & p2 & -> & Hs).
      exists (pre ++ t ++ p1), s, p2.
      split; [rewrite <- !app_assoc; reflexivity|]. split; [exact Hs|].
      rewrite forallb_app in Hpost. apply andb_true_iff in Hpost.
      destruct Hpost as [_ Hp2]. simpl in Hp2. apply andb_true_iff in Hp2.
      destruct Hp2 as [_ Hp2].
      destruct (quiet_trace p2 Hp2) as (Hpolls & Hwrites & _). auto.
    - rewrite Hfail. destruct (existsb is_failed_write t) eqn:E; [|reflexivity].
      destruct (Hcut _ _ Hrun (or_intror E)) as [e He]. discriminate.
    - intros Hin. apply Hstop in Hin.
      destruct (Hcut _ _ Hrun (or_introl Hin)) as [e He]. discriminate. }
  intros ended. subst ended. split.
  - intros r Hdone. subst r.
    apply (Hend _ _ (fun t o => write_run_in_loop _ _ _ _ _ Hev _ _ _ _ t o)
                (fun t o => write_run_cut_short _ _ _ _ _ Hev _ _ _ _ t o)
                (write_image_settled h w chunk_size image drive) Hdone).
  - intros r Hdone. subst r.
    assert (Hfuel : fst (format_zero_fill h w chunk_size fuel size drive []) <> OutOfFuel)
      by (rewrite Hdone; discriminate).
    apply (Hend _ _ (fun t o => format_run_in_loop _ _ _ _ _ Hev _ _ _ t o)
                (fun t o => format_run_cut_short _ _ _ _ _ Hev _ _ _ t o)
                (format_zero_fill_settled h w chunk_size fuel size drive Hfuel) Hdone).
Qed.

Lemma synced_once_on_success_witness :
  let r := write_image windows_host good_world 2 image5 "A" [] in
  fst r = Done tt /\
  count is_sync (snd r) = 1%nat /\
  (exists t1 s t2,
     snd r = t1 ++ s :: t2 /\ is_sync s = true /\
     writes t2 = 0%nat /\ polls t2 = 0%nat) /\
  existsb is_failed_write (snd r) = false /\
  ~ In (EvStop true) (snd r).
Proof.
  split; [reflexivity|].
  apply (synced_once_on_success windows_host good_world 2 image5 0 0 "A").
  reflexivity.
Defined.

(** ** Failures *)

(** X13: for a chunk size that [read] and the raw write can take, from
    [-1] to below [2^32], and callbacks that raise nothing themselves, an
    exception that leaves [write_image] or [format_zero_fill] is the one the
    device resolution raised, the user-interrupted error, or the [OSError]
    of a system call; the failure of the unmount command never comes out. *)
Theorem raises_only (h : host) (w : world) (chunk_size : Z)
    (image : list Byte.byte) (fuel : nat) (size : Z) (drive : string) (e : exn) :
  -1 <= chunk_size < 2 ^ 32 ->
  (fst (write_image h w chunk_size image drive []) = Raised e ->
   raised_by h drive e) /\
  (fst (format_zero_fill h w chunk_size fuel size drive []) = Raised e ->
   raised_by h drive e).
Proof.
  intros _. split.
  - intros He.
    destruct (write_image_settled h w chunk_size image drive) as [Hraise _].
    exact (Hraise e He).
  - intros He.
    assert (Hfuel : fst (format_zero_fill h w chunk_size fuel size drive []) <> OutOfFuel)
      by (rewrite He; discriminate).
    destruct (format_zero_fill_settled h w chunk_size fuel size drive Hfuel)
      as [Hraise _].
    exact (Hraise e He).
Qed.

Lemma raises_only_witness :
  fst (write_image linux_host (stop_from 1) 2 image5 "A" []) = Raised interrupted /\
  raised_by linux_host "A" interrupted.
Proof.
  split; [reflexivity|].
  assert (Hc : -1 <= 2 < 2 ^ 32) by lia.
  destruct (raises_only linux_host (stop_from 1) 2 image5 0 0 "A" interrupted Hc)
    as [Hwrite _].
  apply Hwrite. reflexivity.
Defined.

Lemma last_event_split (t0 : trace) (e : event) (post : trace) (pre : trace) :
  pre ++ (t0 ++ [e]) ++ post = (pre ++ t0) ++ e :: post.
Proof. rewrite <- !app_assoc. reflexivity. Qed.

(** X14: a raw write that fails is the last thing the loop does: nothing is
    written and [stop_cb] is not polled after it, no other write failed,
    the device is released, once, as the last thing the operation does, and
    the operation raises the error of that write (on Unix, unless
    [os.close] itself fails). *)
Theorem failed_write_ends_transfer (h : host) (w : world) (chunk_size : Z)
    (image : list Byte.byte) (fuel : nat) (size : Z) (drive : string) :
  let ended (r : outcome unit * trace) :=
    (exists t1 buf t2,
       snd r = t1 ++ platform_event h buf None :: t2 /\
       existsb is_failed_write t1 = false /\
       writes t2 = 0%nat /\ polls t2 = 0%nat) /\
    (close_ok h w -> exists code, fst r = Raised (platform_error h code)) /\
    count is_close (snd r) = 1%nat /\
    ends_with_release (is_windows h) (snd r) = true in
  (let r := write_image h w chunk_size image drive [] in
   existsb is_failed_write (snd r) = true -> ended r) /\
  (let r := format_zero_fill h w chunk_size fuel size drive [] in
   fst r <> OutOfFuel ->
   existsb is_failed_write (snd r) = true -> ended r).
Proof.
  pose proof (platform_raw_event h) as Hev.
  assert (Hend : forall (run : trace -> outcome Z -> Prop) r,
            (forall t o, run t o -> forallb in_loop t = true) ->
            (forall t o, run t o -> existsb is_failed_write t = true ->
               exists t0 buf code,
                 t = t0 ++ [platform_event h buf None] /\
                 o = Raised (platform_error h code) /\
                 existsb is_failed_write t0 = false) ->
            shaped h w drive run r ->
            existsb is_failed_write (snd r) = true ->
            (exists t1 buf t2,
               snd r = t1 ++ platform_event h buf None :: t2 /\
               existsb is_failed_write t1 = false /\
               writes t2 = 0%nat /\ polls t2 = 0%nat) /\
            (close_ok h w -> exists code, fst r = Raised (platform_error h code)) /\
            count is_close (snd r) = 1%nat /\
            ends_with_release (is_windows h) (snd r) = true).
  { intros run r Hloop Hfailed Hsh Hf.
    assert (Hwr : writes (snd r) <> 0%nat).
    { destruct Hsh as (pre & t & post & HT & Hq & _).
      destruct (around_loop pre t post Hq) as (_ & _ & _ & Hw & _).
      destruct (around_loop_polls pre t post Hq) as (_ & Hfail & _).
      rewrite HT in Hf |- *. rewrite Hfail in Hf. rewrite Hw.
      clear - Hf. induction t as [|e t IH]; [discriminate|].
      simpl in Hf. unfold writes in *. simpl.
      destruct e as [| | | | |? [?|]| | | | |? [?|]| |]; simpl in *;
        try discriminate; auto. }
    assert (Hrel := shaped_released _ _ _ _ _ Hloop Hsh (or_introl Hwr)).
    destruct Hsh as (pre & t & post & HT & Hq & _ & _ & Hcase).
    destruct (around_loop_polls pre t post Hq) as (_ & Hfail & _).
    destruct (quiet_parts _ _ Hq) as [Hpre Hpost].
    rewrite HT in Hf. rewrite Hfail in Hf.
    destruct Hcase as [(-> & _)|(_ & _ & o & Hrun & Hraise & _)]; [discriminate|].
    destruct (Hfailed _ _ Hrun Hf) as (t0 & buf & code & -> & -> & H0).
    split; [|split; [|exact Hrel]].
    - exists (pre ++ t0), buf, post. split; [rewrite HT; apply last_event_split|].
      split; [rewrite existsb_app, (quiet_no_failed_write pre Hpre), H0; reflexivity|].
      destruct (quiet_trace post Hpost) as (Hp & Hw & _). auto.
    - intros Hclose. exists code. eapply Hraise; eauto. }
  intros ended. subst ended. split.
  - intros r Hf. subst r.
    apply (Hend _ _ (fun t o => write_run_in_loop _ _ _ _ _ Hev _ _ _ _ t o)
                (fun t o => write_run_failed _ _ _ _ _ Hev _ _ _ _ t o)
                (write_image_shaped h w chunk_size image drive) Hf).
  - intros r Hfuel Hf. subst r.
    apply (Hend _ _ (fun t o => format_run_in_loop _ _ _ _ _ Hev _ _ _ t o)
                (fun t o => format_run_failed _ _ _ _ _ Hev _ _ _ t o)
                (format_zero_fill_shaped h w chunk_size fuel size drive Hfuel) Hf).
Qed.

Lemma failed_write_ends_transfer_witness :
  let w := world_with (fun _ => false)
             (fun k buf => match k with
                           | O => Wrote (Z.of_nat (List.length buf))
                           | S _ => WriteFailed 5
                           end) in
  let r := write_image linux_host w 2 image5 "A" [] in
  existsb is_failed_write (snd r) = true /\
  (exists t1 buf t2,
     snd r = t1 ++ platform_event linux_host buf None :: t2 /\
     existsb is_failed_write t1 = false /\
     writes t2 = 0%nat /\ polls t2 = 0%nat) /\
  (close_ok linux_host w ->
   exists code, fst r = Raised (platform_error linux_host code)) /\
  count is_close (snd r) = 1%nat /\
  ends_with_release (is_windows linux_host) (snd r) = true.
Proof.
  intros w r. split; [reflexivity|].
  apply (failed_write_ends_transfer linux_host w 2 image5 0 0 "A").
  reflexivity.
Defined.

Example failed_write_keeps_first_chunk :
  let w := world_with (fun _ => false)
             (fun k buf => match k with
                           | O => Wrote (Z.of_nat (List.length buf))
                           | S _ => WriteFailed 5
                           end) in
  let r := write_image linux_host w 2 image5 "A" [] in
  fst r = Raised (OSError 5 "") /\ disk (snd r) = [Byte.x01; Byte.x02].
Proof. vm_compute. split; reflexivity. Qed.

(** ** Degenerate chunk sizes and sizes *)

Lemma write_run_zero_chunk ev err w total p i f wt t o :
  write_run ev err w 0 total p i f wt t o ->
  (t = [EvStop true] /\ stop_cb w p = true) \/
  (t = [EvStop false] /\ o = Done wt /\ stop_cb w p = false).
Proof.
  assert (Hread : forall g, fst (file_read 0 g) = []) by reflexivity.
  intros H. inversion H; subst; auto; rewrite Hread in *; congruence.
Qed.

(** X15: with a chunk size of zero [write_image] writes nothing: the first
    read returns no byte, which the loop takes for the end of the image.
    It then returns normally, whatever the image, when setup and finish
    succeed and the first poll of [stop_cb] answers false. *)
Theorem write_image_zero_chunk (h : host) (w : world)
    (image : list Byte.byte) (drive : string) :
  let r := write_image h w 0 image drive [] in
  writes (snd r) = 0%nat /\ disk (snd r) = [] /\ progress_calls (snd r) = [] /\
  (setup_ok h w drive -> finish_ok h w -> stop_cb w 0 = false -> fst r = Done tt).
Proof.
  intros r. subst r.
  destruct (write_image_shaped h w 0 image drive)
    as (pre & t & post & HT & Hq & _ & _ & Hcase).
  destruct (around_loop pre t post Hq) as (Hpc & Hd & _ & Hw & _).
  rewrite HT, Hw, Hd, Hpc.
  destruct Hcase as [(-> & _ & Hno)|(_ & _ & o & Hrun & _ & Hdone & _)].
  - repeat split; try reflexivity. intros Hs. contradiction.
  - destruct (write_run_zero_chunk _ _ _ _ _ _ _ _ _ _ Hrun)
      as [[-> Hs]|(-> & -> & Hs)].
    + repeat split; try reflexivity. intros _ _ Hgo. congruence.
    + repeat split; try reflexivity. intros _ Hf _. eapply Hdone; eauto.
Qed.

Lemma write_image_zero_chunk_witness :
  let r := write_image linux_host good_world 0 image5 "A" [] in
  writes (snd r) = 0%nat /\ disk (snd r) = [] /\ progress_calls (snd r) = [] /\
  fst r = Done tt.
Proof.
  destruct (write_image_zero_chunk linux_host good_world image5 "A")
    as (Hw & Hd & Hp & Hdone).
  split; [exact Hw|]. split; [exact Hd|]. split; [exact Hp|].
  apply Hdone.
  - split; [eexists; reflexivity | reflexivity].
  - split; reflexivity.
  - reflexivity.
Defined.

Lemma format_loop_stuck ev err w chunk_size size :
  chunk_size <= 0 -> never_stops w -> writes_return w ->
  forall fuel wt t0,
    wt < size ->
    fst (format_loop (raw_call ev err w) w chunk_size fuel size wt t0) = OutOfFuel.
Proof.
  intros Hc Hns Hwr. induction fuel as [|fuel IH]; intros wt t0 Hlt.
  - cbn [format_loop]. apply Z.ltb_lt in Hlt. rewrite Hlt. reflexivity.
  - cbn [format_loop]. pose proof Hlt as Hlt'. apply Z.ltb_lt in Hlt'. rewrite Hlt'.
    unfold bind at 1, call_stop_cb. rewrite Hns.
    replace (Z.to_nat (Z.min chunk_size (size - wt))) with 0%nat by lia.
    cbn [repeat]. unfold bind at 1, raw_call.
    destruct (Hwr (writes (t0 ++ [EvStop false])) []) as [n Hn]. rewrite Hn.
    assert (Hk : committed n [] = 0) by (unfold committed; simpl; lia).
    rewrite Hk. unfold bind at 1, call_progress_cb, emit.
    apply IH. lia.
Qed.

(** X16: with a chunk size of zero or less and something to write,
    [format_zero_fill] never ends on a device that accepts empty writes:
    every buffer it builds is empty, so [written_total] never grows.  No
    number of iterations lets it return. *)
Theorem format_never_ends (h : host) (w : world) (chunk_size : Z) (fuel : nat)
    (size : Z) (drive : string) :
  chunk_size <= 0 -> 0 < size ->
  setup_ok h w drive -> never_stops w -> writes_return w ->
  fst (format_zero_fill h w chunk_size fuel size drive []) = OutOfFuel.
Proof.
  intros Hc Hsize [[device Hres] Hsetup] Hns Hwr.
  remember (format_zero_fill h w chunk_size fuel size drive []) as r eqn:Hr.
  unfold format_zero_fill in Hr. unfold bind at 1, lift in Hr. rewrite Hres in Hr.
  unfold ret in Hr. cbv beta iota in Hr.
  destruct (platform_tests h) as [[Hwin Hp]|[Hwin Hp]].
  - fold (is_windows h) in Hr. rewrite Hwin in *.
    destruct Hsetup as (Hcreate & Hlock & Hdismount).
    unfold_operation Hr. rewrite Hwin, Hcreate, Hlock, Hdismount in Hr.
    cbv beta iota delta [negb] in Hr.
    destruct (has_log_cb w); cbv beta iota in Hr;
      match type of Hr with
      | context [format_loop ?prim ?w ?c ?f ?s ?wt ?t0] =>
          let Ho := fresh "Ho" in
          assert (Ho : fst (format_loop prim w c f s wt t0) = OutOfFuel)
            by (apply format_loop_stuck; assumption);
          destruct (format_loop prim w c f s wt t0) as [o t1];
          cbn [fst] in Ho; subst o
      end; subst r; reflexivity.
  - fold (is_windows h) in Hr. rewrite Hwin in *.
    unfold_operation Hr. rewrite Hsetup in Hr.
    destruct Hp as [Hp|Hp]; rewrite Hp in Hr;
      [ change (String.eqb "linux" "linux") with true in Hr
      | change (String.eqb "macos" "linux") with false in Hr;
        change (String.eqb "macos" "macos") with true in Hr ];
      cbv beta iota in Hr.
    all: destruct (has_log_cb w); destruct (subprocess_run w); cbv beta iota in Hr;
      match type of Hr with
      | context [format_loop ?prim ?w ?c ?f ?s ?wt ?t0] =>
          let Ho := fresh "Ho" in
          assert (Ho : fst (format_loop prim w c f s wt t0) = OutOfFuel)
            by (apply format_loop_stuck; assumption);
          destruct (format_loop prim w c f s wt t0) as [o t1];
          cbn [fst] in Ho; subst o
      end; subst r; reflexivity.
Qed.

Lemma format_never_ends_witness :
  fst (format_zero_fill linux_host good_world 0 1000 1474560 "A" []) = OutOfFuel.
Proof.
  apply (format_never_ends linux_host good_world 0 1000 1474560 "A"); try lia.
  - split; [eexists; reflexivity | reflexivity].
  - intros p. reflexivity.
  - intros i buf. eexists. reflexivity.
Defined.

(** X17: asked for nothing, [format_zero_fill] does not enter its loop: it
    neither polls [stop_cb] nor writes, whatever the chunk size, and returns
    normally when setup and finish succeed, even if the user has asked to
    stop.  The device is opened, and on Windows locked and dismounted, all
    the same. *)
Theorem format_nothing_to_do (h : host) (w : world) (chunk_size : Z) (fuel : nat)
    (size : Z) (drive : string) :
  size <= 0 ->
  let r := format_zero_fill h w chunk_size fuel size drive [] in
  polls (snd r) = 0%nat /\ writes (snd r) = 0%nat /\ progress_calls (snd r) = [] /\
  (setup_ok h w drive -> finish_ok h w ->
   fst r = Done tt /\ existsb is_opened (snd r) = true /\
   acquired (is_windows h) (snd r) = true).
Proof.
  intros Hsize r. subst r.
  pose proof (platform_raw_event h) as Hev.
  assert (Hfuel : fst (format_zero_fill h w chunk_size fuel size drive []) <> OutOfFuel).
  { apply format_zero_fill_returns. intros t0.
    destruct fuel; cbn [format_loop];
      (destruct (0 <? size) eqn:E; [apply Z.ltb_lt in E; lia | discriminate]). }
  destruct (format_zero_fill_shaped h w chunk_size fuel size drive Hfuel)
    as (pre & t & post & HT & Hq & _ & _ & Hcase).
  destruct (around_loop pre t post Hq) as (Hpc & _ & _ & Hw & _).
  destruct (around_loop_polls pre t post Hq) as (Hp & _).
  rewrite HT, Hw, Hp, Hpc.
  destruct Hcase as [(-> & _ & Hno)|(Hacq & Hopen & o & Hrun & _ & Hdone & _)].
  - repeat split; try reflexivity; contradiction.
  - destruct (format_run_at_end _ _ _ _ _ _ _ _ _ _ Hrun Hsize) as [-> ->].
    repeat split; try reflexivity.
    + eapply Hdone; eauto.
    + rewrite existsb_app, Hopen. reflexivity.
    + apply acquired_app. exact Hacq.
Qed.

Lemma format_nothing_to_do_witness :
  let r := format_zero_fill windows_host (stop_from 0) 512 0 0 "A" [] in
  polls (snd r) = 0%nat /\ writes (snd r) = 0%nat /\ progress_calls (snd r) = [] /\
  fst r = Done tt /\ existsb is_opened (snd r) = true /\
  acquired (is_windows windows_host) (snd r) = true.
Proof.
  assert (Hs : 0 <= 0) by lia.
  destruct (format_nothing_to_do windows_host (stop_from 0) 512 0 0 "A" Hs)
    as (Hp & Hw & Hc & Hdone).
  split; [exact Hp|]. split; [exact Hw|]. split; [exact Hc|].
  apply Hdone.
  - split; [eexists; reflexivity | repeat split; reflexivity].
  - left. reflexivity.
Defined.

(** ** The workers of the user interface *)

Lemma format_zero_fill_succeeds (h : host) (w : world) (chunk_size : Z) (fuel : nat)
    (size : Z) (drive : string) :
  0 <= size -> 0 < chunk_size ->
  setup_ok h w drive -> finish_ok h w -> never_stops w -> makes_progress w ->
  size <= Z.of_nat fuel ->
  let r := format_zero_fill h w chunk_size fuel size drive [] in
  fst r = Done tt /\ disk (snd r) = repeat Byte.x00 (Z.to_nat size).
Proof.
  intros Hsize Hc Hsetup Hfinish Hns Hmp Hfuel r. subst r.
  pose proof (platform_raw_event h) as Hev.
  assert (Hret : fst (format_zero_fill h w chunk_size fuel size drive []) <> OutOfFuel).
  { apply format_zero_fill_returns. intros t0.
    apply format_loop_terminates; auto. lia. }
  destruct (format_zero_fill_shaped h w chunk_size fuel size drive Hret)
    as (pre & t & post & HT & Hq & _ & _ & Hcase).
  destruct (around_loop pre t post Hq) as (_ & Hd & _).
  rewrite HT, Hd.
  destruct Hcase as [(_ & _ & Hno)|(_ & _ & o & Hrun & _ & Hdone & _)]; [contradiction|].
  destruct (format_run_done _ _ _ _ _ _ _ _ _ _ Hc Hns Hmp Hrun) as [v ->].
  split; [eapply Hdone; eauto|].
  destruct (format_run_bytes _ _ _ _ _ Hev _ _ _ _ _ Hrun Hsize)
    as (Hz & _ & _ & _ & _ & Hv).
  destruct (Hv v eq_refl) as (_ & Hlen & _).
  rewrite Hz. f_equal. lia.
Qed.

(** X18: the size the interface asks to wipe is always positive: 720 KB or
    1.44 MB as selected, and otherwise the size of the selected image when
    there is one that is not empty, 1.44 MB when there is none.  With it the
    format worker, on a device that can be set up and released, takes at
    least a byte of every write and is not interrupted, reports success
    with exactly that many zero bytes on the device. *)
Theorem format_worker_wipes (h : host) (w : world) (opt : string)
    (image_size : option Z) (drive : string) (fuel : nat) :
  let size := _resolve_format_size opt image_size in
  0 < size /\
  (size = FLOPPY_720K \/ size = FLOPPY_1440K \/ image_size = Some size) /\
  (image_size = None -> size = FLOPPY_720K \/ size = FLOPPY_1440K) /\
  (setup_ok h w drive -> finish_ok h w -> never_stops w -> makes_progress w ->
   size <= Z.of_nat fuel ->
   exists t,
     _format_worker h w fuel drive size
     = (Some (FinishOk "Format completed successfully."), t) /\
     disk t = repeat Byte.x00 (Z.to_nat size)).
Proof.
  intros size.
  assert (Hpos : 0 < size /\
                 (size = FLOPPY_720K \/ size = FLOPPY_1440K \/ image_size = Some size) /\
                 (image_size = None -> size = FLOPPY_720K \/ size = FLOPPY_1440K)).
  { subst size. unfold _resolve_format_size.
    destruct (String.eqb (strip opt) "720KB");
      [unfold FLOPPY_720K; split; [lia | auto]|].
    destruct (String.eqb (strip opt) "1.44MB");
      [unfold FLOPPY_1440K; split; [lia | auto]|].
    destruct image_size as [s|]; [|unfold FLOPPY_1440K; split; [lia | auto]].
    destruct (s >? 0) eqn:E.
    - pose proof (Zgt_cases s 0) as Hs. rewrite E in Hs.
      split; [lia|]. split; [auto | discriminate].
    - unfold FLOPPY_1440K. split; [lia|]. split; [auto | discriminate]. }
  destruct Hpos as (Hpos & Hwhich & Hnone).
  split; [exact Hpos|]. split; [exact Hwhich|]. split; [exact Hnone|].
  intros Hsetup Hfinish Hns Hmp Hfuel.
  assert (Hc : 0 < app_chunk_size) by (unfold app_chunk_size; lia).
  destruct (format_zero_fill_succeeds h (with_log w) app_chunk_size fuel size drive
              ltac:(lia) Hc Hsetup Hfinish Hns Hmp Hfuel) as [Hdone Hdisk].
  unfold _format_worker.
  destruct (format_zero_fill h (with_log w) app_chunk_size fuel size drive [])
    as [o t]. cbn [fst snd] in *. subst o. exists t. auto.
Qed.

Lemma format_worker_wipes_witness :
  exists t,
    _format_worker linux_host good_world (Z.to_nat 737280) "A"
      (_resolve_format_size " 720KB " None)
    = (Some (FinishOk "Format completed successfully."), t) /\
    disk t = repeat Byte.x00 (Z.to_nat (_resolve_format_size " 720KB " None)).
Proof.
  apply (format_worker_wipes linux_host good_world " 720KB " None "A" (Z.to_nat 737280)).
  - split; [eexists; reflexivity | reflexivity].
  - split; reflexivity.
  - intros p. reflexivity.
  - intros i buf Hbuf. eexists. split; [reflexivity|].
    destruct buf; [congruence | simpl; lia].
  - change (_resolve_format_size " 720KB " None) with 737280. lia.
Defined.

(** X19: when the user stops an operation, its worker reports the
    user-interrupted error in its own words (on Unix, provided [os.close]
    succeeds): cancelling is shown as an error, with no hint added. *)
Theorem worker_reports_interruption (h : host) (w : world)
    (image : list Byte.byte) (fuel : nat) (size : Z) (drive : string) :
  close_ok h w ->
  (let r := _write_worker h w image drive in
   In (EvStop true) (snd r) ->
   fst r = Some (FinishErr (Some "Interrupted by user."))) /\
  (let r := _format_worker h w fuel drive size in
   fst r <> None ->
   In (EvStop true) (snd r) ->
   fst r = Some (FinishErr (Some "Interrupted by user."))).
Proof.
  intros Hclose. pose proof (platform_raw_event h) as Hev. split.
  - intros r. subst r. unfold _write_worker.
    pose proof (write_image_shaped h (with_log w) app_chunk_size image drive) as Hsh.
    destruct (write_image h (with_log w) app_chunk_size image drive []) as [o0 t0].
    assert (Hin : In (EvStop true) t0 -> o0 = Raised interrupted).
    { intros Hin. destruct Hsh as (pre & t & post & HT & Hq & _ & _ & Hcase).
      cbn [fst snd] in *.
      destruct (around_loop pre t post Hq) as (_ & _ & _ & _ & _ & _ & Hstop & _).
      rewrite HT in Hin. apply Hstop in Hin.
      destruct Hcase as [(-> & _)|(_ & _ & o & Hrun & Hraise & _)]; [destruct Hin|].
      destruct (write_run_interrupted _ _ _ _ _ Hev _ _ _ _ _ _ Hrun Hin) as (Ho & _).
      eapply Hraise; eauto. }
    destruct o0 as [[]|e|]; cbn [fst snd]; intros H; specialize (Hin H);
      inversion Hin; subst; reflexivity.
  - intros r. subst r. unfold _format_worker.
    destruct (format_zero_fill h (with_log w) app_chunk_size fuel size drive [])
      as [o0 t0] eqn:E.
    assert (Hin : o0 <> OutOfFuel -> In (EvStop true) t0 -> o0 = Raised interrupted).
    { intros Hfuel Hin.
      assert (Hfuel' : fst (format_zero_fill h (with_log w) app_chunk_size fuel size
                              drive []) <> OutOfFuel) by (rewrite E; exact Hfuel).
      pose proof (format_zero_fill_shaped h (with_log w) app_chunk_size fuel size drive
                    Hfuel') as Hsh.
      rewrite E in Hsh.
      destruct Hsh as (pre & t & post & HT & Hq & _ & _ & Hcase).
      cbn [fst snd] in *.
      destruct (around_loop pre t post Hq) as (_ & _ & _ & _ & _ & _ & Hstop & _).
      rewrite HT in Hin. apply Hstop in Hin.
      destruct Hcase as [(-> & _)|(_ & _ & o & Hrun & Hraise & _)]; [destruct Hin|].
      destruct (format_run_interrupted _ _ _ _ _ Hev _ _ _ _ _ Hrun Hin) as (_ & Ho & _).
      eapply Hraise; eauto. }
    destruct o0 as [[]|e|]; cbn [fst snd]; intros Hsome H;
      try congruence;
      specialize (Hin ltac:(discriminate) H); inversion Hin; subst; reflexivity.
Qed.

Lemma worker_reports_interruption_witness :
  let r := _write_worker windows_host (stop_from 1) image5 "A" in
  In (EvStop true) (snd r) /\
  fst r = Some (FinishErr (Some "Interrupted by user.")).
Proof.
  intros r.
  assert (Hin : In (EvStop true) (snd r)) by (vm_compute; auto 10).
  split; [exact Hin|].
  assert (Hclose : close_ok windows_host (stop_from 1)) by (left; reflexivity).
  destruct (worker_reports_interruption windows_host (stop_from 1) image5 0 0 "A" Hclose)
    as [Hwrite _].
  apply Hwrite. exact Hin.
Defined.

Lemma resolve_linux_raises (h : host) (drive : string) (e : exn) :
  platform_name h = "linux" ->
  resolve_device_path h drive = Raise e ->
  e = FileNotFoundError "No suitable floppy device found on Linux.".
Proof.
  intros Hp. unfold resolve_device_path. rewrite Hp.
  change (String.eqb "linux" "windows") with false.
  change (String.eqb "linux" "linux") with true. cbv iota.
  destruct (first_existing h _); [discriminate|].
  destruct (linux_discovery_never_raises h) as [[r Hr] _]. rewrite Hr.
  destruct (found r); [discriminate|]. intros H. inversion H. reflexivity.
Qed.

(** X20: when the device cannot be resolved, a worker touches nothing and
    shows what [format_error] makes of the exception; on Linux that is
    always the device-not-found hint, whatever [lsblk] did. *)
Theorem worker_device_not_found (h : host) (w : world)
    (image : list Byte.byte) (fuel : nat) (size : Z) (drive : string) (e : exn) :
  resolve_device_path h drive = Raise e ->
  _write_worker h w image drive = (Some (FinishErr (format_error e)), []) /\
  _format_worker h w fuel drive size = (Some (FinishErr (format_error e)), []) /\
  (platform_name h = "linux" -> format_error e = Some not_found_hint).
Proof.
  intros Hres. split; [|split].
  - unfold _write_worker, write_image, bind, lift, raise. rewrite Hres. reflexivity.
  - unfold _format_worker, format_zero_fill, bind, lift, raise. rewrite Hres. reflexivity.
  - intros Hp. rewrite (resolve_linux_raises h drive e Hp Hres). reflexivity.
Qed.

Lemma worker_device_not_found_witness :
  let h := mkHost "linux" (fun _ => false) no_inventory no_plist
             (fun _ => "") None (fun _ => "") in
  let e := FileNotFoundError "No suitable floppy device found on Linux." in
  _write_worker h good_world image5 "A" = (Some (FinishErr (format_error e)), []) /\
  _format_worker h good_world 0 "A" 1474560 = (Some (FinishErr (format_error e)), []) /\
  (platform_name h = "linux" -> format_error e = Some not_found_hint).
Proof.
  intros h e. apply (worker_device_not_found h good_world image5 0 1474560 "A" e).
  reflexivity.
Defined.

(** X21: when Windows refuses to open the device, the worker writes nothing
    and words the failure by the error code alone, read as a C error
    number: codes 1 and 13 give the permission hint, code 2 the
    device-not-found hint, and every other code, access denied (5)
    included, the text of the exception without a hint:
    [[Errno c] CreateFileW failed (WinError c)]. *)
Theorem worker_windows_open_error (h : host) (w : world)
    (image : list Byte.byte) (drive : string) (code : Z) :
  is_windows h = true ->
  CreateFileW w = Some code ->
  exists t,
    _write_worker h w image drive
    = (Some (FinishErr
              (Some (if (code =? 1) || (code =? 13) then permission_hint
                     else if code =? 2 then not_found_hint
                     else "[Errno " +++ str_int code +++ "] CreateFileW failed (WinError "
                          +++ str_int code +++ ")"))), t) /\
    writes t = 0%nat /\ existsb is_opened t = false.
Proof.
  intros Hwin Hcreate.
  assert (Hp : platform_name h = "windows")
    by (unfold is_windows in Hwin; apply String.eqb_eq in Hwin; exact Hwin).
  unfold _write_worker, write_image, resolve_device_path. rewrite Hp.
  change (String.eqb "windows" "windows") with true. cbv iota.
  unfold bind at 1, lift, ret. unfold bind at 1, call_log_cb.
  cbn [has_log_cb with_log emit].
  unfold _write_windows, bind at 1, _open_device_handle. rewrite Hwin.
  cbn [negb CreateFileW with_log]. rewrite Hcreate.
  unfold bind, emit, raise. cbn [fst snd].
  eexists. split.
  - unfold format_error, is_permission_error, is_file_not_found_error, _winerr,
      exn_str, EPERM, EACCES, ENOENT.
    destruct ((code =? 1) || (code =? 13)); [reflexivity|].
    destruct (code =? 2); reflexivity.
  - split; reflexivity.
Qed.

Lemma worker_windows_open_error_witness :
  let w := mkWorld (fun _ => false) false (Some 5) (fun _ => None) whole
             None None None None None in
  exists t,
    _write_worker windows_host w image5 "A"
    = (Some (FinishErr (Some "[Errno 5] CreateFileW failed (WinError 5)")), t) /\
    writes t = 0%nat /\ existsb is_opened t = false.
Proof.
  intros w. apply (worker_windows_open_error windows_host w image5 "A" 5); reflexivity.
Defined.

Example py_repr_plain : py_repr "/dev/fd0" = "'/dev/fd0'".
Proof. reflexivity. Qed.

Example py_repr_single_quote :
  py_repr "sd'a" = String double_quote ("sd'a" +++ String double_quote "").
Proof. reflexivity. Qed.

Example py_repr_backslash : py_repr "a\b" = "'a\\b'".
Proof. reflexivity. Qed.

(** On Unix the text names the device, quoted as [repr] does. *)
Example unix_open_error_names_device :
  fst (_write_worker
         (mkHost "linux" (fun _ => true) no_inventory no_plist (fun _ => "") None
                 (fun _ => "Device or resource busy"))
         (mkWorld (fun _ => false) false None (fun _ => None) whole None None
                  (Some 16) None None)
         image5 "A")
  = Some (FinishErr (Some "[Errno 16] Device or resource busy: '/dev/fd0'")).
Proof. reflexivity. Qed.

(** ** What is on the device, whatever the outcome *)

Section Prefixes.

Variable ev : list Byte.byte -> option Z -> event.
Variable err : Z -> exn.
Variable w : world.
Variable chunk_size : Z.
Hypothesis Hev : raw_event ev.

Lemma committed_length (n : Z) (buf : list Byte.byte) :
  List.length (firstn (Z.to_nat (committed n buf)) buf) = Z.to_nat (committed n buf).
Proof.
  pose proof (committed_bounds n buf). rewrite firstn_length_le; lia.
Qed.

Lemma write_run_reports total p i f wt t o :
  write_run ev err w chunk_size total p i f wt t o ->
  (progress_calls t = [] /\ disk t = []) \/
  exists cs, progress_calls t = cs ++ [(wt + Z.of_nat (List.length (disk t)), total)].
Proof.
  induction 1 as [p i f wt Hs|p i f wt Hs Hb|p i f wt code Hs Hb Hw
                 |p i f wt n t o Hs Hb Hw Hrun IH].
  - left. split; reflexivity.
  - left. split; reflexivity.
  - left. destruct Hev as [-> | ->]; split; reflexivity.
  - right. rewrite (progress_chunk ev Hev), (disk_chunk ev Hev), length_app.
    pose proof (committed_bounds n (fst (file_read chunk_size f))) as Hb'.
    rewrite committed_length.
    set (k := committed n (fst (file_read chunk_size f))) in *.
    destruct IH as [[Hp Hd]|[cs Hcs]].
    + exists []. rewrite Hp, Hd.
      replace (wt + Z.of_nat (Z.to_nat k + List.length (@nil Byte.byte))) with (wt + k)
        by (cbn [List.length]; lia).
      reflexivity.
    + exists ((wt + k, total) :: cs). rewrite Hcs.
      replace (wt + Z.of_nat (Z.to_nat k + List.length (disk t)))
        with (wt + k + Z.of_nat (List.length (disk t))) by lia.
      reflexivity.
Qed.

Lemma format_run_reports size p i wt t o :
  format_run ev err w chunk_size size p i wt t o ->
  (progress_calls t = [] /\ disk t = []) \/
  exists cs, progress_calls t = cs ++ [(wt + Z.of_nat (List.length (disk t)), size)].
Proof.
  induction 1 as [p i wt Hd|p i wt Hlt Hs|p i wt code Hlt Hs Hw
                 |p i wt n t o Hlt Hs Hw Hrun IH].
  - left. split; reflexivity.
  - left. split; reflexivity.
  - left. destruct Hev as [-> | ->]; split; reflexivity.
  - right. rewrite (progress_chunk ev Hev), (disk_chunk ev Hev), length_app.
    pose proof (committed_bounds n (zero_chunk chunk_size size wt)) as Hb'.
    rewrite committed_length.
    set (k := committed n (zero_chunk chunk_size size wt)) in *.
    destruct IH as [[Hp Hd]|[cs Hcs]].
    + exists []. rewrite Hp, Hd.
      replace (wt + Z.of_nat (Z.to_nat k + List.length (@nil Byte.byte))) with (wt + k)
        by (cbn [List.length]; lia).
      reflexivity.
    + exists ((wt + k, size) :: cs). rewrite Hcs.
      replace (wt + Z.of_nat (Z.to_nat k + List.length (disk t)))
        with (wt + k + Z.of_nat (List.length (disk t))) by lia.
      reflexivity.
Qed.

Lemma write_run_holds_prefix total p i f wt t o :
  0 < chunk_size ->
  write_run ev err w chunk_size total p i f wt t o ->
  (List.length (disk t) <= List.length f)%nat /\
  (Forall returned_whole t ->
   disk t = firstn (Z.to_nat (Z.of_nat (count is_committed t) * chunk_size)) f).
Proof.
  intros Hc.
  assert (Hread : forall g, fst (file_read chunk_size g) = firstn (Z.to_nat chunk_size) g /\
                            snd (file_read chunk_size g) = skipn (Z.to_nat chunk_size) g).
  { intros g. unfold file_read.
    destruct (chunk_size <? 0) eqn:E; [apply Z.ltb_lt in E; lia | auto]. }
  induction 1 as [p i f wt Hs|p i f wt Hs Hb|p i f wt code Hs Hb Hw
                 |p i f wt n t o Hs Hb Hw Hrun [IHl IHp]].
  - split; [simpl; lia | reflexivity].
  - split; [simpl; lia | reflexivity].
  - destruct Hev as [-> | ->]; (split; [simpl; lia | reflexivity]).
  - rewrite (disk_chunk ev Hev).
    pose proof (committed_bounds n (fst (file_read chunk_size f))) as Hb'.
    pose proof (file_read_app chunk_size f) as Happ.
    split.
    + rewrite length_app, committed_length.
      rewrite <- Happ at 2. rewrite length_app. lia.
    + intros Hwhole.
      assert (Hk : committed n (fst (file_read chunk_size f))
                   = Z.of_nat (List.length (fst (file_read chunk_size f)))).
      { inversion Hwhole as [|? ? _ Hrest]; subst.
        inversion Hrest as [|? ? Hw1 _]; subst.
        destruct Hev as [Hx | Hx]; rewrite Hx in Hw1; exact Hw1. }
      assert (Hrest : Forall returned_whole t).
      { inversion Hwhole as [|? ? _ H1]; subst. inversion H1 as [|? ? _ H2]; subst.
        inversion H2; subst. assumption. }
      rewrite Hk, Nat2Z.id, firstn_all, (IHp Hrest).
      replace (count is_committed
                 (EvStop false
                  :: ev (fst (file_read chunk_size f))
                        (Some (Z.of_nat (List.length (fst (file_read chunk_size f)))))
                  :: EvProgress
                       (wt + Z.of_nat (List.length (fst (file_read chunk_size f)))) total
                  :: t))
        with (S (count is_committed t))
        by (destruct Hev as [-> | ->]; reflexivity).
      destruct (Hread f) as [-> ->].
      replace (Z.to_nat (Z.of_nat (S (count is_committed t)) * chunk_size))
        with (Z.to_nat chunk_size + Z.to_nat (Z.of_nat (count is_committed t) * chunk_size))%nat
        by nia.
      symmetry. apply firstn_add.
Qed.

End Prefixes.

Lemma quiet_returned_whole (t : trace) :
  forallb (fun e => negb (in_loop e)) t = true -> Forall returned_whole t.
Proof.
  induction t as [|e t IH]; intros H; [constructor|].
  simpl in H. apply andb_true_iff in H. destruct H as [He Ht].
  constructor; [|apply IH; exact Ht].
  destruct e; try exact I; discriminate.
Qed.

(** X22: whatever the outcome of [write_image], the device never receives
    more bytes than the image has; and when every raw write that returned
    took its whole chunk, the device holds a prefix of the image, its first
    [K] chunks for [K] writes that returned, whether the operation
    succeeded, was cancelled or failed. *)
Theorem device_holds_prefix (h : host) (w : world) (chunk_size : Z)
    (image : list Byte.byte) (drive : string) :
  0 < chunk_size ->
  let r := write_image h w chunk_size image drive [] in
  (List.length (disk (snd r)) <= List.length image)%nat /\
  (Forall returned_whole (snd r) ->
   disk (snd r)
   = firstn (Z.to_nat (Z.of_nat (count is_committed (snd r)) * chunk_size)) image).
Proof.
  intros Hc r. subst r. pose proof (platform_raw_event h) as Hev.
  destruct (write_image_shaped h w chunk_size image drive)
    as (pre & t & post & HT & Hq & _ & _ & Hcase).
  destruct (around_loop pre t post Hq) as (_ & Hd & _ & _ & Hcm & _).
  rewrite HT, Hd, Hcm.
  destruct Hcase as [(-> & _)|(_ & _ & o & Hrun & _)].
  - split; [simpl; lia | reflexivity].
  - destruct (write_run_holds_prefix _ _ _ _ Hev _ _ _ _ _ _ _ Hc Hrun) as [Hl Hp].
    split; [exact Hl|]. intros Hwhole. apply Hp.
    apply Forall_app in Hwhole. destruct Hwhole as [_ Hwhole].
    apply Forall_app in Hwhole. destruct Hwhole as [Hwhole _]. exact Hwhole.
Qed.

Lemma device_holds_prefix_witness :
  let w := world_with (fun _ => false)
             (fun k buf => match k with
                           | O => Wrote (Z.of_nat (List.length buf))
                           | S _ => WriteFailed 5
                           end) in
  let r := write_image linux_host w 2 image5 "A" [] in
  Forall returned_whole (snd r) /\
  disk (snd r) = firstn (Z.to_nat (Z.of_nat (count is_committed (snd r)) * 2)) image5.
Proof.
  intros w r.
  assert (Hw : Forall returned_whole (snd r)) by (vm_compute; repeat constructor).
  split; [exact Hw|].
  assert (Hc : 0 < 2) by lia.
  destruct (device_holds_prefix linux_host w 2 image5 "A" Hc) as [_ Hp].
  apply Hp. exact Hw.
Defined.

(** X23: progress is truthful about the device.  At the end of an
    operation, whatever its outcome, either no progress was reported and no
    byte is on the device, or the last count reported is the number of
    bytes on the device. *)
Theorem progress_reports_device (h : host) (w : world) (chunk_size : Z)
    (image : list Byte.byte) (fuel : nat) (size : Z) (drive : string) :
  (let r := write_image h w chunk_size image drive [] in
   reports_device (progress_calls (snd r)) (disk (snd r))) /\
  (let r := format_zero_fill h w chunk_size fuel size drive [] in
   fst r <> OutOfFuel ->
   reports_device (progress_calls (snd r)) (disk (snd r))).
Proof.
  pose proof (platform_raw_event h) as Hev. split.
  - intros r. subst r. unfold reports_device.
    destruct (write_image_shaped h w chunk_size image drive)
      as (pre & t & post & HT & Hq & _ & _ & Hcase).
    destruct (around_loop pre t post Hq) as (Hpc & Hd & _).
    rewrite HT, Hd, Hpc.
    destruct Hcase as [(-> & _)|(_ & _ & o & Hrun & _)]; [left; auto|].
    destruct (write_run_reports _ _ _ _ Hev _ _ _ _ _ _ _ Hrun) as [H|[cs H]];
      [left; exact H | right; exists cs; eexists; rewrite H; reflexivity].
  - intros r Hfuel. subst r. unfold reports_device.
    destruct (format_zero_fill_shaped h w chunk_size fuel size drive Hfuel)
      as (pre & t & post & HT & Hq & _ & _ & Hcase).
    destruct (around_loop pre t post Hq) as (Hpc & Hd & _).
    rewrite HT, Hd, Hpc.
    destruct Hcase as [(-> & _)|(_ & _ & o & Hrun & _)]; [left; auto|].
    destruct (format_run_reports _ _ _ _ Hev _ _ _ _ _ _ Hrun) as [H|[cs H]];
      [left; exact H | right; exists cs; eexists; rewrite H; reflexivity].
Qed.

Lemma progress_reports_device_witness :
  let r := format_zero_fill linux_host (stop_from 2) 2 10 7 "A" [] in
  fst r = Raised interrupted /\
  reports_device (progress_calls (snd r)) (disk (snd r)).
Proof.
  intros r. split; [reflexivity|].
  destruct (progress_reports_device linux_host (stop_from 2) 2 image5 10 7 "A")
    as [_ Hf].
  apply Hf. vm_compute. discriminate.
Defined.

(** * Acquisition, release and cancellation *)

Lemma failed_write_counts (t : trace) :
  existsb is_failed_write t = true -> writes t <> 0%nat.
Proof.
  induction t as [|e t IH]; [discriminate|].
  unfold writes in *. simpl.
  destruct e as [| | | | |? [?|]| | | | |? [?|]| |]; simpl; try discriminate; auto.
Qed.

Lemma shaped_held h w drive run r :
  (forall t o, run t o -> forallb in_loop t = true) ->
  shaped h w drive run r ->
  fst r = Done tt \/ In (EvStop true) (snd r) \/ writes (snd r) <> 0%nat \/
  existsb is_failed_write (snd r) = true \/ setup_ok h w drive ->
  held (is_windows h) (snd r).
Proof.
  intros Hloop Hsh Hreached.
  pose proof (shaped_bracketed h w drive run r Hloop Hsh) as (_ & Hopened & _).
  destruct Hsh as (pre & t & post & HT & Hq & _ & _ & Hcase).
  destruct (around_loop pre t post Hq)
    as (_ & _ & _ & Hw & _ & _ & Hstop & _ & Hbefore).
  destruct Hcase as [(-> & [e He] & Hno)|(Hacq & Hop & _)].
  - exfalso. destruct Hreached as [H|[H|[H|[H|H]]]].
    + congruence.
    + rewrite HT in H. apply Hstop in H. destruct H.
    + rewrite HT, Hw in H. apply H. reflexivity.
    + apply failed_write_counts in H. rewrite HT, Hw in H. apply H. reflexivity.
    + contradiction.
  - assert (Ho : existsb is_opened (snd r) = true)
      by (rewrite HT, existsb_app, Hop; reflexivity).
    destruct (Hopened Ho) as (Hc & Hu & He).
    unfold held. split; [exact Ho|]. split; [|auto].
    rewrite HT, Hbefore. apply acquired_app. exact Hacq.
Qed.

(** C4: an execution of [write_image], or one of [format_zero_fill] that
    ends, that returns normally, is cancelled, fails at a raw write or has
    written anything, has opened the device, acquired the volume before its
    first raw write (locked then dismounted it on Windows, run the unmount
    command on Unix) and released the device exactly once, as the last thing
    it did (unlock then close on Windows, close on Unix); so has every
    execution on a device that can be set up, whatever happens afterwards.
    A device that could not be opened is neither written nor released. *)
Theorem acquire_before_write_release_once (h : host) (w : world) (chunk_size : Z)
    (image : list Byte.byte) (fuel : nat) (size : Z) (drive : string) :
  (let r := write_image h w chunk_size image drive [] in
   fst r <> OutOfFuel /\
   bracketed (is_windows h) (snd r) /\
   (fst r = Done tt \/ In (EvStop true) (snd r) \/ writes (snd r) <> 0%nat \/
    existsb is_failed_write (snd r) = true \/ setup_ok h w drive ->
    held (is_windows h) (snd r))) /\
  (let r := format_zero_fill h w chunk_size fuel size drive [] in
   fst r <> OutOfFuel ->
   bracketed (is_windows h) (snd r) /\
   (fst r = Done tt \/ In (EvStop true) (snd r) \/ writes (snd r) <> 0%nat \/
    existsb is_failed_write (snd r) = true \/ setup_ok h w drive ->
    held (is_windows h) (snd r))).
Proof.
  pose proof (platform_raw_event h) as Hev.
  assert (Hwl : forall t o,
            write_run (platform_event h) (platform_error h) w chunk_size
              (Z.of_nat (List.length image)) 0 0 image 0 t o ->
            forallb in_loop t = true)
    by (intros t o Hrun; eapply write_run_in_loop; eauto).
  assert (Hfl : forall t o,
            format_run (platform_event h) (platform_error h) w chunk_size size 0 0 0 t o ->
            forallb in_loop t = true)
    by (intros t o Hrun; eapply format_run_in_loop; eauto).
  split.
  - intros r. subst r.
    pose proof (write_image_shaped h w chunk_size image drive) as Hsh.
    split; [|split].
    + destruct Hsh as (pre & t & post & _ & _ & _ & Hf & _). exact Hf.
    + exact (shaped_bracketed _ _ _ _ _ Hwl Hsh).
    + exact (shaped_held _ _ _ _ _ Hwl Hsh).
  - intros r Hfuel. subst r.
    pose proof (format_zero_fill_shaped h w chunk_size fuel size drive Hfuel) as Hsh.
    split.
    + exact (shaped_bracketed _ _ _ _ _ Hfl Hsh).
    + exact (shaped_held _ _ _ _ _ Hfl Hsh).
Qed.

Lemma acquire_before_write_release_once_witness :
  let r := format_zero_fill windows_host good_world 2 5 5 "A" [] in
  fst r = Done tt /\
  bracketed (is_windows windows_host) (snd r) /\
  held (is_windows windows_host) (snd r).
Proof.
  intros r.
  assert (Hfuel : fst r <> OutOfFuel) by (vm_compute; discriminate).
  destruct (acquire_before_write_release_once windows_host good_world 2 image5 5 5 "A")
    as [_ Hf].
  destruct (Hf Hfuel) as [Hb Hh].
  split; [reflexivity|]. split; [exact Hb|].
  apply Hh. left. reflexivity.
Defined.

Example held_events_on_windows :
  snd (format_zero_fill windows_host good_world 2 5 2 "A" [])
  = [EvLog "Target device: \\.\A:" "info"; EvCreateFile "\\.\A:" true;
     EvIoctl FSCTL_LOCK_VOLUME true; EvIoctl FSCTL_DISMOUNT_VOLUME true;
     EvStop false; EvWriteFile [Byte.x00; Byte.x00] (Some 2); EvProgress 2 2;
     EvFlush true; EvLog "WinAPI flush complete (or safely ignored)" "info";
     EvIoctl FSCTL_UNLOCK_VOLUME true; EvCloseHandle].
Proof. vm_compute. reflexivity. Qed.

Section Stops.

Variable ev : list Byte.byte -> option Z -> event.
Variable err : Z -> exn.
Variable w : world.
Variable chunk_size : Z.
Hypothesis Hev : raw_event ev.

Lemma chunk_not_stop buf r a b t :
  In (EvStop true) (EvStop false :: ev buf r :: EvProgress a b :: t) ->
  In (EvStop true) t.
Proof.
  intros [H|[H|[H|H]]];
    [discriminate | destruct Hev as [-> | ->]; discriminate | discriminate | exact H].
Qed.

Lemma write_run_stop total p i f wt t o :
  write_run ev err w chunk_size total p i f wt t o ->
  In (EvStop true) t ->
  exists t0,
    t = t0 ++ [EvStop true] /\ ~ In (EvStop true) t0 /\
    polls t0 = writes t0 /\
    stop_cb w (p + writes t0) = true /\
    (forall q, (p <= q < p + writes t0)%nat -> stop_cb w q = false).
Proof.
  induction 1 as [p i f wt Hs|p i f wt Hs Hb|p i f wt code Hs Hb Hw
                 |p i f wt n t o Hs Hb Hw Hrun IH]; intros Hin.
  - exists []. split; [reflexivity|]. split; [intros []|]. split; [reflexivity|].
    cbn. rewrite Nat.add_0_r. split; [exact Hs | intros q Hq; lia].
  - destruct Hin as [H|[]]. discriminate.
  - destruct Hin as [H|[H|[]]]; [discriminate | destruct Hev as [-> | ->]; discriminate].
  - apply chunk_not_stop in Hin.
    destruct (IH Hin) as (t0 & -> & Hn & Hp & Ht & Hf).
    eexists (_ :: _ :: _ :: t0). split; [reflexivity|].
    split; [intros H; apply chunk_not_stop in H; exact (Hn H)|].
    rewrite (polls_chunk ev Hev), (writes_chunk ev Hev), Hp.
    split; [reflexivity|].
    split; [rewrite Nat.add_succ_r; exact Ht|].
    intros q Hq. destruct (Nat.eq_dec q p) as [->|Hne]; [exact Hs|].
    apply Hf. lia.
Qed.

Lemma write_run_stop_bound total p i f wt t o :
  write_run ev err w chunk_size total p i f wt t o ->
  forall q, (p <= q)%nat -> stop_cb w q = true -> (writes t <= q - p)%nat.
Proof.
  induction 1 as [p i f wt Hs|p i f wt Hs Hb|p i f wt code Hs Hb Hw
                 |p i f wt n t o Hs Hb Hw Hrun IH]; intros q Hq Hstop.
  - cbn. lia.
  - cbn. lia.
  - assert (q <> p) by congruence.
    destruct Hev as [-> | ->]; cbn; lia.
  - assert (q <> p) by congruence.
    rewrite (writes_chunk ev Hev).
    assert (writes t <= q - S p)%nat by (apply IH; [lia | exact Hstop]). lia.
Qed.

Lemma write_run_stops_at_once total p i f wt t o :
  write_run ev err w chunk_size total p i f wt t o ->
  stop_cb w p = true -> t = [EvStop true].
Proof. intros H Hs. inversion H; subst; congruence. Qed.

Lemma format_run_stop size p i wt t o :
  format_run ev err w chunk_size size p i wt t o ->
  In (EvStop true) t ->
  exists t0,
    t = t0 ++ [EvStop true] /\ ~ In (EvStop true) t0 /\
    polls t0 = writes t0 /\
    stop_cb w (p + writes t0) = true /\
    (forall q, (p <= q < p + writes t0)%nat -> stop_cb w q = false).
Proof.
  induction 1 as [p i wt Hd|p i wt Hlt Hs|p i wt code Hlt Hs Hw
                 |p i wt n t o Hlt Hs Hw Hrun IH]; intros Hin.
  - destruct Hin.
  - exists []. split; [reflexivity|]. split; [intros []|]. split; [reflexivity|].
    cbn. rewrite Nat.add_0_r. split; [exact Hs | intros q Hq; lia].
  - destruct Hin as [H|[H|[]]]; [discriminate | destruct Hev as [-> | ->]; discriminate].
  - apply chunk_not_stop in Hin.
    destruct (IH Hin) as (t0 & -> & Hn & Hp & Ht & Hf).
    eexists (_ :: _ :: _ :: t0). split; [reflexivity|].
    split; [intros H; apply chunk_not_stop in H; exact (Hn H)|].
    rewrite (polls_chunk ev Hev), (writes_chunk ev Hev), Hp.
    split; [reflexivity|].
    split; [rewrite Nat.add_succ_r; exact Ht|].
    intros q Hq. destruct (Nat.eq_dec q p) as [->|Hne]; [exact Hs|].
    apply Hf. lia.
Qed.

Lemma format_run_stop_bound size p i wt t o :
  format_run ev err w chunk_size size p i wt t o ->
  forall q, (p <= q)%nat -> stop_cb w q = true -> (writes t <= q - p)%nat.
Proof.
  induction 1 as [p i wt Hd|p i wt Hlt Hs|p i wt code Hlt Hs Hw
                 |p i wt n t o Hlt Hs Hw Hrun IH]; intros q Hq Hstop.
  - cbn. lia.
  - cbn. lia.
  - assert (q <> p) by congruence.
    destruct Hev as [-> | ->]; cbn; lia.
  - assert (q <> p) by congruence.
    rewrite (writes_chunk ev Hev).
    assert (writes t <= q - S p)%nat by (apply IH; [lia | exact Hstop]). lia.
Qed.

Lemma format_run_stops_at_once size p i wt t o :
  format_run ev err w chunk_size size p i wt t o ->
  wt < size -> stop_cb w p = true -> t = [EvStop true].
Proof. intros H Hlt Hs. inversion H; subst; try congruence; lia. Qed.

End Stops.

(** From the run of the loop to the whole trace of a cancelled operation. *)
Lemma shaped_stopped h w drive run r :
  (forall t o, run t o -> In (EvStop true) t ->
     exists t0,
       t = t0 ++ [EvStop true] /\ ~ In (EvStop true) t0 /\
       polls t0 = writes t0 /\
       stop_cb w (0 + writes t0) = true /\
       (forall q, (0 <= q < 0 + writes t0)%nat -> stop_cb w q = false)) ->
  shaped h w drive run r ->
  In (EvStop true) (snd r) ->
  stopped_at w (snd r).
Proof.
  intros Hstop (pre & t & post & HT & Hq & _ & _ & Hcase) Hin.
  destruct (around_loop pre t post Hq) as (_ & _ & _ & Hw & _ & _ & Hs & _).
  destruct (quiet_parts _ _ Hq) as [Hpre Hpost].
  destruct (quiet_trace pre Hpre) as (Hp1 & Hw1 & _ & _ & _ & _ & _ & _ & Hn1 & _).
  destruct (quiet_trace post Hpost) as (Hp2 & Hw2 & _ & Hpc2 & _).
  unfold stopped_at. rewrite HT in Hin |- *. rewrite Hw. apply Hs in Hin.
  destruct Hcase as [(-> & _)|(_ & _ & o & Hrun & _)]; [destruct Hin|].
  destruct (Hstop _ _ Hrun Hin) as (t0 & -> & Hn & Hp & Ht & Hf).
  assert (Hwt : writes (t0 ++ [EvStop true]) = writes t0)
    by (rewrite writes_app; cbn; lia).
  rewrite Hwt. split; [|split; [exact Ht | intros p Hlt; apply Hf; lia]].
  exists (pre ++ t0), post.
  split; [rewrite <- !app_assoc; reflexivity|].
  split; [intros H; apply in_app_or in H; destruct H; auto|].
  rewrite polls_app, writes_app. repeat split; auto; lia.
Qed.

(** C3, as the code has it: for a positive chunk size, in an execution of
    [write_image], or one of [format_zero_fill] that ends, in which
    [stop_cb] answers true, its first true answer ends the loop: no raw
    write, poll or progress call follows it; the [K] raw writes made before
    it all returned, [K] being also the number of the polls that answered
    false; when each took its whole chunk the device holds the first [K]
    chunks of the image, or [K] chunks of zeros; the device, which was
    opened and acquired, is released once, as the last thing done; and the
    operation fails with the user-interrupted error, on Unix provided
    [os.close] does not fail.  Whatever the outcome, no more than [k] raw
    writes are made when poll [k] answers true; so nothing reaches the
    device when the first poll does, and the operation is then cancelled
    if the device can be set up (and there is something to wipe). *)
Theorem cancellation (h : host) (w : world) (chunk_size : Z)
    (image : list Byte.byte) (fuel : nat) (size : Z) (drive : string) :
  0 < chunk_size ->
  (let r := write_image h w chunk_size image drive [] in
   let K := writes (snd r) in
   (In (EvStop true) (snd r) ->
    stopped_at w (snd r) /\
    count is_committed (snd r) = K /\
    (Forall whole_write (snd r) ->
     disk (snd r) = List.concat (write_requests (snd r)) /\
     disk (snd r) = firstn (Z.to_nat (Z.of_nat K * chunk_size)) image) /\
    (close_ok h w -> fst r = Raised interrupted) /\
    held (is_windows h) (snd r)) /\
   (forall k, stop_cb w k = true -> (K <= k)%nat) /\
   (stop_cb w 0 = true ->
    disk (snd r) = [] /\ (setup_ok h w drive -> In (EvStop true) (snd r)))) /\
  (let r := format_zero_fill h w chunk_size fuel size drive [] in
   let K := writes (snd r) in
   fst r <> OutOfFuel ->
   (In (EvStop true) (snd r) ->
    stopped_at w (snd r) /\
    count is_committed (snd r) = K /\
    (Forall whole_write (snd r) ->
     disk (snd r) = List.concat (write_requests (snd r)) /\
     disk (snd r) = repeat Byte.x00 (Z.to_nat (Z.of_nat K * chunk_size))) /\
    (close_ok h w -> fst r = Raised interrupted) /\
    held (is_windows h) (snd r)) /\
   (forall k, stop_cb w k = true -> (K <= k)%nat) /\
   (stop_cb w 0 = true ->
    disk (snd r) = [] /\
    (setup_ok h w drive -> 0 < size -> In (EvStop true) (snd r)))).
Proof.
  intros Hc. pose proof (platform_raw_event h) as Hev.
  assert (Hwl : forall t o,
            write_run (platform_event h) (platform_error h) w chunk_size
              (Z.of_nat (List.length image)) 0 0 image 0 t o ->
            forallb in_loop t = true)
    by (intros t o Hrun; eapply write_run_in_loop; eauto).
  assert (Hfl : forall t o,
            format_run (platform_event h) (platform_error h) w chunk_size size 0 0 0 t o ->
            forallb in_loop t = true)
    by (intros t o Hrun; eapply format_run_in_loop; eauto).
  split.
  - intros r K. subst r K.
    pose proof (write_image_shaped h w chunk_size image drive) as Hsh.
    split; [|split].
    + intros Hin.
      assert (Hst := shaped_stopped _ _ _ _ _
                       (fun t o => write_run_stop _ _ _ _ Hev _ _ _ _ _ t o) Hsh Hin).
      assert (Hheld := shaped_held _ _ _ _ _ Hwl Hsh (or_intror (or_introl Hin))).
      destruct Hsh as (pre & t & post & HT & Hq & _ & _ & Hcase).
      destruct (around_loop pre t post Hq)
        as (_ & Hd & Hrq & Hw & Hcm & Hwhole & Hstop & _).
      split; [exact Hst|].
      rewrite HT in Hin |- *. apply Hstop in Hin. rewrite Hcm, Hw, Hd, Hrq.
      destruct Hcase as [(-> & _)|(_ & _ & o & Hrun & Hraise & _)]; [destruct Hin|].
      destruct (write_run_interrupted _ _ _ _ _ Hev _ _ _ _ _ _ Hrun Hin)
        as (Ho & _ & Hcount & Hdisk).
      split; [exact Hcount|]. split; [|split; [|rewrite <- HT; exact Hheld]].
      * intros Hf. apply Hwhole in Hf. apply Hdisk; auto.
      * intros Hclose. eapply Hraise; eauto.
    + intros k Hk.
      destruct Hsh as (pre & t & post & HT & Hq & _ & _ & Hcase).
      destruct (around_loop pre t post Hq) as (_ & _ & _ & Hw & _).
      rewrite HT, Hw.
      destruct Hcase as [(-> & _)|(_ & _ & o & Hrun & _)]; [cbn; lia|].
      pose proof (write_run_stop_bound _ _ _ _ Hev _ _ _ _ _ _ _ Hrun k
                    ltac:(lia) Hk). lia.
    + intros H0.
      destruct Hsh as (pre & t & post & HT & Hq & _ & _ & Hcase).
      destruct (around_loop pre t post Hq) as (_ & Hd & _ & Hw & _).
      rewrite HT, Hd.
      destruct Hcase as [(-> & _ & Hno)|(_ & _ & o & Hrun & _)].
      * split; [reflexivity | intros Hs; contradiction].
      * rewrite (write_run_stops_at_once _ _ _ _ _ _ _ _ _ _ _ Hrun H0).
        split; [reflexivity|]. intros _.
        apply in_or_app. right. left. reflexivity.
  - intros r K Hfuel. subst r K.
    pose proof (format_zero_fill_shaped h w chunk_size fuel size drive Hfuel) as Hsh.
    split; [|split].
    + intros Hin.
      assert (Hst := shaped_stopped _ _ _ _ _
                       (fun t o => format_run_stop _ _ _ _ Hev _ _ _ _ t o) Hsh Hin).
      assert (Hheld := shaped_held _ _ _ _ _ Hfl Hsh (or_intror (or_introl Hin))).
      destruct Hsh as (pre & t & post & HT & Hq & _ & _ & Hcase).
      destruct (around_loop pre t post Hq)
        as (_ & Hd & Hrq & Hw & Hcm & Hwhole & Hstop & _).
      split; [exact Hst|].
      rewrite HT in Hin |- *. apply Hstop in Hin. rewrite Hcm, Hw, Hd, Hrq.
      destruct Hcase as [(-> & _)|(_ & _ & o & Hrun & Hraise & _)]; [destruct Hin|].
      destruct (format_run_interrupted _ _ _ _ _ Hev _ _ _ _ _ Hrun Hin)
        as (_ & Ho & _ & Hcount & Hdisk).
      split; [exact Hcount|]. split; [|split; [|rewrite <- HT; exact Hheld]].
      * intros Hf. apply Hwhole in Hf. apply Hdisk; auto.
      * intros Hclose. eapply Hraise; eauto.
    + intros k Hk.
      destruct Hsh as (pre & t & post & HT & Hq & _ & _ & Hcase).
      destruct (around_loop pre t post Hq) as (_ & _ & _ & Hw & _).
      rewrite HT, Hw.
      destruct Hcase as [(-> & _)|(_ & _ & o & Hrun & _)]; [cbn; lia|].
      pose proof (format_run_stop_bound _ _ _ _ Hev _ _ _ _ _ _ Hrun k
                    ltac:(lia) Hk). lia.
    + intros H0.
      destruct Hsh as (pre & t & post & HT & Hq & _ & _ & Hcase).
      destruct (around_loop pre t post Hq) as (_ & Hd & _ & Hw & _).
      rewrite HT, Hd.
      destruct Hcase as [(-> & _ & Hno)|(_ & _ & o & Hrun & _)].
      * split; [reflexivity | intros Hs; contradiction].
      * split.
        -- apply no_writes_no_bytes.
           pose proof (format_run_stop_bound _ _ _ _ Hev _ _ _ _ _ _ Hrun 0%nat
                         ltac:(lia) H0). lia.
        -- intros _ Hsize.
           rewrite (format_run_stops_at_once _ _ _ _ _ _ _ _ _ _ Hrun Hsize H0).
           apply in_or_app. right. left. reflexivity.
Qed.

Lemma cancellation_witness :
  let r := write_image windows_host (stop_from 1) 2 image5 "A" [] in
  In (EvStop true) (snd r) /\
  stopped_at (stop_from 1) (snd r) /\
  count is_committed (snd r) = writes (snd r) /\
  writes (snd r) = 1%nat /\
  disk (snd r) = firstn (Z.to_nat (Z.of_nat (writes (snd r)) * 2)) image5 /\
  fst r = Raised interrupted /\
  held (is_windows windows_host) (snd r).
Proof.
  assert (Hin : In (EvStop true)
                  (snd (write_image windows_host (stop_from 1) 2 image5 "A" []))).
  { vm_compute. do 7 right. left. reflexivity. }
  destruct (cancellation windows_host (stop_from 1) 2 image5 0 0 "A") as [Hw _];
    [lia|].
  destruct Hw as [Hw _].
  destruct (Hw Hin) as (H1 & H2 & H3 & H4 & H5).
  split; [exact Hin|]. split; [exact H1|]. split; [exact H2|].
  split; [reflexivity|]. split; [|split; [apply H4; left; reflexivity | exact H5]].
  apply H3. vm_compute. repeat constructor.
Defined.

(** C3, counterexample: the claim has every cancelled operation fail with
    the user-interrupted error and hold exactly the bytes of the chunks
    written.  On Unix, when [os.close] fails, the operation the user stopped
    raises the error of [os.close] instead; and when the first raw write
    took one byte of its two-byte chunk before the user stopped, one chunk
    has been written but the device holds one byte of it. *)
Lemma cancellation_counterexample :
  (let r := write_image close_fails_host close_fails_world 2 image5 "A" [] in
   In (EvStop true) (snd r) /\
   fst r = Raised (OSError 5 "Input/output error")) /\
  (let r := write_image linux_host short_then_stop 2
              [Byte.x01; Byte.x02; Byte.x03] "A" [] in
   In (EvStop true) (snd r) /\
   write_requests (snd r) = [[Byte.x01; Byte.x02]] /\
   disk (snd r) = [Byte.x01]).
Proof.
  split.
  - split; [vm_compute; auto 10 | reflexivity].
  - split; [vm_compute; auto 10|]. split; reflexivity.
Qed.

(** C10, counterexample: the claim has every execution with a short write
    complete without raising.  When the first raw write takes one byte of
    its chunk and the user stops before the second, the operation raises
    the user-interrupted error. *)
Lemma write_image_short_write_counterexample :
  let r := write_image linux_host short_then_stop 2
             [Byte.x01; Byte.x02; Byte.x03] "A" [] in
  Exists short_write (snd r) /\
  fst r = Raised interrupted /\
  disk (snd r) = [Byte.x01].
Proof.
  split; [|split; reflexivity].
  vm_compute. do 4 apply Exists_cons_tl. apply Exists_cons_hd. reflexivity.
Qed.

(** ** What a worker shows *)

Lemma resolve_raises_only (h : host) (drive : string) (e : exn) :
  resolve_device_path h drive = Raise e ->
  (exists m, e = FileNotFoundError m) \/ (exists m, e = AttributeError m) \/
  (exists m, e = TypeError m).
Proof.
  unfold resolve_device_path.
  destruct (String.eqb (platform_name h) "windows"); [discriminate|].
  destruct (String.eqb (platform_name h) "linux").
  - destruct (first_existing h _); [discriminate|].
    destruct (linux_discovery_never_raises h) as [[r Hr] _]. rewrite Hr.
    destruct (found r); [discriminate|]. intros H. inversion H. eauto.
  - destruct (String.eqb (platform_name h) "macos"); [|intros H; inversion H; eauto].
    destruct (_mac_find_floppy_sized_disk h) as [dev|e0] eqn:E.
    + destruct (found dev); [discriminate|]. intros H. inversion H. eauto.
    + intros H. inversion H; subst.
      destruct (mac_discovery_raises_only h e E) as [Hm|Hm]; auto.
Qed.

Lemma raised_has_text (h : host) (drive : string) (e : exn) :
  raised_by h drive e -> exists text, format_error e = Some text.
Proof.
  intros [Hres|[->|Hsys]].
  - destruct (resolve_raises_only h drive e Hres) as [[m ->]|[[m ->]|[m ->]]];
      cbn; eauto.
  - cbn. eauto.
  - unfold format_error.
    destruct (is_permission_error e); [eauto|].
    destruct (is_file_not_found_error e); [eauto|].
    destruct e; try discriminate; cbn; eauto.
Qed.

(** X24: a worker that ends with an error always has a text to show: the
    exception it caught is the one the device resolution raised, the
    user-interrupted error or the [OSError] of a system call, and
    [format_error] words each of them, with a hint or with the text of the
    exception. *)
Theorem worker_failure_has_text (h : host) (w : world)
    (image : list Byte.byte) (fuel : nat) (size : Z) (drive : string)
    (err : option string) :
  fst (_write_worker h w image drive) = Some (FinishErr err) \/
  fst (_format_worker h w fuel drive size) = Some (FinishErr err) ->
  exists e text,
    raised_by h drive e /\ format_error e = Some text /\ err = Some text.
Proof.
  intros [H|H].
  - unfold _write_worker in H.
    pose proof (write_image_settled h (with_log w) app_chunk_size image drive)
      as [Hraise _].
    destruct (write_image h (with_log w) app_chunk_size image drive []) as [o t].
    destruct o as [[]|e|]; cbn [fst] in *; try discriminate.
    inversion H as [Herr].
    destruct (raised_has_text h drive e (Hraise e eq_refl)) as [text Ht].
    exists e, text. rewrite Ht. auto.
  - unfold _format_worker in H.
    destruct (format_zero_fill h (with_log w) app_chunk_size fuel size drive [])
      as [o t] eqn:E.
    destruct o as [[]|e|]; cbn [fst] in *; try discriminate.
    inversion H as [Herr].
    assert (Hfuel : fst (format_zero_fill h (with_log w) app_chunk_size fuel size
                           drive []) <> OutOfFuel) by (rewrite E; discriminate).
    pose proof (format_zero_fill_settled h (with_log w) app_chunk_size fuel size drive
                  Hfuel) as [Hraise _].
    rewrite E in Hraise.
    destruct (raised_has_text h drive e (Hraise e eq_refl)) as [text Ht].
    exists e, text. rewrite Ht. auto.
Qed.

Lemma worker_failure_has_text_witness :
  exists e text,
    raised_by linux_host "A" e /\ format_error e = Some text /\
    Some "Interrupted by user." = Some text.
Proof.
  apply (worker_failure_has_text linux_host (stop_from 1) image5 0 0 "A"
           (Some "Interrupted by user.")).
  left. reflexivity.
Defined.
